(** * The WebGL fluid background of class_display
      (static/js/fluid.js and its wrapper static/js/fluid_theme.js)

    A shallow embedding of the fluid engine: the GL objects it allocates
    (textures, framebuffers), the fragment programs it runs, the
    double-buffered fields, and the functions of the [initFluid] closure
    ([setSize], [step], [splat], [splatRandom], [resize], [destroy]);
    and of the theme wrapper that constructs the engine, seeds it and
    drives it from the countdown.

    Numbers.  JavaScript doubles and the half-float texels are modelled by
    real numbers; there is no NaN or infinity.  The rounding of double
    arithmetic is written out where its result is made a whole number,
    which rounding can change: the size of the grid,
    [Math.floor(clientWidth * dpr)], and the count [randInt] returns.
    There a function [fl] takes the exact result of an operation to the
    double that stands for it; statements hold for any such function
    unless they say what they use of it.  Everywhere else a value is the
    one of the rounding-free computation, which the script and the GPU
    reproduce up to rounding: an equality between colours, velocities or
    weights is exact over the reals and approximate on the machine.
    Integers (sizes in device pixels, texel indices, object names) are [Z]
    and [nat]. *)

From Stdlib Require Import Reals Lra Lia ZArith List String.
From stdpp Require Import base option gmap.
Import ListNotations.

Open Scope R_scope.

(** ** GLSL vectors *)

Record vec2 := mk2 { x2 : R; y2 : R }.
Record vec3 := mk3 { x3 : R; y3 : R; z3 : R }.
Record vec4 := mk4 { vx : R; vy : R; vz : R; vw : R }.

Definition add2 (a b : vec2) : vec2 := mk2 (x2 a + x2 b) (y2 a + y2 b).
Definition sub2 (a b : vec2) : vec2 := mk2 (x2 a - x2 b) (y2 a - y2 b).
Definition scale2 (k : R) (a : vec2) : vec2 := mk2 (k * x2 a) (k * y2 a).
Definition mul2 (a b : vec2) : vec2 := mk2 (x2 a * x2 b) (y2 a * y2 b).
Definition xy (v : vec4) : vec2 := mk2 (vx v) (vy v).

Definition add4 (a b : vec4) : vec4 :=
  mk4 (vx a + vx b) (vy a + vy b) (vz a + vz b) (vw a + vw b).
Definition scale4 (k : R) (a : vec4) : vec4 :=
  mk4 (k * vx a) (k * vy a) (k * vz a) (k * vw a).

(** GLSL [distance(p, q)]. *)
Definition distance (p q : vec2) : R :=
  sqrt ((x2 p - x2 q) * (x2 p - x2 q) + (y2 p - y2 q) * (y2 p - y2 q)).

(** GLSL [mix(a, b, f)], used by the hardware bilinear filter. *)
Definition mix4 (a b : vec4) (f : R) : vec4 := add4 (scale4 (1 - f) a) (scale4 f b).

(** ** Textures *)

Inductive format := RGBA16F | RG16F | R16F.
Inductive filter := LINEAR | NEAREST.

Definition image := Z -> Z -> vec4.

Record texture := mkTexture {
  tw : Z;
  th : Z;
  tfmt : format;
  tfilter : filter;
  timg : image
}.

(** What a texel of a given format returns after [v] was written to it:
    channels the format does not store read back as 0, alpha as 1. *)
Definition mask (f : format) (v : vec4) : vec4 :=
  match f with
  | RGBA16F => v
  | RG16F => mk4 (vx v) (vy v) 0 1
  | R16F => mk4 (vx v) 0 0 1
  end.

(** [texImage2D(..., null)]: storage is zero-filled. *)
Definition blank (w h : Z) (f : format) (flt : filter) : texture :=
  mkTexture w h f flt (fun _ _ => mask f (mk4 0 0 0 0)).

(** CLAMP_TO_EDGE on both axes. *)
Definition clampi (n i : Z) : Z := Z.max 0 (Z.min (n - 1) i).

Definition texelFetch (t : texture) (i j : Z) : vec4 :=
  timg t (clampi (tw t) i) (clampi (th t) j).

(** GLSL [texture(sampler, uv)] for the two filters in use. *)
Definition sample (t : texture) (uv : vec2) : vec4 :=
  let x := x2 uv * IZR (tw t) in
  let y := y2 uv * IZR (th t) in
  match tfilter t with
  | NEAREST => texelFetch t (Zfloor x) (Zfloor y)
  | LINEAR =>
      let i := Zfloor (x - 1 / 2) in
      let j := Zfloor (y - 1 / 2) in
      let fx := x - 1 / 2 - IZR i in
      let fy := y - 1 / 2 - IZR j in
      mix4 (mix4 (texelFetch t i j) (texelFetch t (i + 1) j) fx)
           (mix4 (texelFetch t i (j + 1)) (texelFetch t (i + 1) (j + 1)) fx)
           fy
  end.

(** ** Fragment programs

    Each program is the body of its [main], as a function of its uniforms
    and of the interpolated [vUv]; a [sampler2D] is the texture bound to
    the unit the uniform names. *)

Definition sampler2D := vec2 -> vec4.

Definition copyFrag (uTex : sampler2D) (vUv : vec2) : vec4 := uTex vUv.

Definition advectFrag (uSrc uVel : sampler2D) (uTexel : vec2) (uDt : R)
    (vUv : vec2) : vec4 :=
  let v := scale2 1 (xy (uVel vUv)) in
  let coord := sub2 vUv (mul2 (scale2 uDt v) uTexel) in
  uSrc coord.

Definition divergenceFrag (uVel : sampler2D) (uTexel : vec2) (vUv : vec2) : vec4 :=
  let L := vx (uVel (sub2 vUv (mk2 (x2 uTexel) 0))) in
  let R_ := vx (uVel (add2 vUv (mk2 (x2 uTexel) 0))) in
  let B := vy (uVel (sub2 vUv (mk2 0 (y2 uTexel)))) in
  let T := vy (uVel (add2 vUv (mk2 0 (y2 uTexel)))) in
  let div := 0.5 * ((R_ - L) + (T - B)) in
  mk4 div 0 0 1.

Definition clearFrag (uTex : sampler2D) (uDissipation : R) (vUv : vec2) : vec4 :=
  let c := uTex vUv in
  scale4 uDissipation c.

Definition pressureFrag (uPressure uDivergence : sampler2D) (uTexel : vec2)
    (vUv : vec2) : vec4 :=
  let L := vx (uPressure (sub2 vUv (mk2 (x2 uTexel) 0))) in
  let R_ := vx (uPressure (add2 vUv (mk2 (x2 uTexel) 0))) in
  let B := vx (uPressure (sub2 vUv (mk2 0 (y2 uTexel)))) in
  let T := vx (uPressure (add2 vUv (mk2 0 (y2 uTexel)))) in
  let div := vx (uDivergence vUv) in
  let p := (L + R_ + B + T - div) * 0.25 in
  mk4 p 0 0 1.

Definition gradientSubtractFrag (uVel uPressure : sampler2D) (uTexel : vec2)
    (vUv : vec2) : vec4 :=
  let L := vx (uPressure (sub2 vUv (mk2 (x2 uTexel) 0))) in
  let R_ := vx (uPressure (add2 vUv (mk2 (x2 uTexel) 0))) in
  let B := vx (uPressure (sub2 vUv (mk2 0 (y2 uTexel)))) in
  let T := vx (uPressure (add2 vUv (mk2 0 (y2 uTexel)))) in
  let grad := scale2 0.5 (mk2 (R_ - L) (T - B)) in
  let v := sub2 (xy (uVel vUv)) grad in
  mk4 (x2 v) (y2 v) 0 1.

(** The Gaussian weight shared by the two splat programs.  It is the
    exact value: positive everywhere, where the GPU's [exp] gives 0 far
    from the point. *)
Definition falloff (vUv uPoint : vec2) (uRadius : R) : R :=
  let d := distance vUv uPoint in
  exp (- (d * d) / Rmax 1e-6 (uRadius * uRadius)).

Definition splatFrag (uTarget : sampler2D) (uPoint : vec2) (uColor : vec3)
    (uRadius : R) (vUv : vec2) : vec4 :=
  let a := falloff vUv uPoint uRadius in
  let base := uTarget vUv in
  add4 base (mk4 (x3 uColor * a) (y3 uColor * a) (z3 uColor * a) a).

Definition splatVelFrag (uTarget : sampler2D) (uPoint : vec2) (uForce : vec2)
    (uRadius : R) (vUv : vec2) : vec4 :=
  let a := falloff vUv uPoint uRadius in
  let v := add2 (xy (uTarget vUv)) (scale2 a uForce) in
  mk4 (x2 v) (y2 v) 0 1.

Definition displayFrag (uDye : sampler2D) (vUv : vec2) : vec4 := uDye vUv.

(** ** The GL context

    Object names are natural numbers handed out by a counter.  A draw call
    is recorded together with the program, the textures bound to its
    sampler uniforms and the values of its other uniforms. *)

Inductive pass :=
  | Advect (uSrc uVel : nat) (uTexel : vec2) (uDt : R)
  | Dissipate (uTex : nat) (uDissipation : R)
  | Divergence (uVel : nat) (uTexel : vec2)
  | Pressure (uPressure uDivergence : nat) (uTexel : vec2)
  | GradientSubtract (uVel uPressure : nat) (uTexel : vec2)
  | Splat (uTarget : nat) (uPoint : vec2) (uColor : vec3) (uRadius : R)
  | SplatVel (uTarget : nat) (uPoint : vec2) (uForce : vec2) (uRadius : R)
  | Display (uDye : nat).

(** Commands that make the GPU work; [target] is the bound framebuffer,
    [None] being the canvas. *)
Inductive command :=
  | TexImage2D (name : nat) (w h : Z) (f : format)
  | Clear (target : option nat)
  | DrawArrays (target : option nat) (p : pass).

Record GL := mkGL {
  color_buffer_float : bool;        (* EXT_color_buffer_float is enabled *)
  textures : gmap nat texture;
  framebuffers : gmap nat nat;      (* framebuffer -> COLOR_ATTACHMENT0 *)
  next_name : nat;
  bound : option nat;               (* FRAMEBUFFER binding *)
  viewport : Z * Z;
  log : list command
}.

(** [texture(u, uv)] where the unit of [u] holds texture [name]. *)
Definition bound_sampler (g : GL) (name : nat) : sampler2D :=
  fun uv => match textures g !! name with
            | Some t => sample t uv
            | None => mk4 0 0 0 1
            end.

Definition frag_of (g : GL) (p : pass) : vec2 -> vec4 :=
  match p with
  | Advect s v tx dt => advectFrag (bound_sampler g s) (bound_sampler g v) tx dt
  | Dissipate t d => clearFrag (bound_sampler g t) d
  | Divergence v tx => divergenceFrag (bound_sampler g v) tx
  | Pressure p d tx => pressureFrag (bound_sampler g p) (bound_sampler g d) tx
  | GradientSubtract v p tx =>
      gradientSubtractFrag (bound_sampler g v) (bound_sampler g p) tx
  | Splat t pt c r => splatFrag (bound_sampler g t) pt c r
  | SplatVel t pt f r => splatVelFrag (bound_sampler g t) pt f r
  | Display d => displayFrag (bound_sampler g d)
  end.

(** [baseVert] over the two triangles of [quad]: the fragment at window
    position (i, j) gets [vUv] at its centre. *)
Definition fragUv (vp : Z * Z) (i j : Z) : vec2 :=
  mk2 ((IZR i + 1 / 2) / IZR (fst vp)) ((IZR j + 1 / 2) / IZR (snd vp)).

Definition in_viewport (vp : Z * Z) (i j : Z) : bool :=
  ((0 <=? i)%Z && (i <? fst vp)%Z && (0 <=? j)%Z && (j <? snd vp)%Z)%bool.

Definition rasterize (vp : Z * Z) (frag : vec2 -> vec4) (t : texture) : texture :=
  mkTexture (tw t) (th t) (tfmt t) (tfilter t)
    (fun i j => if in_viewport vp i j
                then mask (tfmt t) (frag (fragUv vp i j))
                else timg t i j).

(** The colour attachment of the bound framebuffer, when it can be drawn
    to: the half-float formats are colour-renderable only with
    EXT_color_buffer_float, and a draw or clear on an incomplete
    framebuffer writes nothing. *)
Definition render_target (g : GL) : option nat :=
  if color_buffer_float g then f ← bound g; framebuffers g !! f else None.

Definition with_texture (g : GL) (name : nat) (t : texture) (c : command) : GL :=
  mkGL (color_buffer_float g) (<[name := t]> (textures g)) (framebuffers g) (next_name g)
       (bound g) (viewport g) (log g ++ [c]).

Definition emit (g : GL) (c : command) : GL :=
  mkGL (color_buffer_float g) (textures g) (framebuffers g) (next_name g) (bound g) (viewport g)
       (log g ++ [c]).

Definition bindFramebuffer (f : option nat) (g : GL) : GL :=
  mkGL (color_buffer_float g) (textures g) (framebuffers g) (next_name g) f (viewport g) (log g).

(** [gl.drawArrays(gl.TRIANGLES, 0, 6)] with program and uniforms of [p].
    The pixels of the canvas itself are not modelled: drawing to it is
    only logged. *)
Definition drawArrays (p : pass) (g : GL) : GL :=
  let c := DrawArrays (bound g) p in
  match render_target g with
  | Some name =>
      match textures g !! name with
      | Some t => with_texture g name (rasterize (viewport g) (frag_of g p) t) c
      | None => emit g c
      end
  | None => emit g c
  end.

(** [gl.clearColor(r,g,b,a); gl.clear(gl.COLOR_BUFFER_BIT)]. *)
Definition clear (color : vec4) (g : GL) : GL :=
  let c := Clear (bound g) in
  match render_target g with
  | Some name =>
      match textures g !! name with
      | Some t =>
          with_texture g name
            (mkTexture (tw t) (th t) (tfmt t) (tfilter t)
                       (fun _ _ => mask (tfmt t) color)) c
      | None => emit g c
      end
  | None => emit g c
  end.

(** ** Framebuffer objects *)

Record FBO := mkFBO { tex : nat; fbo : nat; fbo_w : Z; fbo_h : Z }.

Definition createFBO (w h : Z) (internalFormat : format) (flt : filter)
    (g : GL) : FBO * GL :=
  let t := next_name g in
  let f := S t in
  (mkFBO t f w h,
   mkGL (color_buffer_float g)
        (<[t := blank w h internalFormat flt]> (textures g))
        (<[f := t]> (framebuffers g))
        (S f)
        (Some f)
        (w, h)
        (log g ++ [TexImage2D t w h internalFormat])).

(** The object returned by [createDoubleFBO]: its closure holds the two
    FBO objects; [read] is always the first, [write] the second, and
    [swap] exchanges their [tex] and [fbo] members. *)
Record DoubleFBO := mkDouble { fbo1 : FBO; fbo2 : FBO }.

Definition read (d : DoubleFBO) : FBO := fbo1 d.
Definition write (d : DoubleFBO) : FBO := fbo2 d.

Definition swap (d : DoubleFBO) : DoubleFBO :=
  let t := tex (fbo1 d) in
  let tf := fbo (fbo1 d) in
  mkDouble (mkFBO (tex (fbo2 d)) (fbo (fbo2 d)) (fbo_w (fbo1 d)) (fbo_h (fbo1 d)))
           (mkFBO t tf (fbo_w (fbo2 d)) (fbo_h (fbo2 d))).

Definition createDoubleFBO (w h : Z) (internalFormat : format) (flt : filter)
    (g : GL) : DoubleFBO * GL :=
  let '(f1, g1) := createFBO w h internalFormat flt g in
  let '(f2, g2) := createFBO w h internalFormat flt g1 in
  (mkDouble f1 f2, g2).

(** ** JavaScript values and exceptions *)

Inductive result (A : Type) :=
  | Ok (a : A)
  | Throw (msg : string).
Arguments Ok {A} a.
Arguments Throw {A} msg.

#[global] Instance result_ret : MRet result := fun A a => Ok a.
#[global] Instance result_bind : MBind result := fun A B f m =>
  match m with
  | Ok a => f a
  | Throw msg => Throw msg
  end.

(** Member access on a variable that may still be [undefined]. *)
Definition deref {A : Type} (o : option A) : result A :=
  match o with
  | Some a => Ok a
  | None => Throw "TypeError: Cannot read properties of undefined"
  end.

(** [x || d] on numbers: [0] and [undefined] are falsy. *)
Definition num_or (x : R) (d : R) : R := if Req_dec_T x 0 then d else x.
Definition opt_or (x : option R) (d : R) : R :=
  match x with
  | Some v => num_or v d
  | None => d
  end.

(** ** The closure of [initFluid] *)

Record Canvas := mkCanvas {
  parentNode : bool;          (* still a child of the container *)
  layoutWidth : Z;            (* CSS pixel box the layout gives it *)
  layoutHeight : Z;
  canvas_width : Z;
  canvas_height : Z
}.

(** A detached element has no layout box. *)
Definition clientWidth (c : Canvas) : Z := if parentNode c then layoutWidth c else 0%Z.
Definition clientHeight (c : Canvas) : Z := if parentNode c then layoutHeight c else 0%Z.

(** The variables captured by the closure, together with what the engine
    meets of the page: [document.hidden], the number of [step] callbacks
    queued by [requestAnimationFrame], and the arithmetic of the script
    engine. *)
Record Sim := mkSim {
  canvas : Canvas;
  gl : GL;
  dpr : R;
  fl : R -> R;                (* the double an exact result is rounded to *)
  width : Z;
  height : Z;
  dye : option DoubleFBO;
  velocity : option DoubleFBO;
  pressure : option DoubleFBO;
  divergence : option FBO;
  texel : vec2;
  lastT : R;
  hidden : bool;
  queued_frames : nat
}.

Definition clearDye : R := 0.995.
Definition clearVel : R := 0.995.
Definition pressureIters : nat := 15.

Definition set_gl (g : GL) (s : Sim) : Sim :=
  mkSim (canvas s) g (dpr s) (fl s) (width s) (height s) (dye s) (velocity s)
        (pressure s) (divergence s) (texel s) (lastT s) (hidden s) (queued_frames s).
Definition set_dye (d : DoubleFBO) (s : Sim) : Sim :=
  mkSim (canvas s) (gl s) (dpr s) (fl s) (width s) (height s) (Some d) (velocity s)
        (pressure s) (divergence s) (texel s) (lastT s) (hidden s) (queued_frames s).
Definition set_velocity (d : DoubleFBO) (s : Sim) : Sim :=
  mkSim (canvas s) (gl s) (dpr s) (fl s) (width s) (height s) (dye s) (Some d)
        (pressure s) (divergence s) (texel s) (lastT s) (hidden s) (queued_frames s).
Definition set_pressure (d : DoubleFBO) (s : Sim) : Sim :=
  mkSim (canvas s) (gl s) (dpr s) (fl s) (width s) (height s) (dye s) (velocity s)
        (Some d) (divergence s) (texel s) (lastT s) (hidden s) (queued_frames s).
Definition set_lastT (t : R) (s : Sim) : Sim :=
  mkSim (canvas s) (gl s) (dpr s) (fl s) (width s) (height s) (dye s) (velocity s)
        (pressure s) (divergence s) (texel s) t (hidden s) (queued_frames s).
Definition set_canvas (c : Canvas) (s : Sim) : Sim :=
  mkSim c (gl s) (dpr s) (fl s) (width s) (height s) (dye s) (velocity s)
        (pressure s) (divergence s) (texel s) (lastT s) (hidden s) (queued_frames s).
Definition set_hidden (b : bool) (s : Sim) : Sim :=
  mkSim (canvas s) (gl s) (dpr s) (fl s) (width s) (height s) (dye s) (velocity s)
        (pressure s) (divergence s) (texel s) (lastT s) b (queued_frames s).
Definition set_queued (n : nat) (s : Sim) : Sim :=
  mkSim (canvas s) (gl s) (dpr s) (fl s) (width s) (height s) (dye s) (velocity s)
        (pressure s) (divergence s) (texel s) (lastT s) (hidden s) n.

Definition requestAnimationFrame (s : Sim) : Sim := set_queued (S (queued_frames s)) s.

(** [dye.swap()] and its siblings. *)
Definition swap_dye (s : Sim) : result Sim := d ← deref (dye s); Ok (set_dye (swap d) s).
Definition swap_velocity (s : Sim) : result Sim :=
  d ← deref (velocity s); Ok (set_velocity (swap d) s).
Definition swap_pressure (s : Sim) : result Sim :=
  d ← deref (pressure s); Ok (set_pressure (swap d) s).

(** [target.set(source, offset)] on a Float32Array of two elements, called
    with a number for [source]: [set] copies the elements of an array, and
    a number has none, so nothing is copied and [target] is what it was.
    (The offset is truncated to a whole number; one above 2 would throw,
    and an offset below 1 is 0.) *)
Definition Float32Array_set (target : vec2) (source offset : R) : vec2 := target.

Definition setSize (s : Sim) : bool * Sim :=
  let w := Z.max 2 (Zfloor (fl s (IZR (clientWidth (canvas s)) * dpr s))) in
  let h := Z.max 2 (Zfloor (fl s (IZR (clientHeight (canvas s)) * dpr s))) in
  if ((w =? width s)%Z && (h =? height s)%Z)%bool then (false, s)
  else
    let c := canvas s in
    let c' := mkCanvas (parentNode c) (layoutWidth c) (layoutHeight c) w h in
    let '(d, g1) := createDoubleFBO w h RGBA16F LINEAR (gl s) in
    let '(v, g2) := createDoubleFBO w h RG16F LINEAR g1 in
    let '(p, g3) := createDoubleFBO w h R16F NEAREST g2 in
    let '(dv, g4) := createFBO w h R16F NEAREST g3 in
    (true,
     mkSim c' g4 (dpr s) (fl s) w h (Some d) (Some v) (Some p) (Some dv)
           (Float32Array_set (texel s) (1 / IZR w) (1 / IZR h))
           (lastT s) (hidden s) (queued_frames s)).

(** [bindAndDraw(prg, uniforms)]: the program and what [uniforms()] sets
    are the [pass]. *)
Definition bindAndDraw (p : pass) (g : GL) : GL := drawArrays p g.

Definition advect (dst src vel : FBO) (dt : R) (s : Sim) : Sim :=
  let g := bindFramebuffer (Some (fbo dst)) (gl s) in
  set_gl (bindAndDraw (Advect (tex src) (tex vel) (texel s) dt) g) s.

Definition applyDissipation (dst src : FBO) (diss : R) (s : Sim) : Sim :=
  let g := bindFramebuffer (Some (fbo dst)) (gl s) in
  set_gl (bindAndDraw (Dissipate (tex src) diss) g) s.

Definition computeDivergence (s : Sim) : result Sim :=
  dv ← deref (divergence s);
  let g := bindFramebuffer (Some (fbo dv)) (gl s) in
  v ← deref (velocity s);
  Ok (set_gl (bindAndDraw (Divergence (tex (read v)) (texel s)) g) s).

(** One turn of the loop of [solvePressure]. *)
Definition pressureIteration (s : Sim) : result Sim :=
  p ← deref (pressure s);
  let g := bindFramebuffer (Some (fbo (write p))) (gl s) in
  dv ← deref (divergence s);
  let s1 := set_gl (bindAndDraw (Pressure (tex (read p)) (tex dv) (texel s)) g) s in
  swap_pressure s1.

Fixpoint pressureLoop (n : nat) (s : Sim) : result Sim :=
  match n with
  | O => Ok s
  | S n' => s1 ← pressureIteration s; pressureLoop n' s1
  end.

Definition solvePressure (s : Sim) : result Sim :=
  p ← deref (pressure s);
  let g := bindFramebuffer (Some (fbo (write p))) (gl s) in
  let s1 := set_gl (clear (mk4 0 0 0 1) g) s in
  s2 ← swap_pressure s1;
  pressureLoop pressureIters s2.

Definition subtractGradient (s : Sim) : result Sim :=
  v ← deref (velocity s);
  let g := bindFramebuffer (Some (fbo (write v))) (gl s) in
  p ← deref (pressure s);
  let s1 :=
    set_gl (bindAndDraw (GradientSubtract (tex (read v)) (tex (read p)) (texel s)) g) s in
  swap_velocity s1.

Definition render (s : Sim) : result Sim :=
  let g := bindFramebuffer None (gl s) in
  d ← deref (dye s);
  Ok (set_gl (bindAndDraw (Display (tex (read d))) g) s).

(** The frame callback; [now] is what [performance.now()] returns. *)
Definition step (now : R) (s : Sim) : result Sim :=
  let dt := Rmin 0.032 ((now - lastT s) / 1000) in
  let s := set_lastT now s in
  v ← deref (velocity s);
  s ← swap_velocity (advect (write v) (read v) (read v) dt s);
  v ← deref (velocity s);
  s ← swap_velocity (applyDissipation (write v) (read v) clearVel s);
  s ← computeDivergence s;
  s ← solvePressure s;
  s ← subtractGradient s;
  d ← deref (dye s);
  v ← deref (velocity s);
  s ← swap_dye (advect (write d) (read d) (read v) dt s);
  d ← deref (dye s);
  s ← swap_dye (applyDissipation (write d) (read d) clearDye s);
  s ← render s;
  Ok (requestAnimationFrame s).

Definition resize (s : Sim) : Sim := snd (setSize s).

Definition splat (x y : R) (color : vec3) (radius : option R) (force : option vec2)
    (s : Sim) : result Sim :=
  let radius := match radius with None => 0.04 | Some r => r end in
  let cr := Rmax 0.002 radius in
  d ← deref (dye s);
  let g := bindFramebuffer (Some (fbo (write d))) (gl s) in
  let s := set_gl (bindAndDraw (Splat (tex (read d)) (mk2 x y) color cr) g) s in
  s ← swap_dye s;
  let fx := match force with Some f => num_or (x2 f) 0 | None => 0 end in
  let fy := match force with Some f => num_or (y2 f) 0 | None => 0 end in
  v ← deref (velocity s);
  let g := bindFramebuffer (Some (fbo (write v))) (gl s) in
  let s := set_gl (bindAndDraw (SplatVel (tex (read v)) (mk2 x y) (mk2 fx fy) cr) g) s in
  swap_velocity s.

(** [splatRandom(count, opts)].  [rnd k] is what the [k]-th call of
    [Math.random()] made by this invocation returns. *)
Record RandomOpts := mkRandomOpts {
  minRadius : option R;
  maxRadius : option R;
  maxForce : option R;
  forceScale : option R;
  color : option vec3
}.

Fixpoint splatRandomLoop (count : nat) (minR maxR maxF : R) (opts : RandomOpts)
    (rnd : nat -> R) (k : nat) (s : Sim) : result Sim :=
  match count with
  | O => Ok s
  | S count' =>
      let x := rnd k in
      let y := rnd (k + 1)%nat in
      let r := minR + rnd (k + 2)%nat * (maxR - minR) in
      let a := rnd (k + 3)%nat * PI * 2 in
      let m := opt_or (forceScale opts) 1.0 * (0.2 + 0.8 * rnd (k + 4)%nat) in
      let f := mk2 (cos a * maxF * m) (sin a * maxF * m) in
      let '(c, k') :=
        match color opts with
        | Some c => (c, (k + 5)%nat)
        | None => (mk3 (rnd (k + 5)%nat) (rnd (k + 6)%nat) (rnd (k + 7)%nat), (k + 8)%nat)
        end in
      s1 ← splat x y c (Some r) (Some f) s;
      splatRandomLoop count' minR maxR maxF opts rnd k' s1
  end.

Definition splatRandom (count : nat) (opts : RandomOpts) (rnd : nat -> R)
    (s : Sim) : result Sim :=
  let minR := opt_or (minRadius opts) 0.015 in
  let maxR := opt_or (maxRadius opts) 0.06 in
  let maxF := opt_or (maxForce opts) 2.5 in
  splatRandomLoop count minR maxR maxF opts rnd 0 s.

(** [destroy()]: reading [gl.getExtension] has no effect; the canvas is
    taken out of its parent. *)
Definition destroy (s : Sim) : Sim :=
  let c := canvas s in
  if parentNode c
  then set_canvas (mkCanvas false (layoutWidth c) (layoutHeight c)
                            (canvas_width c) (canvas_height c)) s
  else s.

(** ** Construction *)

Inductive shader :=
  | BaseVert | CopyFrag | AdvectFrag | DivergenceFrag | ClearFrag | PressureFrag
  | GradientSubtractFrag | SplatFrag | SplatVelFrag | DisplayFrag.

(** What the browser and the driver offer. *)
Record Env := mkEnv {
  webgl2 : bool;                       (* getContext('webgl2') succeeds *)
  EXT_color_buffer_float : bool;
  OES_texture_float_linear : bool;
  compiles : shader -> bool;
  links : shader -> bool;              (* the program with this fragment shader *)
  devicePixelRatio : R;
  rounding : R -> R                    (* the double an exact result is rounded to *)
}.

(** Calls into the page made while constructing. *)
Inductive host_call :=
  | AppendChild
  | GetContext
  | GetExtension (name : string).

Definition createGL (env : Env) : list host_call * result GL :=
  if webgl2 env
  then ([GetContext; GetExtension "EXT_color_buffer_float";
         GetExtension "OES_texture_float_linear"],
        Ok (mkGL (EXT_color_buffer_float env) ∅ ∅ 0 None (300, 150)%Z []))
  else ([GetContext], Throw "WebGL2 not supported").

Definition compile (env : Env) (source : shader) : result unit :=
  if compiles env source then Ok tt else Throw "Shader compile error".

Definition program (env : Env) (vertSrc fragSrc : shader) : result unit :=
  _ ← compile env vertSrc;
  _ ← compile env fragSrc;
  if links env fragSrc then Ok tt else Throw "Program link error".

Definition programs (env : Env) : result unit :=
  _ ← program env BaseVert CopyFrag;
  _ ← program env BaseVert AdvectFrag;
  _ ← program env BaseVert DivergenceFrag;
  _ ← program env BaseVert ClearFrag;
  _ ← program env BaseVert PressureFrag;
  _ ← program env BaseVert GradientSubtractFrag;
  _ ← program env BaseVert SplatFrag;
  _ ← program env BaseVert SplatVelFrag;
  program env BaseVert DisplayFrag.

(** The canvas [initFluid] appends to the container before it asks for a
    context; the layout gives it the container's box. *)
Definition new_canvas (boxWidth boxHeight : Z) : Canvas :=
  mkCanvas true boxWidth boxHeight 300 150.

(** [initFluid(container, opts)]: [maxDPR] is [opts.maxDPR], the box is the
    container's, [now] is [performance.now()], [doc_hidden] is
    [document.hidden].  Returns the calls made into the page and the
    handle, or the exception. *)
Definition initFluid (env : Env) (maxDPR : option R) (boxWidth boxHeight : Z)
    (now : R) (doc_hidden : bool) : list host_call * result Sim :=
  let dpr := Rmin (num_or (devicePixelRatio env) 1) (opt_or maxDPR 2) in
  let canvas := new_canvas boxWidth boxHeight in
  let '(calls, gl) := createGL env in
  (AppendChild :: calls,
   g ← gl;
   _ ← programs env;
   let s := mkSim canvas g dpr (rounding env) 0 0 None None None None (mk2 0 0) now
                  doc_hidden 0 in
   let s := snd (setSize s) in
   Ok (requestAnimationFrame s)).

(** ** The page driving the engine *)

Inductive event :=
  | AnimationFrame (now : R)
  | CallSplat (x y : R) (c : vec3) (radius : option R) (force : option vec2)
  | CallSplatRandom (count : nat) (opts : RandomOpts) (rnd : nat -> R)
  | CallResize
  | CallDestroy
  | Layout (boxWidth boxHeight : Z)
  | VisibilityChange (doc_hidden : bool).

(** The layout gives the canvas a new box. *)
Definition layout (boxWidth boxHeight : Z) (s : Sim) : Sim :=
  let c := canvas s in
  set_canvas (mkCanvas (parentNode c) boxWidth boxHeight (canvas_width c) (canvas_height c)) s.

(** The host runs one queued frame callback, if there is one; the engine
    registers no listener for layout or visibility changes. *)
Definition dispatch (e : event) (s : Sim) : result Sim :=
  match e with
  | AnimationFrame now =>
      match queued_frames s with
      | O => Ok s
      | S n => step now (set_queued n s)
      end
  | CallSplat x y c radius force => splat x y c radius force s
  | CallSplatRandom count opts rnd => splatRandom count opts rnd s
  | CallResize => Ok (resize s)
  | CallDestroy => Ok (destroy s)
  | Layout bw bh => Ok (layout bw bh s)
  | VisibilityChange b => Ok (set_hidden b s)
  end.

Fixpoint run (es : list event) (s : Sim) : result Sim :=
  match es with
  | [] => Ok s
  | e :: es' => s1 ← dispatch e s; run es' s1
  end.

(** ** The theme wrapper (static/js/fluid_theme.js)

    The wrapper constructs the engine in the page's container, seeds it
    with ambient dye and installs the countdown hooks.  [Math.random()]
    is a stream [rnd : nat -> R], the state of the wrapper counting the
    calls made so far.  Arguments are numbers: the coercions JavaScript
    applies to other values are not modelled. *)

Definition clamp01 (x : R) : R := Rmax 0 (Rmin 1 x).
Definition lerp (a b t : R) : R := a + (b - a) * t.
Definition lerp3 (a b : vec3) (t : R) : vec3 :=
  mk3 (lerp (x3 a) (x3 b) t) (lerp (y3 a) (y3 b) t) (lerp (z3 a) (z3 b) t).
Definition brighten (c : vec3) (f : R) : vec3 :=
  mk3 (clamp01 (x3 c * f)) (clamp01 (y3 c * f)) (clamp01 (z3 c * f)).

(** [randInt(min, max)], [random] being what [Math.random()] returns and
    [fl] the rounding of each of the four operations. *)
Definition randInt (fl : R -> R) (min max : R) (random : R) : Z :=
  Zfloor (fl (min + fl (random * fl (fl (max - min) + 1)))).

(** [x % m] on numbers: the remainder of the division truncated towards
    zero. *)
Definition truncate (x : R) : Z := if Rlt_dec x 0 then Zceil x else Zfloor x.
Definition js_rem (x m : R) : R := x - m * IZR (truncate (x / m)).

(** [l[i]] for a whole number [i]: [undefined] out of range. *)
Definition item {A : Type} (l : list A) (i : Z) : option A :=
  if (i <? 0)%Z then None else nth_error l (Z.to_nat i).

(** The variables of the wrapper's closure and what it registered with
    the page. *)
Record Theme := mkTheme {
  totalSeconds : R;
  sim : option Sim;             (* null until initFluid has returned *)
  hooked : bool;                (* setTotalSeconds, onNumberChange, onFinaleBurst are set *)
  pointer : option (R * R);     (* lastX, lastY of the pointermove listener, once added *)
  resizing : bool;              (* the resize listener is added *)
  randoms : nat;                (* calls of Math.random() so far *)
  warnings : list string        (* console.warn *)
}.

Definition with_sim (s : Sim) (k : nat) (th : Theme) : Theme :=
  mkTheme (totalSeconds th) (Some s) (hooked th) (pointer th) (resizing th) k (warnings th).

(** [progressionColor(remaining)].  The channels are those of the exact
    interpolation; the doubles the script computes differ from them by
    rounding (at the end of the last segment, for instance, it gets
    0.07000000000000006 for 0.07). *)
Definition progressionColor (th : Theme) (remaining : R) : vec3 :=
  let total := Rmax 1 (num_or (totalSeconds th) 1) in
  let t := clamp01 (1 - Rmax 0 (num_or remaining 0) / total) in
  if Rlt_dec t 0.34 then
    let u := t / 0.34 in
    lerp3 (mk3 0.02 0.55 0.85) (mk3 0.00 0.80 0.95) u
  else if Rlt_dec t 0.67 then
    let u := (t - 0.34) / 0.33 in
    lerp3 (mk3 0.48 0.36 0.82) (mk3 1.00 0.55 0.12) u
  else
    let u := (t - 0.67) / 0.33 in
    lerp3 (mk3 1.00 0.43 0.00) (mk3 1.00 0.07 0.15) u.

Definition cools : list vec3 := [mk3 0.02 0.35 0.70; mk3 0.00 0.55 0.85; mk3 0.15 0.20 0.45].
Definition warms : list vec3 := [mk3 1.00 0.38 0.00; mk3 1.00 0.62 0.10; mk3 0.95 0.18 0.12].

(** The loop of [seedAmbient]; [k] counts the calls of [Math.random()].
    Returns the engine and the count where the loop ended, with the
    exception if it ended by one (an exception of the engine is taken to
    leave the engine as it was before the call).  The index into the
    palette is taken from the exact product: the double product of a
    number below 1 and the length of the palette is below that length
    too, so the index is in range either way; on a product within
    rounding distance of a whole number the script takes the next
    colour. *)
Fixpoint seedAmbientLoop (n : nat) (pal : list vec3) (rnd : nat -> R) (k : nat) (s : Sim)
    : Sim * nat * option string :=
  match n with
  | O => (s, k, None)
  | S n' =>
      match item pal (Zfloor (rnd k * INR (length pal))) with
      | None => (s, (k + 2)%nat, Some "TypeError: Cannot read properties of undefined"%string)
      | Some c =>
          let opts :=
            mkRandomOpts (Some 0.02) (Some 0.07) (Some 2.4)
                         (Some (0.35 + rnd (k + 2)%nat * 0.85))
                         (Some (brighten c (0.9 + rnd (k + 1)%nat * 0.7))) in
          match splatRandom 1 opts (fun i => rnd (k + 3 + i)%nat) s with
          | Throw msg => (s, (k + 3)%nat, Some msg)
          | Ok s' => seedAmbientLoop n' pal rnd (k + 8)%nat s'
          end
      end
  end.

Definition seedAmbient (rnd : nat -> R) (th : Theme) : Theme * option string :=
  match sim th with
  | None => (th, None)
  | Some s =>
      let k := randoms th in
      let pal := if Rlt_dec (rnd k) 0.5 then cools else warms in
      let '(s', k', err) := seedAmbientLoop 28 pal rnd (S k) s in
      (with_sim s' k' th, err)
  end.

(** [if (sim) sim.splatRandom(randInt(lo, hi), opts)]: the body of
    [splatSmall], [splatStrong] and [splatMinute]; every option is given,
    so each splat takes five random numbers.  [randInt] is only called
    with an engine there, and rounds as the engine's page does. *)
Definition splatBurst (lo hi : R) (opts : RandomOpts) (rnd : nat -> R) (th : Theme)
    : result Theme :=
  match sim th with
  | None => Ok th
  | Some s =>
      let k := randoms th in
      let count := Z.to_nat (randInt (fl s) lo hi (rnd k)) in
      s' ← splatRandom count opts (fun i => rnd (S k + i)%nat) s;
      Ok (with_sim s' (S k + 5 * count)%nat th)
  end.

Definition splatSmall (color : vec3) : (nat -> R) -> Theme -> result Theme :=
  splatBurst 1 3 (mkRandomOpts (Some 0.012) (Some 0.045) (Some 2.2) (Some 0.9) (Some color)).
Definition splatStrong (color : vec3) : (nat -> R) -> Theme -> result Theme :=
  splatBurst 4 7 (mkRandomOpts (Some 0.022) (Some 0.075) (Some 3.4) (Some 1.9)
                               (Some (brighten color 1.4))).
Definition splatMinute (color : vec3) : (nat -> R) -> Theme -> result Theme :=
  splatBurst 16 22 (mkRandomOpts (Some 0.03) (Some 0.09) (Some 4.0) (Some 2.5)
                                 (Some (brighten color 1.55))).

(** The [pointermove] listener of [hookInteractions]; [rect] is what
    [container.getBoundingClientRect()] returns, for a container with a
    box that is not empty (real numbers have no result for the division
    by zero JavaScript would make otherwise). *)
Record Rect := mkRect { rect_left : R; rect_top : R; rect_width : R; rect_height : R }.

Definition pointermove (rect : Rect) (clientX clientY : R) (rnd : nat -> R) (th : Theme)
    : result Theme :=
  match pointer th with
  | None => Ok th
  | Some (lastX, lastY) =>
      let x := (clientX - rect_left rect) / rect_width rect in
      let y := 1 - (clientY - rect_top rect) / rect_height rect in
      let dx := x - lastX in
      let dy := y - lastY in
      let k := randoms th in
      s ← deref (sim th);
      s' ← splat x y (mk3 (0.7 * rnd k) (0.7 * rnd (k + 1)%nat) (1.0 * rnd (k + 2)%nat))
             (Some 0.03) (Some (mk2 (dx * 8) (dy * 8))) s;
      Ok (mkTheme (totalSeconds th) (Some s') (hooked th) (Some (x, y)) (resizing th)
                  (k + 3)%nat (warnings th))
  end.

Definition hookInteractions (th : Theme) : Theme :=
  match sim th with
  | None => th
  | Some _ =>
      mkTheme (totalSeconds th) (sim th) (hooked th) (Some (0.5, 0.5)) (resizing th)
              (randoms th) (warnings th)
  end.

(** The three functions [installHooks] sets on [window]. *)
Definition setTotalSeconds (total : R) (th : Theme) : Theme :=
  if Rlt_dec 0 total
  then mkTheme total (sim th) (hooked th) (pointer th) (resizing th) (randoms th)
               (warnings th)
  else th.

Definition onNumberChange (remaining : R) (rnd : nat -> R) (th : Theme) : result Theme :=
  let rem := Rmax 0 (num_or remaining 0) in
  let col := progressionColor th rem in
  if Rlt_dec 0 rem then
    if Req_dec_T (js_rem rem 60) 0 then splatMinute col rnd th
    else if Req_dec_T (js_rem rem 10) 0 then splatStrong col rnd th
    else splatSmall col rnd th
  else if Req_dec_T (js_rem rem 10) 0 then splatStrong col rnd th
  else splatSmall col rnd th.

Definition hues : list vec3 :=
  [mk3 1.00 0.50 0.10; mk3 0.95 0.20 0.15; mk3 0.10 0.65 1.00; mk3 0.60 0.30 1.00;
   mk3 0.20 1.00 0.60].

(** The loop of [onFinaleBurst], from [i] for [n] turns. *)
Fixpoint finaleLoop (n : nat) (i : nat) (rnd : nat -> R) (th : Theme) : result Theme :=
  match n with
  | O => Ok th
  | S n' =>
      c ← deref (nth_error hues (i mod length hues));
      s ← deref (sim th);
      let opts := mkRandomOpts (Some 0.035) (Some 0.10) (Some 4.5) (Some 2.8)
                               (Some (brighten c 1.4)) in
      let k := randoms th in
      s' ← splatRandom 18 opts (fun j => rnd (k + j)%nat) s;
      finaleLoop n' (S i) rnd (with_sim s' (k + 5 * 18)%nat th)
  end.

Definition onFinaleBurst (rnd : nat -> R) (th : Theme) : result Theme :=
  finaleLoop 5 0 rnd th.

Definition installHooks (th : Theme) : Theme :=
  mkTheme (totalSeconds th) (sim th) true (pointer th) (resizing th) (randoms th)
          (warnings th).

(** The listener [begin] adds for [resize] events of the window. *)
Definition onWindowResize (th : Theme) : Theme :=
  match sim th with
  | None => th
  | Some s => with_sim (resize s) (randoms th) th
  end.

Definition warn (msg : string) (th : Theme) : Theme :=
  mkTheme (totalSeconds th) (sim th) (hooked th) (pointer th) (resizing th) (randoms th)
          (warnings th ++ [msg]).

(** The closure before [begin] runs. *)
Definition theme0 : Theme := mkTheme (70 * 60) None false None false 0 [].

(** [begin()]: the arguments are those of [initFluid], the container's
    box being the canvas's.  Returns the calls made into the page and the
    wrapper's state; an exception is caught and logged. *)
Definition begin (env : Env) (boxWidth boxHeight : Z) (now : R) (doc_hidden : bool)
    (rnd : nat -> R) : list host_call * Theme :=
  let '(calls, r) := initFluid env (Some 2) boxWidth boxHeight now doc_hidden in
  (calls,
   match r with
   | Throw msg => warn "[fluid-theme] init failed:"%string theme0
   | Ok s =>
       let '(th, err) := seedAmbient rnd (with_sim s 0 theme0) in
       match err with
       | Some msg => warn "[fluid-theme] init failed:"%string th
       | None =>
           let th := installHooks (hookInteractions th) in
           mkTheme (totalSeconds th) (sim th) (hooked th) (pointer th) true (randoms th)
                   (warnings th)
       end
   end).

(** [ensureAndStart()], run when the script loads in a page that has the
    container: with the engine's script already there it begins at once;
    otherwise it loads the script and begins when that has loaded, or
    warns when the script cannot be loaded. *)
Definition ensureAndStart (initFluid_defined script_loads : bool) (env : Env)
    (boxWidth boxHeight : Z) (now : R) (doc_hidden : bool) (rnd : nat -> R)
    : list host_call * Theme :=
  if initFluid_defined then begin env boxWidth boxHeight now doc_hidden rnd
  else if script_loads then begin env boxWidth boxHeight now doc_hidden rnd
  else ([], warn "[fluid-theme] failed to load fluid core"%string theme0).

(** What the page does to a wrapper that has begun: the engine's frame
    callback, the countdown calling the hooks (when they are set), and
    the events the wrapper listens to. *)
Inductive theme_event :=
  | Frame (now : R)
  | Tick (remaining : R)
  | Total (total : R)
  | Finale
  | WindowResize
  | ContainerLayout (boxWidth boxHeight : Z)
  | PointerMove (rect : Rect) (clientX clientY : R).

Definition theme_dispatch (rnd : nat -> R) (e : theme_event) (th : Theme) : result Theme :=
  match e with
  | Frame now =>
      match sim th with
      | None => Ok th
      | Some s => s' ← dispatch (AnimationFrame now) s; Ok (with_sim s' (randoms th) th)
      end
  | Tick remaining => if hooked th then onNumberChange remaining rnd th else Ok th
  | Total total => Ok (if hooked th then setTotalSeconds total th else th)
  | Finale => if hooked th then onFinaleBurst rnd th else Ok th
  | WindowResize => Ok (if resizing th then onWindowResize th else th)
  | ContainerLayout bw bh =>
      Ok (match sim th with
          | None => th
          | Some s => with_sim (layout bw bh s) (randoms th) th
          end)
  | PointerMove rect cx cy => pointermove rect cx cy rnd th
  end.

Fixpoint theme_run (rnd : nat -> R) (es : list theme_event) (th : Theme) : result Theme :=
  match es with
  | [] => Ok th
  | e :: es' => th1 ← theme_dispatch rnd e th; theme_run rnd es' th1
  end.

(** ** Observations and well-formed states *)

(** The texels of a texture object. *)
Definition texels (g : GL) (name : nat) : image :=
  match textures g !! name with
  | Some t => timg t
  | None => fun _ _ => mk4 0 0 0 1
  end.

(** What the fields hold, read through the [read] side: a colour for the
    dye, a vector for the velocity, a scalar for pressure and divergence
    (the channels their formats store). *)
Definition field_at (g : GL) (o : option DoubleFBO) (i j : Z) : vec4 :=
  match o with
  | Some d => texels g (tex (read d)) i j
  | None => mk4 0 0 0 1
  end.
Definition dye_at (s : Sim) (i j : Z) : vec4 := field_at (gl s) (dye s) i j.
Definition velocity_at (s : Sim) (i j : Z) : vec2 :=
  xy (field_at (gl s) (velocity s) i j).
Definition pressure_at (s : Sim) (i j : Z) : R := vx (field_at (gl s) (pressure s) i j).
Definition divergence_at (s : Sim) (i j : Z) : R :=
  match divergence s with
  | Some dv => vx (texels (gl s) (tex dv) i j)
  | None => 0
  end.

(** Size, format and filter of a texture object. *)
Definition shape (t : texture) : Z * Z * format * filter :=
  (tw t, th t, tfmt t, tfilter t).

(** The FBO object [o] names a texture of the given shape and the
    framebuffer that renders into it. *)
Definition fbo_ok (g : GL) (w h : Z) (f : format) (flt : filter) (o : FBO) : Prop :=
  framebuffers g !! fbo o = Some (tex o) /\
  shape <$> (textures g !! tex o) = Some (w, h, f, flt).

Record wf_fields (s : Sim) (d v p : DoubleFBO) (dv : FBO) : Prop := {
  wf_dye : dye s = Some d;
  wf_velocity : velocity s = Some v;
  wf_pressure : pressure s = Some p;
  wf_divergence : divergence s = Some dv;
  wf_width : (2 <= width s)%Z;
  wf_height : (2 <= height s)%Z;
  wf_texel : texel s = mk2 0 0;
  wf_viewport : viewport (gl s) = (width s, height s);
  wf_dye_read : fbo_ok (gl s) (width s) (height s) RGBA16F LINEAR (read d);
  wf_dye_write : fbo_ok (gl s) (width s) (height s) RGBA16F LINEAR (write d);
  wf_velocity_read : fbo_ok (gl s) (width s) (height s) RG16F LINEAR (read v);
  wf_velocity_write : fbo_ok (gl s) (width s) (height s) RG16F LINEAR (write v);
  wf_pressure_read : fbo_ok (gl s) (width s) (height s) R16F NEAREST (read p);
  wf_pressure_write : fbo_ok (gl s) (width s) (height s) R16F NEAREST (write p);
  wf_divergence_fbo : fbo_ok (gl s) (width s) (height s) R16F NEAREST dv;
  wf_distinct :
    NoDup [tex (read d); tex (write d); tex (read v); tex (write v);
           tex (read p); tex (write p); tex dv]
}.

(** The states of a constructed engine: all fields allocated at the
    current size, two separate textures behind every double buffer. *)
Definition wf (s : Sim) : Prop := exists d v p dv, wf_fields s d v p dv.

(** The context can render to half-float textures. *)
Definition capable (s : Sim) : Prop := color_buffer_float (gl s) = true.

Definition in_grid (s : Sim) (i j : Z) : Prop :=
  (0 <= i < width s)%Z /\ (0 <= j < height s)%Z.

(** The velocity field vanishes on the whole grid. *)
Definition at_rest (s : Sim) : Prop :=
  forall i j, in_grid s i j -> velocity_at s i j = mk2 0 0.

(** A constructed engine on a capable context, with the fluid at rest and
    a frame callback queued. *)
Definition steady (s : Sim) : Prop :=
  wf s /\ capable s /\ at_rest s /\ queued_frames s <> 0%nat.

(** The size [setSize] asks for: the client box of the canvas times the
    device pixel ratio, a double, rounded down, and at least 2. *)
Definition requested_width (s : Sim) : Z :=
  Z.max 2 (Zfloor (fl s (IZR (clientWidth (canvas s)) * dpr s))).
Definition requested_height (s : Sim) : Z :=
  Z.max 2 (Zfloor (fl s (IZR (clientHeight (canvas s)) * dpr s))).

(** The FBO object [o] names a texture of [w] by [h] texels. *)
Definition sized_field (g : GL) (w h : Z) (o : FBO) : Prop :=
  exists t, textures g !! tex o = Some t /\ tw t = w /\ th t = h.

(** All seven textures of the engine have the current size. *)
Definition fields_sized (s : Sim) : Prop :=
  exists d v p dv,
    dye s = Some d /\ velocity s = Some v /\ pressure s = Some p /\
    divergence s = Some dv /\
    Forall (sized_field (gl s) (width s) (height s))
           [read d; write d; read v; write v; read p; write p; dv].

(** All four fields read as zero everywhere. *)
Definition fields_blank (s : Sim) : Prop :=
  forall i j,
    dye_at s i j = mk4 0 0 0 0 /\ velocity_at s i j = mk2 0 0 /\
    pressure_at s i j = 0 /\ divergence_at s i j = 0.

(** ** Commands issued *)

(** Binding the framebuffer of [o] and drawing, as every pass does. *)
Definition draw_into (o : FBO) (p : pass) (g : GL) : GL :=
  bindAndDraw p (bindFramebuffer (Some (fbo o)) g).

(** Binding the framebuffer of [o] and clearing it. *)
Definition clear_into (o : FBO) (c : vec4) (g : GL) : GL :=
  clear c (bindFramebuffer (Some (fbo o)) g).

(** Two contexts with the same objects of the same shapes. *)
Definition same_shape (g g' : GL) : Prop :=
  color_buffer_float g' = color_buffer_float g /\
  framebuffers g' = framebuffers g /\
  viewport g' = viewport g /\
  forall n, shape <$> (textures g' !! n) = shape <$> (textures g !! n).

(** [s'] is [s] after passes that issued [cmds]: the passes touch texel
    contents and the log only. *)
Record ran (s s' : Sim) (cmds : list command) : Prop := {
  ran_canvas : canvas s' = canvas s;
  ran_dpr : dpr s' = dpr s;
  ran_fl : fl s' = fl s;
  ran_width : width s' = width s;
  ran_height : height s' = height s;
  ran_texel : texel s' = texel s;
  ran_hidden : hidden s' = hidden s;
  ran_divergence : divergence s' = divergence s;
  ran_shape : same_shape (gl s) (gl s');
  ran_log : log (gl s') = log (gl s) ++ cmds
}.

(** The [uDt] uniforms of the advection draws among some commands. *)
Fixpoint advect_dts (cs : list command) : list R :=
  match cs with
  | [] => []
  | DrawArrays _ (Advect _ _ _ dt) :: cs' => dt :: advect_dts cs'
  | _ :: cs' => advect_dts cs'
  end.

(** How many of some commands are draws of the pressure program, and how
    many are clears. *)
Fixpoint pressure_draws (cs : list command) : nat :=
  match cs with
  | [] => 0
  | DrawArrays _ (Pressure _ _ _) :: cs' => S (pressure_draws cs')
  | _ :: cs' => pressure_draws cs'
  end.

Fixpoint clears (cs : list command) : nat :=
  match cs with
  | [] => 0
  | Clear _ :: cs' => S (clears cs')
  | _ :: cs' => clears cs'
  end.

(** The textures a pass samples. *)
Definition sampled (p : pass) : list nat :=
  match p with
  | Advect src vel _ _ => [src; vel]
  | Dissipate t _ => [t]
  | Divergence vel _ => [vel]
  | Pressure prs dvg _ => [prs; dvg]
  | GradientSubtract vel prs _ => [vel; prs]
  | Splat t _ _ _ => [t]
  | SplatVel t _ _ _ => [t]
  | Display t => [t]
  end.

(** A draw into a framebuffer renders into a texture it does not sample. *)
Definition no_feedback (g : GL) (c : command) : Prop :=
  match c with
  | DrawArrays (Some f) p => exists t, framebuffers g !! f = Some t /\ t ∉ sampled p
  | _ => True
  end.

(** A draw of the pressure program against divergence texture [nd], into
    a texture it does not sample. *)
Definition is_pressure_draw (g : GL) (nd : nat) (tx : vec2) (c : command) : Prop :=
  exists target np,
    c = DrawArrays target (Pressure np nd tx) /\ no_feedback g c.

(** Events other than the frame callback. *)
Definition is_call (e : event) : Prop :=
  match e with
  | AnimationFrame _ => False
  | _ => True
  end.

(** How often the page was asked for a context. *)
Fixpoint context_requests (calls : list host_call) : nat :=
  match calls with
  | [] => 0
  | GetContext :: calls' => S (context_requests calls')
  | _ :: calls' => context_requests calls'
  end.

(** ** What the passes compute *)

(** Two grids that agree on the [w] by [h] cells. *)
Definition agree (w h : Z) (f g : Z -> Z -> R) : Prop :=
  forall i j, (0 <= i < w)%Z -> (0 <= j < h)%Z -> f i j = g i j.

(** One Jacobi relaxation of a [w] by [h] grid in the words of the
    specification: p = (L + R + B + T - div) * 0.25 from the four
    neighbours, the grid being continued by its edge values. *)
Definition jacobi (w h : Z) (div p : Z -> Z -> R) : Z -> Z -> R :=
  fun i j =>
    (p (clampi w (i - 1)) j + p (clampi w (i + 1)) j
     + p i (clampi h (j - 1)) + p i (clampi h (j + 1)) - div i j) * 0.25.

(** What a draw of the pressure program leaves in the cells when its
    [uTexel] is (0, 0): p = (L + R + B + T - div) * 0.25 where the four
    samples L, R, B and T are all taken at the cell itself. *)
Definition relax_in_place (div p : Z -> Z -> R) : Z -> Z -> R :=
  fun i j => (p i j + p i j + p i j + p i j - div i j) * 0.25.

(** The radius and the force [splat] hands to its two programs. *)
Definition splat_radius (radius : option R) : R :=
  Rmax 0.002 (match radius with None => 0.04 | Some r => r end).
Definition splat_force (force : option vec2) : vec2 :=
  mk2 (match force with Some f => num_or (x2 f) 0 | None => 0 end)
      (match force with Some f => num_or (y2 f) 0 | None => 0 end).

(** What a splat adds to the dye of cell (i, j) of a [w] by [h] grid. *)
Definition splat_dye (w h : Z) (x y : R) (c : vec3) (radius : option R) (i j : Z) : vec4 :=
  let a := falloff (fragUv (w, h) i j) (mk2 x y) (splat_radius radius) in
  mk4 (x3 c * a) (y3 c * a) (z3 c * a) a.

(** ** Dye mass *)

Fixpoint sum_upto (n : nat) (f : Z -> R) : R :=
  match n with
  | O => 0
  | S k => sum_upto k f + f (Z.of_nat k)
  end.

(** The sum of [f] over the cells of a [w] by [h] grid. *)
Definition grid_sum (w h : Z) (f : Z -> Z -> R) : R :=
  sum_upto (Z.to_nat w) (fun i => sum_upto (Z.to_nat h) (fun j => f i j)).

Definition grid_sum4 (w h : Z) (f : Z -> Z -> vec4) : vec4 :=
  mk4 (grid_sum w h (fun i j => vx (f i j))) (grid_sum w h (fun i j => vy (f i j)))
      (grid_sum w h (fun i j => vz (f i j))) (grid_sum w h (fun i j => vw (f i j))).

(** The total dye, channel by channel. *)
Definition dye_mass (s : Sim) : vec4 := grid_sum4 (width s) (height s) (dye_at s).

(** The arguments of a call of [splat]. *)
Record splat_call := mkSplatCall {
  at_x : R;
  at_y : R;
  tint : vec3;
  size : option R;
  push : option vec2
}.

Definition call_of (c : splat_call) : event :=
  CallSplat (at_x c) (at_y c) (tint c) (size c) (push c).

(** A splat that applies no force: the force is left out, or is zero. *)
Definition forceless (c : splat_call) : Prop := splat_force (push c) = mk2 0 0.

(** The dye mass some splats add to a [w] by [h] grid. *)
Fixpoint injected (w h : Z) (cs : list splat_call) : vec4 :=
  match cs with
  | [] => mk4 0 0 0 0
  | c :: cs' =>
      add4 (grid_sum4 w h (splat_dye w h (at_x c) (at_y c) (tint c) (size c)))
           (injected w h cs')
  end.

(** A frame: the callback, then the splats called before the next one. *)
Definition frame_events (f : R * list splat_call) : list event :=
  AnimationFrame (fst f) :: map call_of (snd f).

(** ** Sizes and allocations *)

(** The drawing buffer of the canvas has the size of the grid. *)
Definition canvas_fits (s : Sim) : Prop :=
  canvas_width (canvas s) = width s /\ canvas_height (canvas s) = height s.

(** The fragment shaders [initFluid] builds programs from, in its order. *)
Definition fragment_shaders : list shader :=
  [CopyFrag; AdvectFrag; DivergenceFrag; ClearFrag; PressureFrag; GradientSubtractFrag;
   SplatFrag; SplatVelFrag; DisplayFrag].

(** Size and format of the storage a command allocates. *)
Definition allocation (c : command) : option (Z * Z * format) :=
  match c with
  | TexImage2D _ w h f => Some (w, h, f)
  | _ => None
  end.

(** ** Stages of the pipeline *)

(** What a command is in the pipeline: a pass into one of the engine's
    framebuffers, or the display program drawn to the canvas. *)
Inductive stage :=
  | Allocating | Clearing | Advecting | Dissipating | Diverging | Relaxing | Projecting
  | Splatting | Pushing | Presenting | Other.

Definition stage_of (c : command) : stage :=
  match c with
  | TexImage2D _ _ _ _ => Allocating
  | Clear (Some _) => Clearing
  | DrawArrays (Some _) (Advect _ _ _ _) => Advecting
  | DrawArrays (Some _) (Dissipate _ _) => Dissipating
  | DrawArrays (Some _) (Divergence _ _) => Diverging
  | DrawArrays (Some _) (Pressure _ _ _) => Relaxing
  | DrawArrays (Some _) (GradientSubtract _ _ _) => Projecting
  | DrawArrays (Some _) (Splat _ _ _ _) => Splatting
  | DrawArrays (Some _) (SplatVel _ _ _ _) => Pushing
  | DrawArrays None (Display _) => Presenting
  | _ => Other
  end.

(** The dissipation factors among some commands. *)
Fixpoint dissipations (cs : list command) : list R :=
  match cs with
  | [] => []
  | DrawArrays _ (Dissipate _ k) :: cs' => k :: dissipations cs'
  | _ :: cs' => dissipations cs'
  end.

(** ** What draws leave of a context *)

(** [g'] is [g] after draws and clears: the same capability and, on a
    context that cannot render to half-float textures, the same texels. *)
Record drawn (g g' : GL) : Prop := {
  drawn_capability : color_buffer_float g' = color_buffer_float g;
  drawn_inert : color_buffer_float g = false -> textures g' = textures g
}.

(** Every texture of the context holds what [texImage2D] put there. *)
Definition all_zero (g : GL) : Prop :=
  forall n t, textures g !! n = Some t ->
              forall i j, timg t i j = mask (tfmt t) (mk4 0 0 0 0).

(** ** Random splats *)

(** What a draw of [splatRandom] looks like when the radii are taken
    between [minR] and [maxR], the largest speed is [F] and the options
    give the colour [col] or none. *)
Definition random_splat (minR maxR F : R) (col : option vec3) (c : command) : Prop :=
  match c with
  | DrawArrays _ (Splat _ pt cl r) =>
      0 <= x2 pt < 1 /\ 0 <= y2 pt < 1 /\
      Rmax 0.002 minR <= r <= Rmax 0.002 maxR /\
      match col with
      | Some c0 => cl = c0
      | None => 0 <= x3 cl < 1 /\ 0 <= y3 cl < 1 /\ 0 <= z3 cl < 1
      end
  | DrawArrays _ (SplatVel _ pt f r) =>
      0 <= x2 pt < 1 /\ 0 <= y2 pt < 1 /\
      Rmax 0.002 minR <= r <= Rmax 0.002 maxR /\
      0.04 * (F * F) <= x2 f * x2 f + y2 f * y2 f <= F * F
  | _ => False
  end.

(** ** Rounding *)

(** What the bounds on [randInt] use of the rounding to the nearest
    double: it keeps the order of two numbers, and it leaves a whole
    number up to 2^53 as it is. *)
Definition monotone_exact (f : R -> R) : Prop :=
  (forall x y, x <= y -> f x <= f y) /\
  (forall n, (Z.abs n <= 2 ^ 53)%Z -> f (IZR n) = IZR n).

(** ** Colours *)


(** ** The wrapper's states *)

(** A wrapper that has begun: its total is positive; with an engine it
    has a constructed one, without one it has registered nothing. *)
Definition theme_ok (th : Theme) : Prop :=
  0 < totalSeconds th /\
  match sim th with
  | Some s => wf s
  | None => hooked th = false /\ pointer th = None
  end.

(** ** Example pages

    A browser with WebGL2 and both extensions, a device pixel ratio of 1,
    and a container of 4 by 3 CSS pixels; [demo] is the engine
    [initFluid] returns there at time 0.  The pages multiply whole numbers
    by 1 and add small whole numbers: every result is a double, and the
    rounding leaves it as it is. *)

Definition demo_env : Env :=
  mkEnv true true true (fun _ => true) (fun _ => true) 1 (fun x => x).

Definition demo_closure : Sim :=
  mkSim (new_canvas 4 3) (mkGL true ∅ ∅ 0 None (300, 150)%Z [])
        (Rmin (num_or 1 1) (opt_or None 2)) (fun x => x) 0 0 None None None None
        (mk2 0 0) 0 false 0.

Definition demo : Sim := requestAnimationFrame (snd (setSize demo_closure)).

(** A browser with WebGL2 but neither floating-point extension. *)
Definition bare_env : Env :=
  mkEnv true false false (fun _ => true) (fun _ => true) 1 (fun x => x).

(** [stirred] is [demo] after a splat in the middle that pushes to the
    right; [bare] is the engine [initFluid] returns in the browser
    without the extensions. *)
Definition stirred : Sim :=
  match splat 0.5 0.5 (mk3 1 0 0) None (Some (mk2 1 0)) demo with
  | Ok s => s
  | Throw _ => demo
  end.

Definition bare : Sim :=
  requestAnimationFrame
    (snd (setSize (mkSim (new_canvas 4 3) (mkGL false ∅ ∅ 0 None (300, 150)%Z [])
                         (Rmin (num_or 1 1) (opt_or None 2)) (fun x => x) 0 0 None None
                         None None (mk2 0 0) 0 false 0))).

(** [dyed] is [demo] after a splat at the centre of the cell (1, 1) that
    applies no force. *)
Definition dyed : Sim :=
  match splat 0.375 0.5 (mk3 1 0 0) None None demo with
  | Ok s => s
  | Throw _ => demo
  end.

(** A wrapper whose [begin] went through, around the engine [demo]. *)
Definition demo_theme : Theme :=
  mkTheme (70 * 60) (Some demo) true (Some (0.5, 0.5)) true 225 [].

(** * Properties *)

(** ** Vectors and texture sampling *)

Lemma vec4_eq (a b : vec4) :
  vx a = vx b -> vy a = vy b -> vz a = vz b -> vw a = vw b -> a = b.
Proof. destruct a, b; simpl; intros; subst; reflexivity. Qed.

Lemma mix4_0 (a b : vec4) : mix4 a b 0 = a.
Proof. apply vec4_eq; simpl; ring. Qed.

Lemma mix4_same (a : vec4) (f : R) : mix4 a a f = a.
Proof. apply vec4_eq; simpl; ring. Qed.

Lemma clampi_id (n i : Z) : (0 <= i < n)%Z -> clampi n i = i.
Proof. unfold clampi; lia. Qed.

Lemma clampi_range (n i : Z) : (0 < n)%Z -> (0 <= clampi n i < n)%Z.
Proof. unfold clampi; lia. Qed.

Lemma Zfloor_IZR (k : Z) : Zfloor (IZR k) = k.
Proof. apply Zfloor_eq; lra. Qed.

(** Sampling at a position that is a whole number of texels away from a
    texel centre returns that texel, clamped to the edge, with either
    filter. *)
Lemma sample_offset (t : texture) (i j di dj : Z) :
  (0 < tw t)%Z -> (0 < th t)%Z ->
  sample t (mk2 ((IZR i + 1 / 2) / IZR (tw t) + IZR di / IZR (tw t))
                ((IZR j + 1 / 2) / IZR (th t) + IZR dj / IZR (th t)))
  = texelFetch t (i + di) (j + dj).
Proof.
  intros Hw Hh.
  assert (Hw' : IZR (tw t) <> 0) by (apply not_0_IZR; lia).
  assert (Hh' : IZR (th t) <> 0) by (apply not_0_IZR; lia).
  unfold sample; simpl.
  assert (Ex : ((IZR i + 1 / 2) / IZR (tw t) + IZR di / IZR (tw t)) * IZR (tw t)
               = IZR (i + di) + 1 / 2) by (rewrite plus_IZR; field; exact Hw').
  assert (Ey : ((IZR j + 1 / 2) / IZR (th t) + IZR dj / IZR (th t)) * IZR (th t)
               = IZR (j + dj) + 1 / 2) by (rewrite plus_IZR; field; exact Hh').
  rewrite Ex, Ey.
  destruct (tfilter t).
  - replace (IZR (i + di) + 1 / 2 - 1 / 2) with (IZR (i + di)) by ring.
    replace (IZR (j + dj) + 1 / 2 - 1 / 2) with (IZR (j + dj)) by ring.
    rewrite !Zfloor_IZR.
    replace (IZR (i + di) - IZR (i + di)) with 0 by ring.
    replace (IZR (j + dj) - IZR (j + dj)) with 0 by ring.
    rewrite !mix4_0. reflexivity.
  - f_equal; apply Zfloor_eq; lra.
Qed.

(** A texture whose texels all hold [c] samples as [c] everywhere. *)
Lemma sample_const (t : texture) (c : vec4) (uv : vec2) :
  (0 < tw t)%Z -> (0 < th t)%Z ->
  (forall i j, (0 <= i < tw t)%Z -> (0 <= j < th t)%Z -> timg t i j = c) ->
  sample t uv = c.
Proof.
  intros Hw Hh Hc.
  assert (F : forall i j, texelFetch t i j = c).
  { intros i j. unfold texelFetch. apply Hc; apply clampi_range; assumption. }
  unfold sample. destruct (tfilter t); rewrite ?F, ?mix4_same; reflexivity.
Qed.

Lemma sample_center (t : texture) (i j : Z) :
  (0 < tw t)%Z -> (0 < th t)%Z ->
  sample t (fragUv (tw t, th t) i j) = texelFetch t i j.
Proof.
  intros Hw Hh.
  rewrite <- (Z.add_0_r i) at 2. rewrite <- (Z.add_0_r j) at 2.
  rewrite <- sample_offset by assumption.
  unfold fragUv; simpl. f_equal. f_equal; lra.
Qed.

(** ** Draw calls *)

Lemma same_shape_refl (g : GL) : same_shape g g.
Proof. repeat split. Qed.

Lemma same_shape_trans (g1 g2 g3 : GL) :
  same_shape g1 g2 -> same_shape g2 g3 -> same_shape g1 g3.
Proof.
  intros (A1 & B1 & C1 & D1) (A2 & B2 & C2 & D2).
  split; [congruence|]. split; [congruence|]. split; [congruence|].
  intros n. rewrite D2. apply D1.
Qed.

Lemma same_shape_bind (f : option nat) (g : GL) : same_shape g (bindFramebuffer f g).
Proof. repeat split. Qed.

Lemma same_shape_emit (g : GL) (c : command) : same_shape g (emit g c).
Proof. repeat split. Qed.

Lemma same_shape_with_texture (g : GL) (n : nat) (t t' : texture) (c : command) :
  textures g !! n = Some t -> shape t' = shape t ->
  same_shape g (with_texture g n t' c).
Proof.
  intros Ht Hs. repeat split. intros m. simpl.
  destruct (decide (n = m)) as [->|Hne].
  - rewrite lookup_insert_eq, Ht. simpl. congruence.
  - rewrite lookup_insert_ne by assumption. reflexivity.
Qed.

Lemma same_shape_drawArrays (p : pass) (g : GL) : same_shape g (drawArrays p g).
Proof.
  unfold drawArrays.
  destruct (render_target g) as [n|]; [|apply same_shape_emit].
  destruct (textures g !! n) as [t|] eqn:Ht; [|apply same_shape_emit].
  eapply same_shape_with_texture; [exact Ht | reflexivity].
Qed.

Lemma same_shape_clear (c : vec4) (g : GL) : same_shape g (clear c g).
Proof.
  unfold clear.
  destruct (render_target g) as [n|]; [|apply same_shape_emit].
  destruct (textures g !! n) as [t|] eqn:Ht; [|apply same_shape_emit].
  eapply same_shape_with_texture; [exact Ht | reflexivity].
Qed.

Lemma log_drawArrays (p : pass) (g : GL) :
  log (drawArrays p g) = log g ++ [DrawArrays (bound g) p].
Proof.
  unfold drawArrays.
  destruct (render_target g) as [n|]; [|reflexivity].
  destruct (textures g !! n); reflexivity.
Qed.

Lemma log_clear (c : vec4) (g : GL) : log (clear c g) = log g ++ [Clear (bound g)].
Proof.
  unfold clear.
  destruct (render_target g) as [n|]; [|reflexivity].
  destruct (textures g !! n); reflexivity.
Qed.

Lemma fbo_ok_same_shape (g g' : GL) w h f flt o :
  same_shape g g' -> fbo_ok g w h f flt o -> fbo_ok g' w h f flt o.
Proof.
  intros (_ & B & _ & D) [H1 H2]. split; [rewrite B | rewrite D]; assumption.
Qed.

Lemma same_shape_draw_into (o : FBO) (p : pass) (g : GL) :
  same_shape g (draw_into o p g).
Proof.
  unfold draw_into, bindAndDraw.
  eapply same_shape_trans; [apply same_shape_bind | apply same_shape_drawArrays].
Qed.

Lemma log_draw_into (o : FBO) (p : pass) (g : GL) :
  log (draw_into o p g) = log g ++ [DrawArrays (Some (fbo o)) p].
Proof. unfold draw_into, bindAndDraw. rewrite log_drawArrays. reflexivity. Qed.

Lemma fbo_ok_texture (g : GL) w h f flt o :
  fbo_ok g w h f flt o ->
  exists t, textures g !! tex o = Some t /\ tw t = w /\ th t = h /\
            tfmt t = f /\ tfilter t = flt.
Proof.
  intros [_ H]. destruct (textures g !! tex o) as [t|]; [|discriminate].
  exists t. inversion H. auto.
Qed.

(** A pass replaces the texture behind the framebuffer it binds... *)
Lemma draw_into_textures (o : FBO) (p : pass) (g : GL) w h f flt :
  color_buffer_float g = true -> fbo_ok g w h f flt o ->
  exists t, textures g !! tex o = Some t /\ tfmt t = f /\
    textures (draw_into o p g)
    = <[tex o := rasterize (viewport g) (frag_of g p) t]> (textures g).
Proof.
  intros Hc Hok. destruct (fbo_ok_texture _ _ _ _ _ _ Hok) as (t & Ht & _ & _ & Hf & _).
  destruct Hok as [Hfb _].
  exists t. split; [exact Ht|]. split; [exact Hf|].
  unfold draw_into, bindAndDraw, drawArrays, render_target. simpl.
  rewrite Hc. simpl. rewrite Hfb. simpl. rewrite Ht. reflexivity.
Qed.

Lemma draw_into_target (o : FBO) (p : pass) (g : GL) w h f flt i j :
  color_buffer_float g = true -> fbo_ok g w h f flt o -> viewport g = (w, h) ->
  (0 <= i < w)%Z -> (0 <= j < h)%Z ->
  texels (draw_into o p g) (tex o) i j = mask f (frag_of g p (fragUv (w, h) i j)).
Proof.
  intros Hc Hok Hv Hi Hj.
  destruct (draw_into_textures o p g _ _ _ _ Hc Hok) as (t & Ht & Hf & E).
  unfold texels. rewrite E, lookup_insert_eq. simpl.
  rewrite Hv. unfold in_viewport. simpl.
  replace (0 <=? i)%Z with true by (symmetry; apply Z.leb_le; lia).
  replace (i <? w)%Z with true by (symmetry; apply Z.ltb_lt; lia).
  replace (0 <=? j)%Z with true by (symmetry; apply Z.leb_le; lia).
  replace (j <? h)%Z with true by (symmetry; apply Z.ltb_lt; lia).
  simpl. rewrite Hf. reflexivity.
Qed.

(** ... and leaves every other texture alone. *)
Lemma draw_into_other (o : FBO) (p : pass) (g : GL) (n : nat) :
  framebuffers g !! fbo o = Some (tex o) -> n <> tex o ->
  textures (draw_into o p g) !! n = textures g !! n.
Proof.
  intros Hfb Hn.
  unfold draw_into, bindAndDraw, drawArrays, render_target. simpl.
  destruct (color_buffer_float g); simpl; [|reflexivity].
  rewrite Hfb. simpl.
  destruct (textures g !! tex o); simpl; [|reflexivity].
  apply lookup_insert_ne. congruence.
Qed.

Lemma texels_other (g g' : GL) (n : nat) :
  textures g' !! n = textures g !! n -> texels g' n = texels g n.
Proof. unfold texels. intros ->. reflexivity. Qed.

(** Samplers on textures of a known shape. *)
Lemma sampler_offset (g : GL) (n : nat) w h f flt (i j di dj : Z) :
  shape <$> (textures g !! n) = Some (w, h, f, flt) -> (0 < w)%Z -> (0 < h)%Z ->
  bound_sampler g n (mk2 ((IZR i + 1 / 2) / IZR w + IZR di / IZR w)
                         ((IZR j + 1 / 2) / IZR h + IZR dj / IZR h))
  = texels g n (clampi w (i + di)) (clampi h (j + dj)).
Proof.
  intros Hs Hw Hh. unfold bound_sampler, texels.
  destruct (textures g !! n) as [t|]; [|discriminate].
  inversion Hs; subst. apply sample_offset; assumption.
Qed.

Lemma sampler_center (g : GL) (n : nat) w h f flt (i j : Z) :
  shape <$> (textures g !! n) = Some (w, h, f, flt) ->
  (0 <= i < w)%Z -> (0 <= j < h)%Z ->
  bound_sampler g n (fragUv (w, h) i j) = texels g n i j.
Proof.
  intros Hs Hi Hj.
  replace (fragUv (w, h) i j)
    with (mk2 ((IZR i + 1 / 2) / IZR w + IZR 0 / IZR w)
              ((IZR j + 1 / 2) / IZR h + IZR 0 / IZR h))
    by (unfold fragUv; simpl; f_equal; lra).
  erewrite sampler_offset by (try exact Hs; lia).
  rewrite !Z.add_0_r, !clampi_id by lia. reflexivity.
Qed.

Lemma xy_zero (v : vec4) : xy v = mk2 0 0 -> vx v = 0 /\ vy v = 0.
Proof. unfold xy. intros H. inversion H. split; reflexivity. Qed.

(** ** The fragment programs at the centre of a grid cell *)

Section AtCell.
Variables (g : GL) (w h : Z).
Hypotheses (Hw : (0 < w)%Z) (Hh : (0 < h)%Z).
Variables (i j : Z).
Hypotheses (Hi : (0 <= i < w)%Z) (Hj : (0 <= j < h)%Z).

(** The value of [uTexel] in every draw of the engine. *)
Let uTexel := mk2 0 0.
Let vUv := fragUv (w, h) i j.

(** The neighbours the programs sample at [vUv] plus or minus one
    [uTexel] are the cell itself. *)
Lemma sampler_minus n f flt :
  shape <$> (textures g !! n) = Some (w, h, f, flt) ->
  bound_sampler g n (sub2 vUv (mk2 0 0)) = texels g n i j.
Proof.
  intros Hs.
  replace (sub2 vUv (mk2 0 0)) with (fragUv (w, h) i j)
    by (unfold vUv, fragUv, sub2; simpl; f_equal; lra).
  eapply sampler_center; eauto.
Qed.

Lemma sampler_plus n f flt :
  shape <$> (textures g !! n) = Some (w, h, f, flt) ->
  bound_sampler g n (add2 vUv (mk2 0 0)) = texels g n i j.
Proof.
  intros Hs.
  replace (add2 vUv (mk2 0 0)) with (fragUv (w, h) i j)
    by (unfold vUv, fragUv, add2; simpl; f_equal; lra).
  eapply sampler_center; eauto.
Qed.

(** The pressure program relaxes every cell against itself. *)
Lemma pressure_at_cell np nd f flt f' flt' :
  shape <$> (textures g !! np) = Some (w, h, f, flt) ->
  shape <$> (textures g !! nd) = Some (w, h, f', flt') ->
  frag_of g (Pressure np nd uTexel) vUv
  = mk4 (relax_in_place (fun a b => vx (texels g nd a b))
                        (fun a b => vx (texels g np a b)) i j) 0 0 1.
Proof.
  intros Hp Hd. cbn [frag_of]. unfold pressureFrag, uTexel. cbn [x2 y2].
  erewrite !sampler_minus, !sampler_plus by exact Hp.
  unfold vUv. erewrite sampler_center by (try exact Hd; assumption).
  reflexivity.
Qed.

Lemma dissipate_at_cell n k f flt :
  shape <$> (textures g !! n) = Some (w, h, f, flt) ->
  frag_of g (Dissipate n k) vUv = scale4 k (texels g n i j).
Proof.
  intros Hs. simpl. unfold clearFrag, vUv.
  erewrite sampler_center by (try exact Hs; assumption). reflexivity.
Qed.

Lemma splat_at_cell n pt c r f flt :
  shape <$> (textures g !! n) = Some (w, h, f, flt) ->
  frag_of g (Splat n pt c r) vUv
  = add4 (texels g n i j)
         (mk4 (x3 c * falloff vUv pt r) (y3 c * falloff vUv pt r)
              (z3 c * falloff vUv pt r) (falloff vUv pt r)).
Proof.
  intros Hs. simpl. unfold splatFrag, vUv.
  erewrite sampler_center by (try exact Hs; assumption). reflexivity.
Qed.

Lemma splatVel_at_cell n pt fc r f flt :
  shape <$> (textures g !! n) = Some (w, h, f, flt) ->
  frag_of g (SplatVel n pt fc r) vUv
  = mk4 (vx (texels g n i j) + falloff vUv pt r * x2 fc)
        (vy (texels g n i j) + falloff vUv pt r * y2 fc) 0 1.
Proof.
  intros Hs. simpl. unfold splatVelFrag, vUv.
  erewrite sampler_center by (try exact Hs; assumption). reflexivity.
Qed.

(** Advection samples the source at the cell itself, whatever the
    velocity and the time step. *)
Lemma advect_at_cell ns nv dt f flt :
  shape <$> (textures g !! ns) = Some (w, h, f, flt) ->
  frag_of g (Advect ns nv uTexel dt) vUv = texels g ns i j.
Proof.
  intros Hs. cbn [frag_of]. unfold advectFrag, uTexel.
  replace (sub2 vUv (mul2 (scale2 dt (scale2 1 (xy (bound_sampler g nv vUv)))) (mk2 0 0)))
    with (fragUv (w, h) i j)
    by (unfold vUv, fragUv, sub2, mul2, scale2; simpl; f_equal; lra).
  eapply sampler_center; eauto.
Qed.

(** The divergence program takes the difference of a sample and itself. *)
Lemma divergence_at_cell nv f flt :
  shape <$> (textures g !! nv) = Some (w, h, f, flt) ->
  frag_of g (Divergence nv uTexel) vUv = mk4 0 0 0 1.
Proof.
  intros Hv. cbn [frag_of]. unfold divergenceFrag, uTexel. cbn [x2 y2].
  erewrite !sampler_minus, !sampler_plus by exact Hv.
  f_equal. lra.
Qed.

(** The gradient program subtracts nothing from the velocity. *)
Lemma gradient_at_cell nv np f flt f' flt' :
  shape <$> (textures g !! nv) = Some (w, h, f, flt) ->
  shape <$> (textures g !! np) = Some (w, h, f', flt') ->
  frag_of g (GradientSubtract nv np uTexel) vUv
  = mk4 (vx (texels g nv i j)) (vy (texels g nv i j)) 0 1.
Proof.
  intros Hv Hp. cbn [frag_of]. unfold gradientSubtractFrag, uTexel. cbn [x2 y2].
  erewrite !sampler_minus, !sampler_plus by exact Hp.
  unfold vUv. erewrite sampler_center by (try exact Hv; assumption).
  unfold sub2, scale2, xy. cbn [x2 y2]. f_equal; lra.
Qed.

End AtCell.

(** ** Well-formedness is kept by everything the engine does *)

Arguments drawArrays : simpl never.
Arguments clear : simpl never.

Lemma wf_fields_ext (s s' : Sim) d v p dv :
  wf_fields s d v p dv ->
  dye s' = dye s -> velocity s' = velocity s -> pressure s' = pressure s ->
  divergence s' = divergence s -> width s' = width s -> height s' = height s ->
  texel s' = texel s -> same_shape (gl s) (gl s') ->
  wf_fields s' d v p dv.
Proof.
  intros [] E1 E2 E3 E4 E5 E6 E7 Hsh.
  pose proof Hsh as (_ & _ & Hvp & _).
  constructor; rewrite ?E1, ?E2, ?E3, ?E4, ?E5, ?E6, ?E7, ?Hvp; auto;
    eapply fbo_ok_same_shape; eauto.
Qed.

Lemma wf_fields_swap_dye (s : Sim) d v p dv :
  wf_fields s d v p dv -> wf_fields (set_dye (swap d) s) (swap d) v p dv.
Proof.
  intros []. constructor; simpl; auto.
  eapply NoDup_Permutation_proper; [|eassumption]. apply Permutation.perm_swap.
Qed.

Lemma wf_fields_swap_velocity (s : Sim) d v p dv :
  wf_fields s d v p dv -> wf_fields (set_velocity (swap v) s) d (swap v) p dv.
Proof.
  intros []. constructor; simpl; auto.
  eapply NoDup_Permutation_proper; [|eassumption].
  do 2 apply Permutation.perm_skip. apply Permutation.perm_swap.
Qed.

Lemma wf_fields_swap_pressure (s : Sim) d v p dv :
  wf_fields s d v p dv -> wf_fields (set_pressure (swap p) s) d v (swap p) dv.
Proof.
  intros []. constructor; simpl; auto.
  eapply NoDup_Permutation_proper; [|eassumption].
  do 4 apply Permutation.perm_skip. apply Permutation.perm_swap.
Qed.

Lemma wf_fields_draw (s : Sim) d v p dv (o : FBO) (P : pass) :
  wf_fields s d v p dv -> wf_fields (set_gl (draw_into o P (gl s)) s) d v p dv.
Proof.
  intros H. eapply wf_fields_ext; eauto. apply same_shape_draw_into.
Qed.

(** The seven textures of a well-formed state are pairwise different;
    [distinct H] proves any such disequality from [H : wf_fields _ _ _ _ _]. *)
Ltac distinct Hwf :=
  let ND := fresh "ND" in
  pose proof (wf_distinct _ _ _ _ _ Hwf) as ND;
  unfold read, write in *; cbn [swap fbo1 fbo2 tex] in *;
  repeat (apply NoDup_cons in ND; destruct ND as [? ND]);
  repeat match goal with
         | H : _ ∉ _ :: _ |- _ => apply not_elem_of_cons in H; destruct H
         end;
  congruence.

(** ** Running the passes on a constructed engine *)

Lemma swap_dye_eq (s : Sim) d : dye s = Some d -> swap_dye s = Ok (set_dye (swap d) s).
Proof. intros H. unfold swap_dye. rewrite H. reflexivity. Qed.

Lemma swap_velocity_eq (s : Sim) v :
  velocity s = Some v -> swap_velocity s = Ok (set_velocity (swap v) s).
Proof. intros H. unfold swap_velocity. rewrite H. reflexivity. Qed.

Lemma swap_pressure_eq (s : Sim) p :
  pressure s = Some p -> swap_pressure s = Ok (set_pressure (swap p) s).
Proof. intros H. unfold swap_pressure. rewrite H. reflexivity. Qed.

Lemma advect_eq (dst src vel : FBO) (dt : R) (s : Sim) :
  advect dst src vel dt s
  = set_gl (draw_into dst (Advect (tex src) (tex vel) (texel s) dt) (gl s)) s.
Proof. reflexivity. Qed.

Lemma applyDissipation_eq (dst src : FBO) (k : R) (s : Sim) :
  applyDissipation dst src k s
  = set_gl (draw_into dst (Dissipate (tex src) k) (gl s)) s.
Proof. reflexivity. Qed.

Lemma computeDivergence_eq (s : Sim) v dv :
  velocity s = Some v -> divergence s = Some dv ->
  computeDivergence s
  = Ok (set_gl (draw_into dv (Divergence (tex (read v)) (texel s)) (gl s)) s).
Proof. intros Hv Hdv. unfold computeDivergence. rewrite Hdv, Hv. reflexivity. Qed.

Lemma pressureIteration_eq (s : Sim) p dv :
  pressure s = Some p -> divergence s = Some dv ->
  pressureIteration s
  = Ok (set_pressure (swap p)
          (set_gl (draw_into (write p) (Pressure (tex (read p)) (tex dv) (texel s)) (gl s)) s)).
Proof.
  intros Hp Hdv. unfold pressureIteration. rewrite Hp, Hdv.
  cbn [mbind result_bind deref]. apply swap_pressure_eq. exact Hp.
Qed.

Lemma subtractGradient_eq (s : Sim) v p :
  velocity s = Some v -> pressure s = Some p ->
  subtractGradient s
  = Ok (set_velocity (swap v)
          (set_gl (draw_into (write v)
                     (GradientSubtract (tex (read v)) (tex (read p)) (texel s)) (gl s)) s)).
Proof.
  intros Hv Hp. unfold subtractGradient. rewrite Hv, Hp.
  cbn [mbind result_bind deref]. apply swap_velocity_eq. exact Hv.
Qed.

Lemma render_eq (s : Sim) d :
  dye s = Some d ->
  render s
  = Ok (set_gl (bindAndDraw (Display (tex (read d))) (bindFramebuffer None (gl s))) s).
Proof. intros Hd. unfold render. rewrite Hd. reflexivity. Qed.

Lemma advect_dts_app (a b : list command) :
  advect_dts (a ++ b) = advect_dts a ++ advect_dts b.
Proof.
  induction a as [|c a IH]; [reflexivity|].
  destruct c as [| |t q]; simpl; auto. destruct q; simpl; auto. f_equal. exact IH.
Qed.

Lemma ran_refl (s : Sim) : ran s s [].
Proof. constructor; try reflexivity. - apply same_shape_refl. - symmetry. apply app_nil_r. Qed.

Lemma ran_trans (s1 s2 s3 : Sim) (c1 c2 : list command) :
  ran s1 s2 c1 -> ran s2 s3 c2 -> ran s1 s3 (c1 ++ c2).
Proof.
  intros [] []. constructor; try congruence.
  - eapply same_shape_trans; eassumption.
  - rewrite ran_log1, ran_log0. symmetry. apply app_assoc.
Qed.

Lemma ran_draw (s : Sim) (o : FBO) (P : pass) :
  ran s (set_gl (draw_into o P (gl s)) s) [DrawArrays (Some (fbo o)) P].
Proof.
  constructor; try reflexivity.
  - apply same_shape_draw_into.
  - apply log_draw_into.
Qed.

Lemma same_shape_clear_into (o : FBO) (c : vec4) (g : GL) :
  same_shape g (clear_into o c g).
Proof.
  unfold clear_into.
  eapply same_shape_trans; [apply same_shape_bind | apply same_shape_clear].
Qed.

Lemma ran_clear (s : Sim) (o : FBO) (c : vec4) :
  ran s (set_gl (clear_into o c (gl s)) s) [Clear (Some (fbo o))].
Proof.
  constructor; try reflexivity.
  - apply same_shape_clear_into.
  - unfold clear_into. cbn [gl set_gl]. rewrite log_clear. reflexivity.
Qed.

Lemma ran_set_dye (s s1 : Sim) c d : ran s s1 c -> ran s (set_dye d s1) c.
Proof. intros []. constructor; assumption. Qed.
Lemma ran_set_velocity (s s1 : Sim) c d : ran s s1 c -> ran s (set_velocity d s1) c.
Proof. intros []. constructor; assumption. Qed.
Lemma ran_set_pressure (s s1 : Sim) c d : ran s s1 c -> ran s (set_pressure d s1) c.
Proof. intros []. constructor; assumption. Qed.

Lemma clear_into_target (o : FBO) (c : vec4) (g : GL) w h f flt i j :
  color_buffer_float g = true -> fbo_ok g w h f flt o ->
  texels (clear_into o c g) (tex o) i j = mask f c.
Proof.
  intros Hc Hok.
  destruct (fbo_ok_texture _ _ _ _ _ _ Hok) as (t & Ht & _ & _ & Hf & _).
  destruct Hok as [Hfb _].
  unfold clear_into, clear, render_target, texels. simpl.
  rewrite Hc. simpl. rewrite Hfb. simpl. rewrite Ht. simpl.
  rewrite lookup_insert_eq. simpl. rewrite Hf. reflexivity.
Qed.

Lemma clear_into_other (o : FBO) (c : vec4) (g : GL) (n : nat) :
  framebuffers g !! fbo o = Some (tex o) -> n <> tex o ->
  textures (clear_into o c g) !! n = textures g !! n.
Proof.
  intros Hfb Hn.
  unfold clear_into, clear, render_target. simpl.
  destruct (color_buffer_float g); simpl; [|reflexivity].
  rewrite Hfb. simpl.
  destruct (textures g !! tex o); simpl; [|reflexivity].
  apply lookup_insert_ne. congruence.
Qed.

(** ** Relaxation in place *)

Lemma relax_agree (w h : Z) (d d' p p' : Z -> Z -> R) :
  agree w h d d' -> agree w h p p' ->
  agree w h (relax_in_place d p) (relax_in_place d' p').
Proof.
  intros Hd Hp i j Hi Hj. unfold relax_in_place.
  rewrite (Hd i j), (Hp i j) by assumption. reflexivity.
Qed.

Lemma relax_iter_agree (w h : Z) (d d' p p' : Z -> Z -> R) (n : nat) :
  agree w h d d' -> agree w h p p' ->
  agree w h (Nat.iter n (relax_in_place d) p) (Nat.iter n (relax_in_place d') p').
Proof.
  intros Hd Hp. induction n as [|n IH]; simpl; [exact Hp|].
  apply relax_agree; assumption.
Qed.

(** Relaxing a vanishing pressure against a vanishing divergence leaves
    it vanishing. *)
Lemma relax_iter_zero (w h : Z) (d : Z -> Z -> R) (n : nat) :
  agree w h d (fun _ _ => 0) ->
  agree w h (Nat.iter n (relax_in_place d) (fun _ _ => 0)) (fun _ _ => 0).
Proof.
  intros Hd. induction n as [|n IH]; simpl; [intros i j _ _; reflexivity|].
  intros i j Hi Hj. unfold relax_in_place at 1.
  rewrite (Hd i j), (IH i j) by assumption. lra.
Qed.

(** The relaxation in place is not the Jacobi relaxation of the
    specification: on a 2 by 2 grid with the pressure 0 in the left
    column and 1 in the right one, and no divergence, a Jacobi step gives
    the cell (0, 0) a quarter, and the relaxation in place leaves it 0. *)
Lemma relax_in_place_not_jacobi :
  jacobi 2 2 (fun _ _ => 0) (fun i _ => IZR i) 0 0 = 0.25 /\
  relax_in_place (fun _ _ => 0) (fun i _ => IZR i) 0 0 = 0.
Proof.
  unfold jacobi, relax_in_place.
  change (clampi 2 (0 - 1)) with 0%Z. change (clampi 2 (0 + 1)) with 1%Z.
  split; lra.
Qed.

(** A cell relaxed in place depends on its own divergence only. *)
Lemma relax_iter_cell (d : Z -> Z -> R) (n : nat) (i j : Z) :
  Nat.iter n (relax_in_place d) (fun _ _ => 0) i j
  = Nat.iter n (fun q => (q + q + q + q - d i j) * 0.25) 0.
Proof.
  induction n as [|n IH]; [reflexivity|].
  rewrite !Nat.iter_succ. unfold relax_in_place at 1. rewrite IH. reflexivity.
Qed.

Lemma agree_trans (w h : Z) (f g k : Z -> Z -> R) :
  agree w h f g -> agree w h g k -> agree w h f k.
Proof. intros H1 H2 i j Hi Hj. rewrite H1, H2; auto. Qed.

Lemma pressure_at_eq (s : Sim) p i j :
  pressure s = Some p -> pressure_at s i j = vx (texels (gl s) (tex (read p)) i j).
Proof. unfold pressure_at. intros ->. reflexivity. Qed.

Lemma divergence_at_eq (s : Sim) dv i j :
  divergence s = Some dv -> divergence_at s i j = vx (texels (gl s) (tex dv) i j).
Proof. unfold divergence_at. intros ->. reflexivity. Qed.

Lemma velocity_at_eq (s : Sim) v i j :
  velocity s = Some v -> velocity_at s i j = xy (texels (gl s) (tex (read v)) i j).
Proof. unfold velocity_at. intros ->. reflexivity. Qed.

Lemma dye_at_eq (s : Sim) d i j :
  dye s = Some d -> dye_at s i j = texels (gl s) (tex (read d)) i j.
Proof. unfold dye_at. intros ->. reflexivity. Qed.

(** ** Passes draw into what they do not sample *)

Lemma no_feedback_framebuffers (g g' : GL) (c : command) :
  framebuffers g' = framebuffers g -> no_feedback g c -> no_feedback g' c.
Proof. intros E. destruct c as [| |[f|] q]; cbn [no_feedback]; auto. rewrite E. auto. Qed.

Lemma no_feedback_ran (s s' : Sim) cmds (c : command) :
  ran s s' cmds -> no_feedback (gl s') c -> no_feedback (gl s) c.
Proof.
  intros R. apply no_feedback_framebuffers.
  destruct (ran_shape _ _ _ R) as (_ & E & _). symmetry. exact E.
Qed.

Lemma no_feedback_draw (g : GL) w h f flt (o : FBO) (q : pass) :
  fbo_ok g w h f flt o -> tex o ∉ sampled q ->
  no_feedback g (DrawArrays (Some (fbo o)) q).
Proof. intros [Hfb _] Hn. exists (tex o). auto. Qed.

Lemma is_pressure_draw_ran (s s' : Sim) cmds nd (c : command) :
  ran s s' cmds -> is_pressure_draw (gl s') nd (texel s') c ->
  is_pressure_draw (gl s) nd (texel s) c.
Proof.
  intros R (t & np & E & H). exists t, np.
  rewrite <- (ran_texel _ _ _ R). split; [exact E|].
  eapply no_feedback_ran; eassumption.
Qed.

(** [separate H] proves that a texture of a well-formed state is not among
    the textures a pass samples, from [H : wf_fields _ _ _ _ _]. *)
Ltac separate Hwf :=
  cbn [sampled]; rewrite ?not_elem_of_cons;
  repeat split; try apply not_elem_of_nil; distinct Hwf.

(** ** The pressure solve *)

(** One turn of the loop: a relaxation in place of the pressure that is
    read, written to the other texture, and a swap. *)
Lemma pressureIteration_spec (s : Sim) d v p dv :
  wf_fields s d v p dv ->
  exists s' c,
    pressureIteration s = Ok s' /\
    wf_fields s' d v (swap p) dv /\
    ran s s' [c] /\ is_pressure_draw (gl s) (tex dv) (texel s) c /\
    lastT s' = lastT s /\ queued_frames s' = queued_frames s /\
    (forall m, m <> tex (write p) -> textures (gl s') !! m = textures (gl s) !! m) /\
    (capable s ->
     agree (width s) (height s) (pressure_at s')
           (relax_in_place (divergence_at s) (pressure_at s))).
Proof.
  intros Hwf. pose proof Hwf as [].
  eexists; eexists. split; [apply pressureIteration_eq; eassumption|].
  split; [apply wf_fields_swap_pressure, wf_fields_draw; exact Hwf|].
  split; [apply ran_set_pressure, ran_draw|].
  split.
  { eexists; eexists. split; [reflexivity|].
    eapply no_feedback_draw; [apply wf_pressure_write0|].
    clear - Hwf. separate Hwf. }
  split; [reflexivity|]. split; [reflexivity|].
  split.
  - intros m Hm. cbn [gl set_pressure set_gl].
    apply draw_into_other; [apply wf_pressure_write0 | exact Hm].
  - intros Hc i j Hi Hj.
    erewrite pressure_at_eq by reflexivity.
    cbn [gl set_pressure set_gl read swap fbo1 tex].
    change (tex (fbo2 p)) with (tex (write p)).
    erewrite draw_into_target; try eassumption.
    rewrite wf_texel0.
    erewrite pressure_at_cell; try lia;
      try (apply wf_pressure_read0); try (apply wf_divergence_fbo0).
    cbn [mask vx]. unfold relax_in_place.
    rewrite (divergence_at_eq s dv), (pressure_at_eq s p) by assumption.
    reflexivity.
Qed.

Lemma pressureLoop_spec (n : nat) (s : Sim) d v p dv :
  wf_fields s d v p dv ->
  exists s' cmds,
    pressureLoop n s = Ok s' /\
    wf_fields s' d v (Nat.iter n swap p) dv /\
    ran s s' cmds /\ length cmds = n /\
    Forall (is_pressure_draw (gl s) (tex dv) (texel s)) cmds /\
    lastT s' = lastT s /\ queued_frames s' = queued_frames s /\
    (forall m, m <> tex (read p) -> m <> tex (write p) ->
               textures (gl s') !! m = textures (gl s) !! m) /\
    (capable s ->
     agree (width s) (height s) (pressure_at s')
           (Nat.iter n (relax_in_place (divergence_at s)) (pressure_at s))).
Proof.
  revert s p. induction n as [|n IH]; intros s p Hwf.
  - exists s, []. simpl.
    split; [reflexivity|]. split; [exact Hwf|]. split; [apply ran_refl|].
    split; [reflexivity|]. split; [constructor|].
    split; [reflexivity|]. split; [reflexivity|]. split; [reflexivity|].
    intros _ i j _ _. reflexivity.
  - destruct (pressureIteration_spec s d v p dv Hwf)
      as (s1 & c & E1 & Hwf1 & R1 & J1 & T1 & Q1 & F1 & C1).
    destruct (IH s1 (swap p) Hwf1)
      as (s' & cmds & E & Hwf' & R & L & J & T & Q & F & C).
    pose proof Hwf as [].
    exists s', ([c] ++ cmds).
    split; [cbn [pressureLoop]; rewrite E1; exact E|].
    split; [rewrite Nat.iter_succ_r; exact Hwf'|].
    split; [eapply ran_trans; eassumption|].
    split; [simpl; congruence|].
    split; [constructor; [exact J1|]; eapply Forall_impl; [exact J|];
            intros c0; apply (is_pressure_draw_ran _ _ _ _ _ R1)|].
    split; [congruence|]. split; [congruence|].
    split.
    + intros m Hr Hw. rewrite F by (simpl; assumption). apply F1. exact Hw.
    + intros Hc.
      assert (Hc1 : capable s1).
      { unfold capable. destruct (ran_shape _ _ _ R1) as (-> & _). exact Hc. }
      specialize (C Hc1). specialize (C1 Hc).
      rewrite (ran_width _ _ _ R1), (ran_height _ _ _ R1) in C.
      rewrite Nat.iter_succ_r.
      eapply agree_trans; [exact C|].
      apply relax_iter_agree; [|exact C1].
      intros i j _ _.
      rewrite (divergence_at_eq s1 dv), (divergence_at_eq s dv); auto.
      * rewrite (texels_other (gl s) (gl s1)); [reflexivity|].
        apply F1. clear - Hwf. distinct Hwf.
      * rewrite (ran_divergence _ _ _ R1). assumption.
Qed.

Lemma wf_fields_clear (s : Sim) d v p dv (o : FBO) (c : vec4) :
  wf_fields s d v p dv -> wf_fields (set_gl (clear_into o c (gl s)) s) d v p dv.
Proof.
  intros H. eapply wf_fields_ext; eauto. apply same_shape_clear_into.
Qed.

Lemma capable_ran (s s' : Sim) cmds : ran s s' cmds -> capable s -> capable s'.
Proof. intros R Hc. unfold capable. destruct (ran_shape _ _ _ R) as (-> & _). exact Hc. Qed.

Lemma solvePressure_spec (s : Sim) d v p dv :
  wf_fields s d v p dv ->
  exists s' cmds,
    solvePressure s = Ok s' /\
    wf_fields s' d v (Nat.iter pressureIters swap (swap p)) dv /\
    ran s s' (Clear (Some (fbo (write p))) :: cmds) /\
    length cmds = pressureIters /\
    Forall (is_pressure_draw (gl s) (tex dv) (texel s)) cmds /\
    lastT s' = lastT s /\ queued_frames s' = queued_frames s /\
    (forall m, m <> tex (read p) -> m <> tex (write p) ->
               textures (gl s') !! m = textures (gl s) !! m) /\
    (capable s ->
     agree (width s) (height s) (pressure_at s')
           (Nat.iter pressureIters (relax_in_place (divergence_at s)) (fun _ _ => 0))).
Proof.
  intros Hwf. pose proof Hwf as [].
  set (s1 := set_gl (clear_into (write p) (mk4 0 0 0 1) (gl s)) s).
  set (s2 := set_pressure (swap p) s1).
  assert (Hwf2 : wf_fields s2 d v (swap p) dv)
    by (apply wf_fields_swap_pressure, wf_fields_clear; exact Hwf).
  assert (R2 : ran s s2 [Clear (Some (fbo (write p)))])
    by (apply ran_set_pressure, ran_clear).
  destruct (pressureLoop_spec pressureIters s2 d v (swap p) dv Hwf2)
    as (s' & cmds & E & Hwf' & R & L & J & T & Q & F & C).
  exists s', cmds.
  split.
  { unfold solvePressure. rewrite wf_pressure0. cbn [mbind result_bind deref].
    fold (clear_into (write p) (mk4 0 0 0 1) (gl s)). fold s1.
    rewrite (swap_pressure_eq s1 p) by assumption. exact E. }
  split; [exact Hwf'|].
  split; [exact (ran_trans _ _ _ _ _ R2 R)|].
  split; [exact L|].
  split; [eapply Forall_impl; [exact J|]; intros c0; apply (is_pressure_draw_ran _ _ _ _ _ R2)|].
  split; [exact T|]. split; [exact Q|].
  assert (F2 : forall m, m <> tex (write p) ->
                         textures (gl s2) !! m = textures (gl s) !! m).
  { intros m Hm. apply clear_into_other; [apply wf_pressure_write0 | exact Hm]. }
  split.
  - intros m Hr Hw. rewrite F by (simpl; assumption). apply F2. exact Hw.
  - intros Hc. specialize (C (capable_ran _ _ _ R2 Hc)).
    eapply agree_trans; [exact C|].
    apply relax_iter_agree.
    + intros i j _ _.
      rewrite (divergence_at_eq s2 dv), (divergence_at_eq s dv) by assumption.
      rewrite (texels_other (gl s) (gl s2)); [reflexivity|].
      apply F2. clear - Hwf. distinct Hwf.
    + intros i j _ _.
      rewrite (pressure_at_eq s2 (swap p)) by reflexivity.
      cbn [gl s2 s1 set_pressure set_gl read swap fbo1 tex].
      change (tex (fbo2 p)) with (tex (write p)).
      erewrite clear_into_target; try eassumption. reflexivity.
Qed.

(** ** Allocation *)

Lemma setSize_same (s : Sim) :
  requested_width s = width s -> requested_height s = height s ->
  setSize s = (false, s).
Proof.
  unfold requested_width, requested_height, setSize. intros -> ->.
  rewrite !Z.eqb_refl. reflexivity.
Qed.

Lemma createDoubleFBO_eq (w h : Z) (f : format) (flt : filter) (g : GL) :
  createDoubleFBO w h f flt g
  = (mkDouble (mkFBO (next_name g) (S (next_name g)) w h)
              (mkFBO (S (S (next_name g))) (S (S (S (next_name g)))) w h),
     mkGL (color_buffer_float g)
          (<[S (S (next_name g)) := blank w h f flt]>
             (<[next_name g := blank w h f flt]> (textures g)))
          (<[S (S (S (next_name g))) := S (S (next_name g))]>
             (<[S (next_name g) := next_name g]> (framebuffers g)))
          (S (S (S (S (next_name g)))))
          (Some (S (S (S (next_name g)))))
          (w, h)
          ((log g ++ [TexImage2D (next_name g) w h f])
             ++ [TexImage2D (S (S (next_name g))) w h f])).
Proof. reflexivity. Qed.

Lemma setSize_alloc (s : Sim) :
  requested_width s <> width s \/ requested_height s <> height s ->
  exists s' d v p dv,
    setSize s = (true, s') /\
    (texel s = mk2 0 0 -> wf_fields s' d v p dv) /\
    width s' = requested_width s /\ height s' = requested_height s /\
    canvas_width (canvas s') = requested_width s /\
    canvas_height (canvas s') = requested_height s /\
    parentNode (canvas s') = parentNode (canvas s) /\
    layoutWidth (canvas s') = layoutWidth (canvas s) /\
    layoutHeight (canvas s') = layoutHeight (canvas s) /\
    dpr s' = dpr s /\ lastT s' = lastT s /\ hidden s' = hidden s /\
    queued_frames s' = queued_frames s /\
    color_buffer_float (gl s') = color_buffer_float (gl s) /\
    (forall i j, dye_at s' i j = mk4 0 0 0 0) /\
    (forall i j, velocity_at s' i j = mk2 0 0) /\
    (forall i j, pressure_at s' i j = 0) /\
    (forall i j, divergence_at s' i j = 0) /\
    (exists cmds, log (gl s') = log (gl s) ++ cmds /\ length cmds = 7%nat) /\
    fl s' = fl s /\ texel s' = texel s.
Proof.
  intros Hne. unfold setSize.
  fold (requested_width s). fold (requested_height s).
  set (w := requested_width s) in *. set (h := requested_height s) in *.
  assert (Hw : (2 <= w)%Z) by (unfold w, requested_width; lia).
  assert (Hh : (2 <= h)%Z) by (unfold h, requested_height; lia).
  replace ((w =? width s)%Z && (h =? height s)%Z)%bool with false.
  2: { symmetry. apply andb_false_iff. rewrite !Z.eqb_neq. exact Hne. }
  clearbody w h.
  rewrite createDoubleFBO_eq.
  cbn [color_buffer_float textures framebuffers next_name bound viewport log].
  rewrite createDoubleFBO_eq.
  cbn [color_buffer_float textures framebuffers next_name bound viewport log].
  rewrite createDoubleFBO_eq.
  cbn [color_buffer_float textures framebuffers next_name bound viewport log].
  unfold createFBO.
  cbn [color_buffer_float textures framebuffers next_name bound viewport log].
  do 5 eexists. split; [reflexivity|].
  split.
  { intros Ht.
    constructor; [reflexivity | reflexivity | reflexivity | reflexivity | ..];
      unfold fbo_ok, read, write, Float32Array_set;
      cbn [dye velocity pressure divergence width height texel gl viewport
           fbo1 fbo2 framebuffers textures tex fbo];
      auto;
      try (split;
           [ rewrite ?lookup_insert_ne by lia; apply lookup_insert_eq
           | rewrite ?lookup_insert_ne by lia; rewrite lookup_insert_eq; reflexivity ]).
    apply NoDup_ListNoDup.
    repeat (constructor; [simpl; lia|]). constructor. }
  repeat (split; [reflexivity|]).
  split; [|split; [|split; [|split]]].
  - intros i j. unfold dye_at, field_at, texels, read.
    cbn [dye gl textures fbo1 tex].
    rewrite ?lookup_insert_ne by lia. rewrite lookup_insert_eq. reflexivity.
  - intros i j. unfold velocity_at, field_at, texels, read.
    cbn [velocity gl textures fbo1 tex].
    rewrite ?lookup_insert_ne by lia. rewrite lookup_insert_eq. reflexivity.
  - intros i j. unfold pressure_at, field_at, texels, read.
    cbn [pressure gl textures fbo1 tex].
    rewrite ?lookup_insert_ne by lia. rewrite lookup_insert_eq. reflexivity.
  - intros i j. unfold divergence_at, texels.
    cbn [divergence gl textures tex].
    rewrite lookup_insert_eq. reflexivity.
  - split; [|split; reflexivity].
    eexists. cbn [gl log]. rewrite <- !app_assoc. split; reflexivity.
Qed.

(** [setSize] reads the device pixel ratio and the arithmetic, and leaves
    the texel size as it is. *)
Lemma setSize_keeps (s : Sim) :
  fl (snd (setSize s)) = fl s /\ dpr (snd (setSize s)) = dpr s /\
  texel (snd (setSize s)) = texel s.
Proof.
  unfold setSize.
  destruct ((_ =? width s)%Z && (_ =? height s)%Z)%bool; [auto|].
  rewrite createDoubleFBO_eq.
  cbn [color_buffer_float textures framebuffers next_name bound viewport log].
  rewrite createDoubleFBO_eq.
  cbn [color_buffer_float textures framebuffers next_name bound viewport log].
  rewrite createDoubleFBO_eq.
  cbn [color_buffer_float textures framebuffers next_name bound viewport log].
  unfold createFBO. cbn [snd fl dpr texel]. auto.
Qed.

Lemma requested_width_ge_2 (s : Sim) : (2 <= requested_width s)%Z.
Proof. unfold requested_width. lia. Qed.

Lemma programs_ok (env : Env) :
  (forall sh, compiles env sh = true) -> (forall sh, links env sh = true) ->
  programs env = Ok tt.
Proof.
  intros Hc Hl. unfold programs, program, compile. rewrite !Hc, !Hl. reflexivity.
Qed.

(** What a successful construction returns. *)
Lemma initFluid_ok (env : Env) (maxDPR : option R) (bw bh : Z) (now : R) (hid : bool) :
  webgl2 env = true -> programs env = Ok tt ->
  exists s d v p dv,
    initFluid env maxDPR bw bh now hid
    = ([AppendChild; GetContext; GetExtension "EXT_color_buffer_float";
        GetExtension "OES_texture_float_linear"], Ok s) /\
    wf_fields s d v p dv /\
    dpr s = Rmin (num_or (devicePixelRatio env) 1) (opt_or maxDPR 2) /\
    parentNode (canvas s) = true /\
    layoutWidth (canvas s) = bw /\ layoutHeight (canvas s) = bh /\
    lastT s = now /\ hidden s = hid /\ queued_frames s = 1%nat /\
    color_buffer_float (gl s) = EXT_color_buffer_float env /\
    (forall i j, dye_at s i j = mk4 0 0 0 0) /\
    (forall i j, velocity_at s i j = mk2 0 0) /\
    (forall i j, pressure_at s i j = 0) /\
    (forall i j, divergence_at s i j = 0).
Proof.
  intros Hgl Hprg. unfold initFluid, createGL. rewrite Hgl.
  cbn [snd mbind result_bind]. rewrite Hprg.
  cbn [mbind result_bind].
  match goal with |- context [setSize ?x] => set (s0 := x) end.
  destruct (setSize_alloc s0) as
    (s' & d & v & p & dv & E & Hwf & W & H & _ & _ & P & LW & LH & D & T & Hd & Q & C
       & Zd & Zv & Zp & Zdv & _).
  { left. pose proof (requested_width_ge_2 s0). cbn [s0 width]. lia. }
  rewrite E. cbn [snd].
  exists (requestAnimationFrame s'), d, v, p, dv.
  split; [reflexivity|].
  split; [eapply wf_fields_ext; eauto; apply same_shape_refl|].
  repeat (split; [first [exact D | exact P | exact LW | exact LH | exact T | exact Hd
                        | exact C | cbn [requestAnimationFrame set_queued queued_frames];
                                    rewrite Q; reflexivity]|]).
  repeat split; assumption.
Qed.

(** Construction returns a handle only with a context and linked programs. *)
Lemma initFluid_inv (env : Env) (maxDPR : option R) (bw bh : Z) (now : R) (hid : bool)
    (s : Sim) :
  snd (initFluid env maxDPR bw bh now hid) = Ok s ->
  webgl2 env = true /\ programs env = Ok tt.
Proof.
  unfold initFluid, createGL. destruct (webgl2 env); cbn [snd mbind result_bind].
  - destruct (programs env) as [[]|msg]; cbn [mbind result_bind]; [auto | discriminate].
  - discriminate.
Qed.

(** ** One pass at a time *)

(** Any pass into one of the engine's framebuffers. *)
Lemma pass_spec (s : Sim) d v p dv (o : FBO) (f : format) (flt : filter) (P : pass) :
  wf_fields s d v p dv ->
  fbo_ok (gl s) (width s) (height s) f flt o ->
  let s' := set_gl (draw_into o P (gl s)) s in
  wf_fields s' d v p dv /\
  ran s s' [DrawArrays (Some (fbo o)) P] /\
  (forall m, m <> tex o -> textures (gl s') !! m = textures (gl s) !! m) /\
  (capable s -> forall i j, in_grid s i j ->
     texels (gl s') (tex o) i j
     = mask f (frag_of (gl s) P (fragUv (width s, height s) i j))).
Proof.
  intros Hwf Hok s'.
  split; [apply wf_fields_draw; exact Hwf|].
  split; [apply ran_draw|].
  split.
  - intros m Hm. apply draw_into_other; [apply Hok | exact Hm].
  - intros Hc i j [Hi Hj]. cbn [s' gl set_gl].
    eapply draw_into_target; eauto. apply (wf_viewport _ _ _ _ _ Hwf).
Qed.

Lemma stage_velocity (s : Sim) d v p dv (P : pass) :
  wf_fields s d v p dv ->
  exists s',
    swap_velocity (set_gl (draw_into (write v) P (gl s)) s) = Ok s' /\
    wf_fields s' d (swap v) p dv /\
    ran s s' [DrawArrays (Some (fbo (write v))) P] /\
    lastT s' = lastT s /\ queued_frames s' = queued_frames s /\
    (forall m, m <> tex (write v) -> textures (gl s') !! m = textures (gl s) !! m) /\
    (capable s -> forall i j, in_grid s i j ->
       texels (gl s') (tex (write v)) i j
       = mask RG16F (frag_of (gl s) P (fragUv (width s, height s) i j))).
Proof.
  intros Hwf.
  destruct (pass_spec s d v p dv (write v) RG16F LINEAR P Hwf
              (wf_velocity_write _ _ _ _ _ Hwf)) as (Hwf1 & R1 & F1 & C1).
  eexists. split; [apply swap_velocity_eq; apply (wf_velocity _ _ _ _ _ Hwf)|].
  split; [apply wf_fields_swap_velocity; exact Hwf1|].
  split; [apply ran_set_velocity; exact R1|].
  split; [reflexivity|]. split; [reflexivity|].
  split; [exact F1 | exact C1].
Qed.

Lemma stage_dye (s : Sim) d v p dv (P : pass) :
  wf_fields s d v p dv ->
  exists s',
    swap_dye (set_gl (draw_into (write d) P (gl s)) s) = Ok s' /\
    wf_fields s' (swap d) v p dv /\
    ran s s' [DrawArrays (Some (fbo (write d))) P] /\
    lastT s' = lastT s /\ queued_frames s' = queued_frames s /\
    (forall m, m <> tex (write d) -> textures (gl s') !! m = textures (gl s) !! m) /\
    (capable s -> forall i j, in_grid s i j ->
       texels (gl s') (tex (write d)) i j
       = frag_of (gl s) P (fragUv (width s, height s) i j)).
Proof.
  intros Hwf.
  destruct (pass_spec s d v p dv (write d) RGBA16F LINEAR P Hwf
              (wf_dye_write _ _ _ _ _ Hwf)) as (Hwf1 & R1 & F1 & C1).
  eexists. split; [apply swap_dye_eq; apply (wf_dye _ _ _ _ _ Hwf)|].
  split; [apply wf_fields_swap_dye; exact Hwf1|].
  split; [apply ran_set_dye; exact R1|].
  split; [reflexivity|]. split; [reflexivity|].
  split; [exact F1 | exact C1].
Qed.

Lemma stage_divergence (s : Sim) d v p dv :
  wf_fields s d v p dv ->
  exists s',
    computeDivergence s = Ok s' /\
    wf_fields s' d v p dv /\
    ran s s' [DrawArrays (Some (fbo dv)) (Divergence (tex (read v)) (texel s))] /\
    lastT s' = lastT s /\ queued_frames s' = queued_frames s /\
    (forall m, m <> tex dv -> textures (gl s') !! m = textures (gl s) !! m) /\
    (capable s -> forall i j, in_grid s i j ->
       texels (gl s') (tex dv) i j
       = mask R16F (frag_of (gl s) (Divergence (tex (read v)) (texel s))
                            (fragUv (width s, height s) i j))).
Proof.
  intros Hwf.
  destruct (pass_spec s d v p dv dv R16F NEAREST (Divergence (tex (read v)) (texel s))
              Hwf (wf_divergence_fbo _ _ _ _ _ Hwf)) as (Hwf1 & R1 & F1 & C1).
  eexists.
  split; [apply computeDivergence_eq;
          [apply (wf_velocity _ _ _ _ _ Hwf) | apply (wf_divergence _ _ _ _ _ Hwf)]|].
  split; [exact Hwf1|]. split; [exact R1|].
  split; [reflexivity|]. split; [reflexivity|].
  split; [exact F1 | exact C1].
Qed.

(** Presenting draws to the canvas and touches no texture. *)
Lemma stage_render (s : Sim) d v p dv :
  wf_fields s d v p dv ->
  exists s',
    render s = Ok s' /\
    wf_fields s' d v p dv /\
    ran s s' [DrawArrays None (Display (tex (read d)))] /\
    lastT s' = lastT s /\ queued_frames s' = queued_frames s /\
    textures (gl s') = textures (gl s).
Proof.
  intros Hwf. eexists.
  split; [apply render_eq; apply (wf_dye _ _ _ _ _ Hwf)|].
  assert (Hsh : same_shape (gl s)
                  (bindAndDraw (Display (tex (read d))) (bindFramebuffer None (gl s)))).
  { eapply same_shape_trans; [apply same_shape_bind | apply same_shape_drawArrays]. }
  split; [eapply wf_fields_ext; eauto|].
  split.
  { constructor; try reflexivity; [exact Hsh|].
    cbn [gl set_gl]. unfold bindAndDraw. rewrite log_drawArrays. reflexivity. }
  split; [reflexivity|]. split; [reflexivity|].
  cbn [gl set_gl]. unfold bindAndDraw, drawArrays, render_target.
  cbn [bound bindFramebuffer color_buffer_float].
  destruct (color_buffer_float (gl s)); reflexivity.
Qed.

(** ** The passes of a frame on a fluid at rest *)

Lemma at_rest_texels (s : Sim) v :
  velocity s = Some v -> at_rest s ->
  forall a b, (0 <= a < width s)%Z -> (0 <= b < height s)%Z ->
              xy (texels (gl s) (tex (read v)) a b) = mk2 0 0.
Proof.
  intros Hv Hrest a b Ha Hb. rewrite <- (velocity_at_eq s v) by assumption.
  apply Hrest. split; assumption.
Qed.

Lemma texels_at_rest (s : Sim) v :
  velocity s = Some v ->
  (forall a b, (0 <= a < width s)%Z -> (0 <= b < height s)%Z ->
               xy (texels (gl s) (tex (read v)) a b) = mk2 0 0) ->
  at_rest s.
Proof.
  intros Hv H i j [Hi Hj]. rewrite (velocity_at_eq s v) by assumption. auto.
Qed.

(** Advecting or damping a velocity at rest leaves it at rest, and the
    dye untouched. *)
Lemma stage_velocity_rest (s : Sim) d v p dv (P : pass) :
  wf_fields s d v p dv ->
  (exists dt, P = Advect (tex (read v)) (tex (read v)) (texel s) dt) \/
  (exists k, P = Dissipate (tex (read v)) k) ->
  exists s',
    swap_velocity (set_gl (draw_into (write v) P (gl s)) s) = Ok s' /\
    wf_fields s' d (swap v) p dv /\
    ran s s' [DrawArrays (Some (fbo (write v))) P] /\
    lastT s' = lastT s /\ queued_frames s' = queued_frames s /\
    (forall i j, dye_at s' i j = dye_at s i j) /\
    (capable s -> at_rest s -> at_rest s').
Proof.
  intros Hwf HP.
  destruct (stage_velocity s d v p dv P Hwf) as (s' & E & Hwf' & R & T & Q & F & C).
  exists s'. repeat (split; [assumption|]).
  pose proof Hwf as [].
  split.
  - intros i j.
    rewrite (dye_at_eq s' d), (dye_at_eq s d);
      [|assumption | apply (wf_dye _ _ _ _ _ Hwf')].
    rewrite (texels_other (gl s) (gl s')); [reflexivity|].
    apply F. clear - Hwf. distinct Hwf.
  - intros Hc Hrest.
    pose proof (at_rest_texels s v wf_velocity0 Hrest) as Hr.
    apply (texels_at_rest s' (swap v)); [apply (wf_velocity _ _ _ _ _ Hwf')|].
    rewrite (ran_width _ _ _ R), (ran_height _ _ _ R).
    intros a b Ha Hb. change (tex (read (swap v))) with (tex (write v)).
    rewrite C; [|assumption | split; assumption].
    destruct HP as [[dt ->] | [k ->]].
    + rewrite wf_texel0.
      erewrite advect_at_cell; try lia; try apply wf_velocity_read0.
      apply (Hr a b Ha Hb).
    + erewrite dissipate_at_cell; try lia; try apply wf_velocity_read0.
      destruct (xy_zero _ (Hr a b Ha Hb)) as [Hx Hy].
      unfold xy. simpl. rewrite Hx, Hy. f_equal; ring.
Qed.

(** The divergence the engine computes vanishes, whatever the velocity. *)
Lemma stage_divergence_rest (s : Sim) d v p dv :
  wf_fields s d v p dv ->
  exists s',
    computeDivergence s = Ok s' /\
    wf_fields s' d v p dv /\
    ran s s' [DrawArrays (Some (fbo dv)) (Divergence (tex (read v)) (texel s))] /\
    lastT s' = lastT s /\ queued_frames s' = queued_frames s /\
    (forall i j, dye_at s' i j = dye_at s i j) /\
    (forall i j, velocity_at s' i j = velocity_at s i j) /\
    (capable s -> forall i j, in_grid s i j -> divergence_at s' i j = 0).
Proof.
  intros Hwf.
  destruct (stage_divergence s d v p dv Hwf) as (s' & E & Hwf' & R & T & Q & F & C).
  exists s'. repeat (split; [assumption|]).
  pose proof Hwf as [].
  split; [|split].
  - intros i j.
    rewrite (dye_at_eq s' d), (dye_at_eq s d);
      [|assumption | apply (wf_dye _ _ _ _ _ Hwf')].
    rewrite (texels_other (gl s) (gl s')); [reflexivity|].
    apply F. clear - Hwf. distinct Hwf.
  - intros i j.
    rewrite (velocity_at_eq s' v), (velocity_at_eq s v);
      [|assumption | apply (wf_velocity _ _ _ _ _ Hwf')].
    rewrite (texels_other (gl s) (gl s')); [reflexivity|].
    apply F. clear - Hwf. distinct Hwf.
  - intros Hc i j Hij.
    rewrite (divergence_at_eq s' dv) by (apply (wf_divergence _ _ _ _ _ Hwf')).
    rewrite C by assumption. rewrite wf_texel0. destruct Hij.
    erewrite divergence_at_cell; try lia; try apply wf_velocity_read0.
    reflexivity.
Qed.

(** The pressure solved against a vanishing divergence vanishes. *)
Lemma solvePressure_rest (s : Sim) d v p dv :
  wf_fields s d v p dv ->
  exists s' p' cmds,
    solvePressure s = Ok s' /\
    wf_fields s' d v p' dv /\
    ran s s' (Clear (Some (fbo (write p))) :: cmds) /\
    length cmds = pressureIters /\
    Forall (is_pressure_draw (gl s) (tex dv) (texel s)) cmds /\
    lastT s' = lastT s /\ queued_frames s' = queued_frames s /\
    (forall i j, dye_at s' i j = dye_at s i j) /\
    (forall i j, velocity_at s' i j = velocity_at s i j) /\
    (capable s -> (forall i j, in_grid s i j -> divergence_at s i j = 0) ->
     forall i j, in_grid s i j -> pressure_at s' i j = 0).
Proof.
  intros Hwf.
  destruct (solvePressure_spec s d v p dv Hwf)
    as (s' & cmds & E & Hwf' & R & L & J & T & Q & F & C).
  exists s', (Nat.iter pressureIters swap (swap p)), cmds.
  repeat (split; [assumption|]).
  pose proof Hwf as [].
  split; [|split].
  - intros i j.
    rewrite (dye_at_eq s' d), (dye_at_eq s d);
      [|assumption | apply (wf_dye _ _ _ _ _ Hwf')].
    rewrite (texels_other (gl s) (gl s')); [reflexivity|].
    apply F; clear - Hwf; distinct Hwf.
  - intros i j.
    rewrite (velocity_at_eq s' v), (velocity_at_eq s v);
      [|assumption | apply (wf_velocity _ _ _ _ _ Hwf')].
    rewrite (texels_other (gl s) (gl s')); [reflexivity|].
    apply F; clear - Hwf; distinct Hwf.
  - intros Hc Hdiv i j [Hi Hj].
    rewrite (C Hc i j Hi Hj).
    apply (relax_iter_zero (width s) (height s)); try lia.
    intros a b Ha Hb. apply Hdiv. split; assumption.
Qed.

(** Subtracting the gradient of a vanishing pressure from a velocity at
    rest leaves it at rest. *)
Lemma subtractGradient_rest (s : Sim) d v p dv :
  wf_fields s d v p dv ->
  exists s',
    subtractGradient s = Ok s' /\
    wf_fields s' d (swap v) p dv /\
    ran s s' [DrawArrays (Some (fbo (write v)))
                (GradientSubtract (tex (read v)) (tex (read p)) (texel s))] /\
    lastT s' = lastT s /\ queued_frames s' = queued_frames s /\
    (forall i j, dye_at s' i j = dye_at s i j) /\
    (capable s -> at_rest s -> (forall i j, in_grid s i j -> pressure_at s i j = 0) ->
     at_rest s').
Proof.
  intros Hwf. pose proof Hwf as [].
  destruct (stage_velocity s d v p dv
              (GradientSubtract (tex (read v)) (tex (read p)) (texel s)) Hwf)
    as (s' & E & Hwf' & R & T & Q & F & C).
  exists s'.
  split; [rewrite (subtractGradient_eq s v p) by assumption;
          rewrite <- E; symmetry; apply swap_velocity_eq; assumption|].
  repeat (split; [assumption|]).
  split.
  - intros i j.
    rewrite (dye_at_eq s' d), (dye_at_eq s d);
      [|assumption | apply (wf_dye _ _ _ _ _ Hwf')].
    rewrite (texels_other (gl s) (gl s')); [reflexivity|].
    apply F. clear - Hwf. distinct Hwf.
  - intros Hc Hrest Hp.
    apply (texels_at_rest s' (swap v)); [apply (wf_velocity _ _ _ _ _ Hwf')|].
    rewrite (ran_width _ _ _ R), (ran_height _ _ _ R).
    intros a b Ha Hb. change (tex (read (swap v))) with (tex (write v)).
    rewrite C; [|assumption | split; assumption].
    rewrite wf_texel0.
    erewrite gradient_at_cell; try lia;
      try apply wf_velocity_read0; try apply wf_pressure_read0.
    apply (at_rest_texels s v wf_velocity0 Hrest a b Ha Hb).
Qed.

(** The dye is advected onto itself, whatever the velocity and the time
    step. *)
Lemma advect_dye_rest (s : Sim) d v p dv (dt : R) :
  wf_fields s d v p dv ->
  exists s',
    swap_dye (advect (write d) (read d) (read v) dt s) = Ok s' /\
    wf_fields s' (swap d) v p dv /\
    ran s s' [DrawArrays (Some (fbo (write d)))
                (Advect (tex (read d)) (tex (read v)) (texel s) dt)] /\
    lastT s' = lastT s /\ queued_frames s' = queued_frames s /\
    (forall i j, velocity_at s' i j = velocity_at s i j) /\
    (capable s -> forall i j, in_grid s i j -> dye_at s' i j = dye_at s i j).
Proof.
  intros Hwf. pose proof Hwf as [].
  destruct (stage_dye s d v p dv (Advect (tex (read d)) (tex (read v)) (texel s) dt) Hwf)
    as (s' & E & Hwf' & R & T & Q & F & C).
  exists s'. rewrite advect_eq.
  repeat (split; [assumption|]).
  split.
  - intros i j.
    rewrite (velocity_at_eq s' v), (velocity_at_eq s v);
      [|assumption | apply (wf_velocity _ _ _ _ _ Hwf')].
    rewrite (texels_other (gl s) (gl s')); [reflexivity|].
    apply F. clear - Hwf. distinct Hwf.
  - intros Hc i j Hij.
    rewrite (dye_at_eq s' (swap d)), (dye_at_eq s d);
      [|assumption | apply (wf_dye _ _ _ _ _ Hwf')].
    change (tex (read (swap d))) with (tex (write d)).
    rewrite C by assumption. rewrite wf_texel0. destruct Hij.
    erewrite advect_at_cell; try lia; try apply wf_dye_read0.
    reflexivity.
Qed.

(** Damping multiplies every cell of the dye by the factor. *)
Lemma dissipate_dye_spec (s : Sim) d v p dv (k : R) :
  wf_fields s d v p dv ->
  exists s',
    swap_dye (applyDissipation (write d) (read d) k s) = Ok s' /\
    wf_fields s' (swap d) v p dv /\
    ran s s' [DrawArrays (Some (fbo (write d))) (Dissipate (tex (read d)) k)] /\
    lastT s' = lastT s /\ queued_frames s' = queued_frames s /\
    (forall i j, velocity_at s' i j = velocity_at s i j) /\
    (capable s -> forall i j, in_grid s i j -> dye_at s' i j = scale4 k (dye_at s i j)).
Proof.
  intros Hwf. pose proof Hwf as [].
  destruct (stage_dye s d v p dv (Dissipate (tex (read d)) k) Hwf)
    as (s' & E & Hwf' & R & T & Q & F & C).
  exists s'. rewrite applyDissipation_eq.
  repeat (split; [assumption|]).
  split.
  - intros i j.
    rewrite (velocity_at_eq s' v), (velocity_at_eq s v);
      [|assumption | apply (wf_velocity _ _ _ _ _ Hwf')].
    rewrite (texels_other (gl s) (gl s')); [reflexivity|].
    apply F. clear - Hwf. distinct Hwf.
  - intros Hc i j Hij.
    rewrite (dye_at_eq s' (swap d)), (dye_at_eq s d);
      [|assumption | apply (wf_dye _ _ _ _ _ Hwf')].
    change (tex (read (swap d))) with (tex (write d)).
    rewrite C by assumption. destruct Hij.
    erewrite dissipate_at_cell; try lia; try apply wf_dye_read0. reflexivity.
Qed.

Lemma render_spec (s : Sim) d v p dv :
  wf_fields s d v p dv ->
  exists s',
    render s = Ok s' /\
    wf_fields s' d v p dv /\
    ran s s' [DrawArrays None (Display (tex (read d)))] /\
    lastT s' = lastT s /\ queued_frames s' = queued_frames s /\
    (forall i j, dye_at s' i j = dye_at s i j) /\
    (forall i j, velocity_at s' i j = velocity_at s i j).
Proof.
  intros Hwf. pose proof Hwf as [].
  destruct (stage_render s d v p dv Hwf) as (s' & E & Hwf' & R & T & Q & X).
  exists s'. repeat (split; [assumption|]).
  split; intros i j.
  - rewrite (dye_at_eq s' d), (dye_at_eq s d);
      [|assumption | apply (wf_dye _ _ _ _ _ Hwf')].
    unfold texels. rewrite X. reflexivity.
  - rewrite (velocity_at_eq s' v), (velocity_at_eq s v);
      [|assumption | apply (wf_velocity _ _ _ _ _ Hwf')].
    unfold texels. rewrite X. reflexivity.
Qed.

(** ** A whole frame *)

Lemma ran_set_queued (s s1 : Sim) c n : ran s s1 c -> ran s (set_queued n s1) c.
Proof. intros []. constructor; assumption. Qed.

Lemma in_grid_ran (s s' : Sim) cmds i j : ran s s' cmds -> in_grid s i j -> in_grid s' i j.
Proof.
  intros R. unfold in_grid. rewrite (ran_width _ _ _ R), (ran_height _ _ _ R). auto.
Qed.

Lemma in_grid_ran_inv (s s' : Sim) cmds i j :
  ran s s' cmds -> in_grid s' i j -> in_grid s i j.
Proof.
  intros R. unfold in_grid. rewrite (ran_width _ _ _ R), (ran_height _ _ _ R). auto.
Qed.

Lemma at_rest_ran (s s' : Sim) cmds :
  ran s s' cmds -> (forall i j, velocity_at s' i j = velocity_at s i j) ->
  at_rest s -> at_rest s'.
Proof.
  intros R Hv Hrest i j Hij. rewrite Hv. apply Hrest. eapply in_grid_ran_inv; eassumption.
Qed.

Lemma advect_dts_pressure (g : GL) (nd : nat) (tx : vec2) (cmds : list command) :
  Forall (is_pressure_draw g nd tx) cmds -> advect_dts cmds = [].
Proof.
  induction 1 as [|c cs (t & np & -> & _) _ IH]; [reflexivity|]. simpl. exact IH.
Qed.

Lemma pressure_draws_app (a b : list command) :
  pressure_draws (a ++ b) = (pressure_draws a + pressure_draws b)%nat.
Proof.
  induction a as [|c a IH]; [reflexivity|].
  destruct c as [| |t q]; simpl; auto. destruct q; simpl; auto.
Qed.

Lemma clears_app (a b : list command) : clears (a ++ b) = (clears a + clears b)%nat.
Proof.
  induction a as [|c a IH]; [reflexivity|]. destruct c; simpl; auto.
Qed.

Lemma pressure_draws_all (g : GL) (nd : nat) (tx : vec2) (cmds : list command) :
  Forall (is_pressure_draw g nd tx) cmds ->
  pressure_draws cmds = length cmds /\ clears cmds = 0%nat.
Proof.
  induction 1 as [|c cs (t & np & -> & _) _ [IH1 IH2]]; [split; reflexivity|].
  simpl. split; [f_equal; exact IH1 | exact IH2].
Qed.

(** The frame callback on a constructed engine: it returns, keeps the
    state well-formed, issues 23 commands of which two are advections
    with the clamped time step, records the time and queues itself again;
    on a fluid at rest it keeps the fluid at rest and damps the dye. *)
Lemma step_spec (s : Sim) d v p dv (now : R) :
  wf_fields s d v p dv ->
  exists s' d' v' p' cmds,
    step now s = Ok s' /\
    wf_fields s' d' v' p' dv /\
    ran s s' cmds /\
    lastT s' = now /\ queued_frames s' = S (queued_frames s) /\
    advect_dts cmds
    = [Rmin 0.032 ((now - lastT s) / 1000); Rmin 0.032 ((now - lastT s) / 1000)] /\
    length cmds = 23%nat /\
    pressure_draws cmds = 15%nat /\ clears cmds = 1%nat /\
    Forall (no_feedback (gl s)) cmds /\
    (capable s -> at_rest s ->
     at_rest s' /\
     forall i j, in_grid s i j -> dye_at s' i j = scale4 clearDye (dye_at s i j)).
Proof.
  intros Hwf. unfold step.
  set (dt := Rmin 0.032 ((now - lastT s) / 1000)).
  set (s0 := set_lastT now s).
  assert (Hwf0 : wf_fields s0 d v p dv)
    by (eapply wf_fields_ext; eauto; apply same_shape_refl).
  assert (R0 : ran s s0 [])
    by (constructor; try reflexivity; [apply same_shape_refl | symmetry; apply app_nil_r]).
  assert (T0 : lastT s0 = now) by reflexivity.
  assert (Q0 : queued_frames s0 = queued_frames s) by reflexivity.
  assert (D0 : forall i j, dye_at s0 i j = dye_at s i j) by reflexivity.
  assert (V0 : forall i j, velocity_at s0 i j = velocity_at s i j) by reflexivity.
  clearbody s0.
  (* advect velocity *)
  rewrite (wf_velocity _ _ _ _ _ Hwf0). cbn [mbind result_bind deref].
  rewrite advect_eq.
  destruct (stage_velocity_rest s0 d v p dv
              (Advect (tex (read v)) (tex (read v)) (texel s0) dt) Hwf0)
    as (s1 & E1 & Hwf1 & R1 & T1 & Q1 & D1 & V1); [left; eexists; reflexivity|].
  rewrite E1. cbn [mbind result_bind].
  (* dissipate velocity *)
  rewrite (wf_velocity _ _ _ _ _ Hwf1). cbn [mbind result_bind deref].
  rewrite applyDissipation_eq.
  destruct (stage_velocity_rest s1 d (swap v) p dv
              (Dissipate (tex (read (swap v))) clearVel) Hwf1)
    as (s2 & E2 & Hwf2 & R2 & T2 & Q2 & D2 & V2); [right; eexists; reflexivity|].
  rewrite E2. cbn [mbind result_bind].
  (* divergence *)
  destruct (stage_divergence_rest s2 d (swap (swap v)) p dv Hwf2)
    as (s3 & E3 & Hwf3 & R3 & T3 & Q3 & D3 & V3 & Z3).
  rewrite E3. cbn [mbind result_bind].
  (* pressure *)
  destruct (solvePressure_rest s3 d (swap (swap v)) p dv Hwf3)
    as (s4 & p' & jac & E4 & Hwf4 & R4 & L4 & J4 & T4 & Q4 & D4 & V4 & Z4).
  rewrite E4. cbn [mbind result_bind].
  (* gradient subtraction *)
  destruct (subtractGradient_rest s4 d (swap (swap v)) p' dv Hwf4)
    as (s5 & E5 & Hwf5 & R5 & T5 & Q5 & D5 & V5).
  rewrite E5. cbn [mbind result_bind].
  set (v' := swap (swap (swap v))) in *.
  (* advect dye *)
  rewrite (wf_dye _ _ _ _ _ Hwf5), (wf_velocity _ _ _ _ _ Hwf5).
  cbn [mbind result_bind deref].
  destruct (advect_dye_rest s5 d v' p' dv dt Hwf5)
    as (s6 & E6 & Hwf6 & R6 & T6 & Q6 & V6 & D6).
  rewrite E6. cbn [mbind result_bind].
  (* dissipate dye *)
  rewrite (wf_dye _ _ _ _ _ Hwf6). cbn [mbind result_bind deref].
  destruct (dissipate_dye_spec s6 (swap d) v' p' dv clearDye Hwf6)
    as (s7 & E7 & Hwf7 & R7 & T7 & Q7 & V7 & D7).
  rewrite E7. cbn [mbind result_bind].
  (* present *)
  destruct (render_spec s7 (swap (swap d)) v' p' dv Hwf7)
    as (s8 & E8 & Hwf8 & R8 & T8 & Q8 & D8 & V8).
  rewrite E8. cbn [mbind result_bind].
  (* the result *)
  pose proof (ran_trans _ _ _ _ _ R0 R1) as A1.
  pose proof (ran_trans _ _ _ _ _ A1 R2) as A2.
  pose proof (ran_trans _ _ _ _ _ A2 R3) as A3.
  pose proof (ran_trans _ _ _ _ _ A3 R4) as A4.
  pose proof (ran_trans _ _ _ _ _ A4 R5) as A5.
  pose proof (ran_trans _ _ _ _ _ A5 R6) as A6.
  pose proof (ran_trans _ _ _ _ _ A6 R7) as A7.
  pose proof (ran_trans _ _ _ _ _ A7 R8) as A8.
  eexists (requestAnimationFrame s8), (swap (swap d)), v', p', _.
  split; [reflexivity|].
  split; [apply (wf_fields_ext s8); [exact Hwf8 | reflexivity .. | apply same_shape_refl]|].
  split; [apply ran_set_queued; exact A8|].
  split; [cbn [requestAnimationFrame set_queued lastT];
          rewrite T8, T7, T6, T5, T4, T3, T2, T1; exact T0|].
  split; [cbn [requestAnimationFrame set_queued queued_frames];
          rewrite Q8, Q7, Q6, Q5, Q4, Q3, Q2, Q1, Q0; reflexivity|].
  split.
  { rewrite !advect_dts_app. cbn [advect_dts app].
    rewrite (advect_dts_pressure _ _ _ _ J4). reflexivity. }
  split.
  { rewrite !length_app. cbn [length]. rewrite L4. reflexivity. }
  destruct (pressure_draws_all _ _ _ _ J4) as [PJ CJ].
  split.
  { rewrite !pressure_draws_app. cbn [pressure_draws]. rewrite PJ, L4. reflexivity. }
  split.
  { rewrite !clears_app. cbn [clears]. rewrite CJ. reflexivity. }
  split.
  { rewrite !Forall_app, !Forall_cons, !Forall_nil.
    repeat split.
    - apply (no_feedback_ran _ _ _ _ R0).
      eapply no_feedback_draw; [apply (wf_velocity_write _ _ _ _ _ Hwf0)|].
      clear - Hwf0. separate Hwf0.
    - apply (no_feedback_ran _ _ _ _ A1).
      eapply no_feedback_draw; [apply (wf_velocity_write _ _ _ _ _ Hwf1)|].
      clear - Hwf1. separate Hwf1.
    - apply (no_feedback_ran _ _ _ _ A2).
      eapply no_feedback_draw; [apply (wf_divergence_fbo _ _ _ _ _ Hwf2)|].
      clear - Hwf2. separate Hwf2.
    - eapply Forall_impl; [exact J4|].
      intros c (t & np & _ & H). exact (no_feedback_ran _ _ _ _ A3 H).
    - apply (no_feedback_ran _ _ _ _ A4).
      eapply no_feedback_draw; [apply (wf_velocity_write _ _ _ _ _ Hwf4)|].
      clear - Hwf4. separate Hwf4.
    - apply (no_feedback_ran _ _ _ _ A5).
      eapply no_feedback_draw; [apply (wf_dye_write _ _ _ _ _ Hwf5)|].
      clear - Hwf5. separate Hwf5.
    - apply (no_feedback_ran _ _ _ _ A6).
      eapply no_feedback_draw; [apply (wf_dye_write _ _ _ _ _ Hwf6)|].
      clear - Hwf6. separate Hwf6. }
  intros Hc Hrest.
  pose proof (capable_ran _ _ _ R0 Hc) as K0.
  pose proof (capable_ran _ _ _ A1 Hc) as K1.
  pose proof (capable_ran _ _ _ A2 Hc) as K2.
  pose proof (capable_ran _ _ _ A3 Hc) as K3.
  pose proof (capable_ran _ _ _ A4 Hc) as K4.
  pose proof (capable_ran _ _ _ A5 Hc) as K5.
  pose proof (capable_ran _ _ _ A6 Hc) as K6.
  pose proof (at_rest_ran _ _ _ R0 V0 Hrest) as Hr0.
  pose proof (V1 K0 Hr0) as Hr1.
  pose proof (V2 K1 Hr1) as Hr2.
  pose proof (at_rest_ran _ _ _ R3 V3 Hr2) as Hr3.
  assert (Hz3 : forall i j, in_grid s3 i j -> divergence_at s3 i j = 0).
  { intros i j Hij. apply Z3; auto. eapply in_grid_ran_inv; [exact R3 | exact Hij]. }
  pose proof (at_rest_ran _ _ _ R4 V4 Hr3) as Hr4.
  assert (Hz4 : forall i j, in_grid s4 i j -> pressure_at s4 i j = 0).
  { intros i j Hij. apply Z4; auto. eapply in_grid_ran_inv; [exact R4 | exact Hij]. }
  pose proof (V5 K4 Hr4 Hz4) as Hr5.
  pose proof (at_rest_ran _ _ _ R6 V6 Hr5) as Hr6.
  pose proof (at_rest_ran _ _ _ R7 V7 Hr6) as Hr7.
  split.
  - change (at_rest s8). exact (at_rest_ran _ _ _ R8 V8 Hr7).
  - intros i j Hij. change (dye_at s8 i j = scale4 clearDye (dye_at s i j)).
    rewrite D8.
    rewrite (D7 K6 i j (in_grid_ran _ _ _ _ _ A6 Hij)).
    rewrite (D6 K5 i j (in_grid_ran _ _ _ _ _ A5 Hij)).
    rewrite D5, D4, D3, D2, D1, D0. reflexivity.
Qed.

(** ** Splats *)

Lemma splat_spec (s : Sim) d v p dv (x y : R) (c : vec3) (radius : option R)
    (force : option vec2) :
  wf_fields s d v p dv ->
  exists s',
    splat x y c radius force s = Ok s' /\
    wf_fields s' (swap d) (swap v) p dv /\
    ran s s' [DrawArrays (Some (fbo (write d)))
                (Splat (tex (read d)) (mk2 x y) c (splat_radius radius));
              DrawArrays (Some (fbo (write v)))
                (SplatVel (tex (read v)) (mk2 x y) (splat_force force)
                          (splat_radius radius))] /\
    lastT s' = lastT s /\ queued_frames s' = queued_frames s /\
    (capable s -> forall i j, in_grid s i j ->
       dye_at s' i j
       = add4 (dye_at s i j) (splat_dye (width s) (height s) x y c radius i j)) /\
    (capable s -> forall i j, in_grid s i j ->
       velocity_at s' i j
       = add2 (velocity_at s i j)
              (scale2 (falloff (fragUv (width s, height s) i j) (mk2 x y)
                               (splat_radius radius))
                      (splat_force force))) /\
    (forall m, m <> tex (write d) -> m <> tex (write v) ->
               textures (gl s') !! m = textures (gl s) !! m) /\
    no_feedback (gl s)
      (DrawArrays (Some (fbo (write d)))
         (Splat (tex (read d)) (mk2 x y) c (splat_radius radius))) /\
    no_feedback (gl s)
      (DrawArrays (Some (fbo (write v)))
         (SplatVel (tex (read v)) (mk2 x y) (splat_force force) (splat_radius radius))).
Proof.
  intros Hwf. pose proof Hwf as [].
  unfold splat. fold (splat_radius radius).
  rewrite wf_dye0. cbn [mbind result_bind deref].
  destruct (stage_dye s d v p dv (Splat (tex (read d)) (mk2 x y) c (splat_radius radius))
              Hwf) as (s1 & E1 & Hwf1 & R1 & T1 & Q1 & F1 & C1).
  unfold bindAndDraw.
  change (drawArrays ?P (bindFramebuffer (Some (fbo ?o)) ?g)) with (draw_into o P g).
  rewrite E1. cbn [mbind result_bind].
  rewrite (wf_velocity _ _ _ _ _ Hwf1). cbn [mbind result_bind deref].
  change (drawArrays ?P (bindFramebuffer (Some (fbo ?o)) ?g)) with (draw_into o P g).
  change (mk2 (match force with Some f => num_or (x2 f) 0 | None => 0 end)
              (match force with Some f => num_or (y2 f) 0 | None => 0 end))
    with (splat_force force).
  destruct (stage_velocity s1 (swap d) v p dv
              (SplatVel (tex (read v)) (mk2 x y) (splat_force force) (splat_radius radius))
              Hwf1) as (s2 & E2 & Hwf2 & R2 & T2 & Q2 & F2 & C2).
  exists s2.
  split; [exact E2|]. split; [exact Hwf2|].
  split; [exact (ran_trans _ _ _ _ _ R1 R2)|].
  split; [congruence|]. split; [congruence|].
  pose proof Hwf1 as [].
  split; [|split; [|split; [|split]]].
  - intros Hc i j Hij.
    rewrite (dye_at_eq s2 (swap d)), (dye_at_eq s d);
      [|assumption | apply (wf_dye _ _ _ _ _ Hwf2)].
    rewrite (texels_other (gl s1) (gl s2))
      by (apply F2; clear - Hwf; distinct Hwf).
    change (tex (read (swap d))) with (tex (write d)).
    rewrite C1 by assumption. destruct Hij.
    erewrite splat_at_cell; try lia; try apply wf_dye_read0. reflexivity.
  - intros Hc i j Hij.
    rewrite (velocity_at_eq s2 (swap v)), (velocity_at_eq s v);
      [|assumption | apply (wf_velocity _ _ _ _ _ Hwf2)].
    change (tex (read (swap v))) with (tex (write v)).
    rewrite C2; [|exact (capable_ran _ _ _ R1 Hc) | exact (in_grid_ran _ _ _ _ _ R1 Hij)].
    rewrite (ran_width _ _ _ R1), (ran_height _ _ _ R1). destruct Hij.
    erewrite splatVel_at_cell; try lia; try apply wf_velocity_read1.
    2: { rewrite (ran_width _ _ _ R1), (ran_height _ _ _ R1) in wf_velocity_read1.
         apply wf_velocity_read1. }
    rewrite (texels_other (gl s) (gl s1))
      by (apply F1; clear - Hwf; distinct Hwf).
    unfold xy, add2, scale2. simpl. reflexivity.
  - intros m Hd Hv. rewrite F2 by exact Hv. apply F1. exact Hd.
  - eapply no_feedback_draw; [apply wf_dye_write0|]. clear - Hwf. separate Hwf.
  - eapply no_feedback_draw; [apply wf_velocity_write0|]. clear - Hwf. separate Hwf.
Qed.

Lemma splatRandomLoop_spec (count : nat) (minR maxR maxF : R) (opts : RandomOpts)
    (rnd : nat -> R) (k : nat) (s : Sim) :
  wf s ->
  exists s' cmds,
    splatRandomLoop count minR maxR maxF opts rnd k s = Ok s' /\
    wf s' /\ ran s s' cmds /\ length cmds = (2 * count)%nat /\
    lastT s' = lastT s /\ queued_frames s' = queued_frames s.
Proof.
  revert k s. induction count as [|n IH]; intros k s Hwf.
  - exists s, []. split; [reflexivity|]. split; [exact Hwf|].
    split; [apply ran_refl|]. repeat split.
  - cbn [splatRandomLoop].
    destruct (color opts) as [c|].
    + destruct Hwf as (d & v & p & dv & Hwf).
      edestruct (splat_spec s d v p dv) as (s1 & E1 & Hwf1 & R1 & T1 & Q1 & _); [exact Hwf|].
      rewrite E1. cbn [mbind result_bind].
      destruct (IH (k + 5)%nat s1) as (s' & cmds & E & Hwf' & R & L & T & Q);
        [do 4 eexists; exact Hwf1|].
      exists s'. eexists. split; [exact E|]. split; [exact Hwf'|].
      split; [exact (ran_trans _ _ _ _ _ R1 R)|].
      split; [rewrite length_app, L; simpl; lia|]. split; congruence.
    + destruct Hwf as (d & v & p & dv & Hwf).
      edestruct (splat_spec s d v p dv) as (s1 & E1 & Hwf1 & R1 & T1 & Q1 & _); [exact Hwf|].
      rewrite E1. cbn [mbind result_bind].
      destruct (IH (k + 8)%nat s1) as (s' & cmds & E & Hwf' & R & L & T & Q);
        [do 4 eexists; exact Hwf1|].
      exists s'. eexists. split; [exact E|]. split; [exact Hwf'|].
      split; [exact (ran_trans _ _ _ _ _ R1 R)|].
      split; [rewrite length_app, L; simpl; lia|]. split; congruence.
Qed.

Lemma splatRandom_spec (count : nat) (opts : RandomOpts) (rnd : nat -> R) (s : Sim) :
  wf s ->
  exists s' cmds,
    splatRandom count opts rnd s = Ok s' /\
    wf s' /\ ran s s' cmds /\ length cmds = (2 * count)%nat /\
    lastT s' = lastT s /\ queued_frames s' = queued_frames s.
Proof. intros Hwf. unfold splatRandom. apply splatRandomLoop_spec. exact Hwf. Qed.

(** ** Resizing and tearing down *)

Lemma resize_wf (s : Sim) : wf s -> wf (resize s).
Proof.
  intros Hwf. unfold resize.
  destruct (Z.eq_dec (requested_width s) (width s)) as [Ew|Nw].
  - destruct (Z.eq_dec (requested_height s) (height s)) as [Eh|Nh].
    + rewrite setSize_same by assumption. exact Hwf.
    + destruct (setSize_alloc s) as (s' & d & v & p & dv & E & Hwf' & _); [right; exact Nh|].
      rewrite E. do 4 eexists. apply Hwf'.
      destruct Hwf as (? & ? & ? & ? & []). assumption.
  - destruct (setSize_alloc s) as (s' & d & v & p & dv & E & Hwf' & _); [left; exact Nw|].
    rewrite E. do 4 eexists. apply Hwf'.
    destruct Hwf as (? & ? & ? & ? & []). assumption.
Qed.

Lemma resize_frame (s : Sim) :
  lastT (resize s) = lastT s /\ queued_frames (resize s) = queued_frames s /\
  hidden (resize s) = hidden s /\ parentNode (canvas (resize s)) = parentNode (canvas s).
Proof.
  unfold resize.
  destruct (Z.eq_dec (requested_width s) (width s)) as [Ew|Nw];
    [destruct (Z.eq_dec (requested_height s) (height s)) as [Eh|Nh]|].
  - rewrite setSize_same by assumption. auto.
  - destruct (setSize_alloc s)
      as (s' & d & v & p & dv & E & _ & _ & _ & _ & _ & P & _ & _ & _ & T & H & Q & _);
      [right; exact Nh|].
    rewrite E. auto.
  - destruct (setSize_alloc s)
      as (s' & d & v & p & dv & E & _ & _ & _ & _ & _ & P & _ & _ & _ & T & H & Q & _);
      [left; exact Nw|].
    rewrite E. auto.
Qed.

Lemma resize_size (s : Sim) :
  width (resize s) = requested_width s /\ height (resize s) = requested_height s.
Proof.
  unfold resize.
  destruct (Z.eq_dec (requested_width s) (width s)) as [Ew|Nw];
    [destruct (Z.eq_dec (requested_height s) (height s)) as [Eh|Nh]|].
  - rewrite setSize_same by assumption. cbn [snd]. split; congruence.
  - destruct (setSize_alloc s) as (s' & ? & ? & ? & ? & E & _ & W & H & _);
      [right; exact Nh|].
    rewrite E. cbn [snd]. split; assumption.
  - destruct (setSize_alloc s) as (s' & ? & ? & ? & ? & E & _ & W & H & _);
      [left; exact Nw|].
    rewrite E. cbn [snd]. split; assumption.
Qed.

Lemma wf_set_canvas (c : Canvas) (s : Sim) : wf s -> wf (set_canvas c s).
Proof.
  intros (d & v & p & dv & H). exists d, v, p, dv.
  eapply wf_fields_ext; eauto. apply same_shape_refl.
Qed.

Lemma destroy_wf (s : Sim) : wf s -> wf (destroy s).
Proof.
  intros Hwf. unfold destroy. destruct (parentNode (canvas s)); [|exact Hwf].
  apply wf_set_canvas. exact Hwf.
Qed.

Lemma wf_set_queued (n : nat) (s : Sim) : wf s -> wf (set_queued n s).
Proof.
  intros (d & v & p & dv & H). exists d, v, p, dv.
  eapply wf_fields_ext; eauto. apply same_shape_refl.
Qed.

Lemma wf_set_hidden (b : bool) (s : Sim) : wf s -> wf (set_hidden b s).
Proof.
  intros (d & v & p & dv & H). exists d, v, p, dv.
  eapply wf_fields_ext; eauto. apply same_shape_refl.
Qed.

(** ** No call on a constructed engine throws *)

Lemma dispatch_wf (e : event) (s : Sim) :
  wf s -> exists s', dispatch e s = Ok s' /\ wf s'.
Proof.
  intros Hwf. destruct e; cbn [dispatch].
  - destruct (queued_frames s) as [|n]; [exists s; auto|].
    pose proof (wf_set_queued n s Hwf) as (d & v & p & dv & H).
    destruct (step_spec _ d v p dv now H) as (s' & d' & v' & p' & cmds & E & H' & _).
    exists s'. split; [exact E|]. do 4 eexists. exact H'.
  - destruct Hwf as (d & v & p & dv & H).
    destruct (splat_spec s d v p dv x y c radius force H) as (s' & E & H' & _).
    exists s'. split; [exact E|]. do 4 eexists. exact H'.
  - destruct (splatRandom_spec count opts rnd s Hwf) as (s' & cmds & E & H' & _).
    exists s'. auto.
  - eexists. split; [reflexivity|]. apply resize_wf. exact Hwf.
  - eexists. split; [reflexivity|]. apply destroy_wf. exact Hwf.
  - eexists. split; [reflexivity|]. apply wf_set_canvas. exact Hwf.
  - eexists. split; [reflexivity|]. apply wf_set_hidden. exact Hwf.
Qed.

Lemma run_wf (es : list event) (s : Sim) :
  wf s -> exists s', run es s = Ok s' /\ wf s'.
Proof.
  revert s. induction es as [|e es IH]; intros s Hwf; cbn [run].
  - exists s. auto.
  - destruct (dispatch_wf e s Hwf) as (s1 & E1 & Hwf1).
    rewrite E1. cbn [mbind result_bind]. apply IH. exact Hwf1.
Qed.

(** ** The example page *)

Lemma demo_init :
  initFluid demo_env None 4 3 0 false
  = ([AppendChild; GetContext; GetExtension "EXT_color_buffer_float";
      GetExtension "OES_texture_float_linear"], Ok demo).
Proof. reflexivity. Qed.

Lemma demo_dpr : dpr demo_closure = 1.
Proof.
  cbn [dpr demo_closure]. unfold num_or, opt_or.
  destruct (Req_dec_T 1 0); apply Rmin_left; lra.
Qed.

Lemma demo_requested : requested_width demo_closure = 4%Z /\ requested_height demo_closure = 3%Z.
Proof.
  unfold requested_width, requested_height. rewrite demo_dpr.
  cbn [canvas demo_closure clientWidth clientHeight new_canvas parentNode
       layoutWidth layoutHeight fl].
  rewrite !Rmult_1_r, !Zfloor_IZR. split; reflexivity.
Qed.

Lemma demo_spec :
  exists d v p dv,
    wf_fields demo d v p dv /\ capable demo /\ at_rest demo /\
    width demo = 4%Z /\ height demo = 3%Z /\
    lastT demo = 0 /\ queued_frames demo = 1%nat /\ hidden demo = false /\
    parentNode (canvas demo) = true /\ dpr demo = 1 /\
    layoutWidth (canvas demo) = 4%Z /\ layoutHeight (canvas demo) = 3%Z /\
    (forall i j, dye_at demo i j = mk4 0 0 0 0) /\
    (forall i j, pressure_at demo i j = 0) /\
    (forall i j, divergence_at demo i j = 0).
Proof.
  destruct demo_requested as [Ew Eh].
  destruct (setSize_alloc demo_closure) as
    (s' & d & v & p & dv & E & Hwf & W & H & _ & _ & P & LW & LH & D & T & Hd & Q & C
       & Zd & Zv & Zp & Zdv & _).
  { left. rewrite Ew. cbn [width demo_closure]. lia. }
  unfold demo. rewrite E. cbn [snd].
  exists d, v, p, dv.
  split; [eapply wf_fields_ext; eauto; apply same_shape_refl|].
  split; [exact C|].
  split; [intros i j _; apply Zv|].
  split; [cbn [requestAnimationFrame set_queued width]; congruence|].
  split; [cbn [requestAnimationFrame set_queued height]; congruence|].
  split; [exact T|].
  split; [cbn [requestAnimationFrame set_queued queued_frames]; rewrite Q; reflexivity|].
  split; [exact Hd|]. split; [exact P|].
  split; [cbn [requestAnimationFrame set_queued dpr]; rewrite D; exact demo_dpr|].
  split; [exact LW|]. split; [exact LH|].
  split; [exact Zd|]. split; [exact Zp | exact Zdv].
Qed.

Lemma demo_wf : wf demo.
Proof. destruct demo_spec as (d & v & p & dv & H & _). exists d, v, p, dv. exact H. Qed.

Lemma demo_capable : capable demo.
Proof. destruct demo_spec as (d & v & p & dv & _ & H & _). exact H. Qed.

Lemma demo_at_rest : at_rest demo.
Proof. destruct demo_spec as (d & v & p & dv & _ & _ & H & _). exact H. Qed.

Lemma demo_fl : fl demo = fun x => x.
Proof.
  unfold demo. cbn [requestAnimationFrame set_queued fl].
  rewrite (proj1 (setSize_keeps demo_closure)). reflexivity.
Qed.

(** ** Calls between frames *)

Lemma dispatch_call (e : event) (s : Sim) :
  wf s -> is_call e ->
  exists s', dispatch e s = Ok s' /\ wf s' /\
             lastT s' = lastT s /\ queued_frames s' = queued_frames s.
Proof.
  intros Hwf Hcall. destruct e; cbn [dispatch]; [destruct Hcall | ..].
  - destruct Hwf as (d & v & p & dv & H).
    destruct (splat_spec s d v p dv x y c radius force H) as (s' & E & H' & _ & T & Q & _).
    exists s'. split; [exact E|]. split; [do 4 eexists; exact H'|]. auto.
  - destruct (splatRandom_spec count opts rnd s Hwf) as (s' & cmds & E & H' & _ & _ & T & Q).
    exists s'. auto.
  - eexists. split; [reflexivity|]. split; [apply resize_wf; exact Hwf|].
    destruct (resize_frame s) as (T & Q & _). auto.
  - eexists. split; [reflexivity|]. split; [apply destroy_wf; exact Hwf|].
    unfold destroy. destruct (parentNode (canvas s)); auto.
  - eexists. split; [reflexivity|]. split; [apply wf_set_canvas; exact Hwf|]. auto.
  - eexists. split; [reflexivity|]. split; [apply wf_set_hidden; exact Hwf|]. auto.
Qed.

Lemma run_calls (es : list event) (s : Sim) :
  wf s -> Forall is_call es ->
  exists s', run es s = Ok s' /\ wf s' /\
             lastT s' = lastT s /\ queued_frames s' = queued_frames s.
Proof.
  intros Hwf Hcalls. revert s Hwf.
  induction Hcalls as [|e es He _ IH]; intros s Hwf; cbn [run].
  - exists s. auto.
  - destruct (dispatch_call e s Hwf He) as (s1 & E1 & Hwf1 & T1 & Q1).
    rewrite E1. cbn [mbind result_bind].
    destruct (IH s1 Hwf1) as (s' & E & Hwf' & T & Q).
    exists s'. split; [exact E|]. split; [exact Hwf'|]. split; congruence.
Qed.

Lemma add2_zero_force (v : vec2) (a : R) : add2 v (scale2 a (mk2 0 0)) = v.
Proof. destruct v. unfold add2, scale2. simpl. f_equal; ring. Qed.

(** ** Sums over the grid *)

Lemma sum_upto_ext (n : nat) (f g : Z -> R) :
  (forall k, (k < n)%nat -> f (Z.of_nat k) = g (Z.of_nat k)) ->
  sum_upto n f = sum_upto n g.
Proof.
  induction n as [|n IH]; intros H; simpl; [reflexivity|].
  rewrite IH by (intros k Hk; apply H; lia). rewrite H by lia. reflexivity.
Qed.

Lemma sum_upto_plus (n : nat) (f g : Z -> R) :
  sum_upto n (fun i => f i + g i) = sum_upto n f + sum_upto n g.
Proof. induction n as [|n IH]; simpl; [ring|]. rewrite IH. ring. Qed.

Lemma sum_upto_scale (n : nat) (k : R) (f : Z -> R) :
  sum_upto n (fun i => k * f i) = k * sum_upto n f.
Proof. induction n as [|n IH]; simpl; [ring|]. rewrite IH. ring. Qed.

Lemma grid_sum_ext (w h : Z) (f g : Z -> Z -> R) :
  agree w h f g -> grid_sum w h f = grid_sum w h g.
Proof.
  intros H. unfold grid_sum.
  apply sum_upto_ext. intros a Ha. apply sum_upto_ext. intros b Hb.
  apply H; lia.
Qed.

Lemma grid_sum_plus (w h : Z) (f g : Z -> Z -> R) :
  grid_sum w h (fun i j => f i j + g i j) = grid_sum w h f + grid_sum w h g.
Proof.
  unfold grid_sum. rewrite <- sum_upto_plus.
  apply sum_upto_ext. intros a _. apply sum_upto_plus.
Qed.

Lemma grid_sum_scale (w h : Z) (k : R) (f : Z -> Z -> R) :
  grid_sum w h (fun i j => k * f i j) = k * grid_sum w h f.
Proof.
  unfold grid_sum. rewrite <- sum_upto_scale.
  apply sum_upto_ext. intros a _. apply sum_upto_scale.
Qed.

Lemma grid_sum4_ext (w h : Z) (f g : Z -> Z -> vec4) :
  (forall i j, (0 <= i < w)%Z -> (0 <= j < h)%Z -> f i j = g i j) ->
  grid_sum4 w h f = grid_sum4 w h g.
Proof.
  intros H. unfold grid_sum4.
  f_equal; apply grid_sum_ext; intros i j Hi Hj; rewrite H; auto.
Qed.

Lemma grid_sum4_add (w h : Z) (f g : Z -> Z -> vec4) :
  grid_sum4 w h (fun i j => add4 (f i j) (g i j))
  = add4 (grid_sum4 w h f) (grid_sum4 w h g).
Proof. unfold grid_sum4, add4. simpl. f_equal; apply grid_sum_plus. Qed.

Lemma grid_sum4_scale (w h : Z) (k : R) (f : Z -> Z -> vec4) :
  grid_sum4 w h (fun i j => scale4 k (f i j)) = scale4 k (grid_sum4 w h f).
Proof. unfold grid_sum4, scale4. simpl. f_equal; apply grid_sum_scale. Qed.

Lemma add4_assoc (a b c : vec4) : add4 (add4 a b) c = add4 a (add4 b c).
Proof. apply vec4_eq; simpl; ring. Qed.

Lemma add4_zero_r (a : vec4) : add4 a (mk4 0 0 0 0) = a.
Proof. apply vec4_eq; simpl; ring. Qed.

(** ** The dye budget of a frame *)

Lemma run_app (a b : list event) (s : Sim) :
  run (a ++ b) s = (s1 ← run a s; run b s1).
Proof.
  revert s. induction a as [|e a IH]; intros s; cbn [run app]; [reflexivity|].
  destruct (dispatch e s) as [s1|msg]; cbn [mbind result_bind]; [apply IH | reflexivity].
Qed.

Lemma frame_callback_budget (now : R) (s : Sim) :
  steady s ->
  exists s',
    dispatch (AnimationFrame now) s = Ok s' /\ steady s' /\
    width s' = width s /\ height s' = height s /\
    dye_mass s' = scale4 clearDye (dye_mass s).
Proof.
  intros (Hwf & Hc & Hrest & Hq). cbn [dispatch].
  destruct (queued_frames s) as [|n] eqn:Eq; [congruence|].
  pose proof (wf_set_queued n s Hwf) as (d & v & p & dv & H).
  destruct (step_spec _ d v p dv now H)
    as (s' & d' & v' & p' & cmds & E & H' & R & _ & Q & _ & _ & _ & _ & _ & C).
  destruct (C Hc Hrest) as [Hrest' Hdye].
  exists s'. split; [exact E|].
  split.
  { split; [do 4 eexists; exact H'|].
    split; [exact (capable_ran _ _ _ R Hc)|].
    split; [exact Hrest'|]. rewrite Q. discriminate. }
  split; [apply (ran_width _ _ _ R)|]. split; [apply (ran_height _ _ _ R)|].
  unfold dye_mass. rewrite (ran_width _ _ _ R), (ran_height _ _ _ R).
  cbn [width height set_queued]. rewrite <- grid_sum4_scale.
  apply grid_sum4_ext. intros i j Hi Hj. apply Hdye. split; assumption.
Qed.

Lemma forceless_splat_budget (c : splat_call) (s : Sim) :
  steady s -> forceless c ->
  exists s',
    dispatch (call_of c) s = Ok s' /\ steady s' /\
    width s' = width s /\ height s' = height s /\
    dye_mass s'
    = add4 (dye_mass s)
           (grid_sum4 (width s) (height s)
              (splat_dye (width s) (height s) (at_x c) (at_y c) (tint c) (size c))).
Proof.
  intros (Hwf & Hc & Hrest & Hq) Hf. destruct Hwf as (d & v & p & dv & Hwf).
  cbn [dispatch call_of].
  destruct (splat_spec s d v p dv (at_x c) (at_y c) (tint c) (size c) (push c) Hwf)
    as (s' & E & Hwf' & R & T & Q & D & V & F & _).
  exists s'. split; [exact E|].
  split.
  { split; [do 4 eexists; exact Hwf'|].
    split; [exact (capable_ran _ _ _ R Hc)|].
    split; [|congruence].
    intros i j Hij. pose proof (in_grid_ran_inv _ _ _ _ _ R Hij) as Hij'.
    rewrite (V Hc i j Hij'), Hf, add2_zero_force. apply Hrest. exact Hij'. }
  split; [apply (ran_width _ _ _ R)|]. split; [apply (ran_height _ _ _ R)|].
  unfold dye_mass. rewrite (ran_width _ _ _ R), (ran_height _ _ _ R).
  rewrite <- grid_sum4_add.
  apply grid_sum4_ext. intros i j Hi Hj. apply (D Hc). split; assumption.
Qed.

Lemma forceless_splats_budget (cs : list splat_call) (s : Sim) :
  steady s -> Forall forceless cs ->
  exists s',
    run (map call_of cs) s = Ok s' /\ steady s' /\
    width s' = width s /\ height s' = height s /\
    dye_mass s' = add4 (dye_mass s) (injected (width s) (height s) cs).
Proof.
  intros Hs Hcs. revert s Hs.
  induction Hcs as [|c cs Hc _ IH]; intros s Hs; cbn [map run injected].
  - exists s. rewrite add4_zero_r. auto.
  - destruct (forceless_splat_budget c s Hs Hc) as (s1 & E1 & Hs1 & W1 & H1 & M1).
    rewrite E1. cbn [mbind result_bind].
    destruct (IH s1 Hs1) as (s' & E & Hs' & W & H & M).
    exists s'. split; [exact E|]. split; [exact Hs'|].
    split; [congruence|]. split; [congruence|].
    rewrite M, M1, W1, H1. apply add4_assoc.
Qed.

Lemma frame_budget (f : R * list splat_call) (s : Sim) :
  steady s -> Forall forceless (snd f) ->
  exists s',
    run (frame_events f) s = Ok s' /\ steady s' /\
    width s' = width s /\ height s' = height s /\
    dye_mass s'
    = add4 (scale4 clearDye (dye_mass s)) (injected (width s) (height s) (snd f)).
Proof.
  intros Hs Hf. unfold frame_events. cbn [run].
  destruct (frame_callback_budget (fst f) s Hs) as (s1 & E1 & Hs1 & W1 & H1 & M1).
  rewrite E1. cbn [mbind result_bind].
  destruct (forceless_splats_budget (snd f) s1 Hs1 Hf) as (s' & E & Hs' & W & H & M).
  exists s'. split; [exact E|]. split; [exact Hs'|].
  split; [congruence|]. split; [congruence|].
  rewrite M, M1, W1, H1. reflexivity.
Qed.

Lemma frames_steady (past : list (R * list splat_call)) (s : Sim) :
  steady s -> Forall (fun f => Forall forceless (snd f)) past ->
  exists s', run (concat (map frame_events past)) s = Ok s' /\ steady s' /\
             width s' = width s /\ height s' = height s.
Proof.
  intros Hs Hp. revert s Hs.
  induction Hp as [|f past Hf _ IH]; intros s Hs; cbn [map concat].
  - exists s. auto.
  - rewrite run_app.
    destruct (frame_budget f s Hs Hf) as (s1 & E1 & Hs1 & W1 & H1 & _).
    rewrite E1. cbn [mbind result_bind].
    destruct (IH s1 Hs1) as (s' & E & Hs' & W & H).
    exists s'. split; [exact E|]. split; [exact Hs'|]. split; congruence.
Qed.

Lemma demo_steady : steady demo.
Proof.
  split; [exact demo_wf|]. split; [exact demo_capable|]. split; [exact demo_at_rest|].
  destruct demo_spec as (d & v & p & dv & _ & _ & _ & _ & _ & _ & Q & _).
  rewrite Q. discriminate.
Qed.

(** ** Sizes *)

Lemma fbo_ok_sized (g : GL) w h f flt o : fbo_ok g w h f flt o -> sized_field g w h o.
Proof.
  intros H. destruct (fbo_ok_texture _ _ _ _ _ _ H) as (t & Ht & Hw & Hh & _).
  exists t. auto.
Qed.

Lemma wf_fields_sized (s : Sim) : wf s -> fields_sized s.
Proof.
  intros (d & v & p & dv & []). exists d, v, p, dv.
  repeat (split; [assumption|]).
  repeat (constructor; [eapply fbo_ok_sized; eassumption|]). constructor.
Qed.

(** The texel size the engine stores, and the one a grid of its size
    has. *)
Lemma texel_stored (s : Sim) :
  wf s ->
  texel s = mk2 0 0 /\
  0 < 1 / IZR (width s) <= 0.5 /\ 0 < 1 / IZR (height s) <= 0.5.
Proof.
  intros (d & v & p & dv & []).
  split; [assumption|].
  assert (Hw : 2 <= IZR (width s)) by (apply IZR_le; assumption).
  assert (Hh : 2 <= IZR (height s)) by (apply IZR_le; assumption).
  assert (B : forall x, 2 <= x -> 0 < 1 / x <= 0.5).
  { intros x Hx. unfold Rdiv. rewrite Rmult_1_l. split.
    - apply Rinv_0_lt_compat. lra.
    - replace 0.5 with (/ 2) by lra. apply Rinv_le_contravar; lra. }
  split; apply B; assumption.
Qed.

Lemma initFluid_wf (env : Env) (maxDPR : option R) (bw bh : Z) (now : R) (hid : bool)
    (s : Sim) :
  snd (initFluid env maxDPR bw bh now hid) = Ok s -> wf s.
Proof.
  intros E. destruct (initFluid_inv _ _ _ _ _ _ _ E) as [Hgl Hprg].
  destruct (initFluid_ok env maxDPR bw bh now hid Hgl Hprg)
    as (s' & d & v & p & dv & E' & Hwf & _).
  rewrite E' in E. cbn [snd] in E. inversion E; subst. exists d, v, p, dv. exact Hwf.
Qed.

(** ** Double buffers *)

Lemma swap_keeps_link (g : GL) (d : DoubleFBO) :
  tex (read d) <> tex (write d) /\
  framebuffers g !! fbo (read d) = Some (tex (read d)) /\
  framebuffers g !! fbo (write d) = Some (tex (write d)) /\
  is_Some (textures g !! tex (read d)) /\ is_Some (textures g !! tex (write d)) ->
  tex (read (swap d)) <> tex (write (swap d)) /\
  framebuffers g !! fbo (read (swap d)) = Some (tex (read (swap d))) /\
  framebuffers g !! fbo (write (swap d)) = Some (tex (write (swap d))) /\
  is_Some (textures g !! tex (read (swap d))) /\
  is_Some (textures g !! tex (write (swap d))).
Proof.
  unfold read, write. cbn [swap fbo1 fbo2 tex fbo].
  intros (Hne & Hr & Hw & Tr & Tw). repeat split; auto.
Qed.

(** ** Resizing *)

(** At the point of the splat the weight is 1. *)
Lemma falloff_centre (pt : vec2) (r : R) : falloff pt pt r = 1.
Proof.
  unfold falloff, distance.
  replace ((x2 pt - x2 pt) * (x2 pt - x2 pt) + (y2 pt - y2 pt) * (y2 pt - y2 pt))
    with 0 by ring.
  rewrite sqrt_0.
  replace (- (0 * 0) / Rmax 1e-6 (r * r)) with 0 by (unfold Rdiv; ring).
  apply exp_0.
Qed.

Lemma requested_size_ran (s s' : Sim) cmds :
  ran s s' cmds ->
  requested_width s' = requested_width s /\ requested_height s' = requested_height s.
Proof.
  intros R. unfold requested_width, requested_height.
  rewrite (ran_canvas _ _ _ R), (ran_dpr _ _ _ R), (ran_fl _ _ _ R). split; reflexivity.
Qed.

Lemma demo_requested_size : requested_width demo = 4%Z /\ requested_height demo = 3%Z.
Proof.
  destruct demo_spec
    as (d & v & p & dv & _ & _ & _ & _ & _ & _ & _ & _ & P & D & LW & LH & _).
  unfold requested_width, requested_height, clientWidth, clientHeight.
  rewrite demo_fl, P, D, LW, LH, !Rmult_1_r, !Zfloor_IZR. split; reflexivity.
Qed.

(** ** Tearing down *)

Lemma destroy_frame (s : Sim) :
  gl (destroy s) = gl s /\ queued_frames (destroy s) = queued_frames s /\
  lastT (destroy s) = lastT s /\ parentNode (canvas (destroy s)) = false.
Proof.
  unfold destroy. destruct (parentNode (canvas s)) eqn:E; cbn; auto.
Qed.


(** ** Construction and allocation, in detail *)

Lemma program_ok_iff (env : Env) (f : shader) :
  program env BaseVert f = Ok tt
  <-> compiles env BaseVert = true /\ compiles env f = true /\ links env f = true.
Proof.
  unfold program, compile.
  destruct (compiles env BaseVert), (compiles env f), (links env f);
    cbn [mbind result_bind]; split; intros H; try discriminate; try reflexivity;
    try (destruct H as (? & ? & ?); discriminate); auto.
Qed.

Lemma programs_ok_iff (env : Env) :
  programs env = Ok tt
  <-> compiles env BaseVert = true /\
      Forall (fun f => compiles env f = true /\ links env f = true) fragment_shaders.
Proof.
  unfold programs, fragment_shaders. split.
  - intros H.
    repeat match type of H with
           | (_ ← ?m; _) = Ok _ =>
               let E := fresh "E" in
               destruct m as [[]|] eqn:E; cbn [mbind result_bind] in H; [|discriminate H];
               apply program_ok_iff in E
           end.
    apply program_ok_iff in H.
    split; [tauto|]. repeat (constructor; [tauto|]). constructor.
  - intros [Hv Hf].
    repeat match type of Hf with
           | Forall _ (_ :: _) =>
               let a := fresh "a" in
               apply Forall_cons in Hf; destruct Hf as [a Hf]
           end.
    repeat (rewrite (proj2 (program_ok_iff env _)) by tauto; cbn [mbind result_bind]).
    reflexivity.
Qed.

(** What [setSize] logs when the size it asks for is not the current
    one, and what the textures hold afterwards. *)
Lemma setSize_fresh (s : Sim) :
  requested_width s <> width s \/ requested_height s <> height s ->
  exists s',
    setSize s = (true, s') /\
    log (gl s')
    = log (gl s)
      ++ [TexImage2D (next_name (gl s)) (requested_width s) (requested_height s) RGBA16F;
          TexImage2D (2 + next_name (gl s)) (requested_width s) (requested_height s) RGBA16F;
          TexImage2D (4 + next_name (gl s)) (requested_width s) (requested_height s) RG16F;
          TexImage2D (6 + next_name (gl s)) (requested_width s) (requested_height s) RG16F;
          TexImage2D (8 + next_name (gl s)) (requested_width s) (requested_height s) R16F;
          TexImage2D (10 + next_name (gl s)) (requested_width s) (requested_height s) R16F;
          TexImage2D (12 + next_name (gl s)) (requested_width s) (requested_height s) R16F] /\
    (forall m t, textures (gl s') !! m = Some t ->
                 textures (gl s) !! m = Some t
                 \/ exists f flt, t = blank (requested_width s) (requested_height s) f flt).
Proof.
  intros Hne. unfold setSize.
  fold (requested_width s). fold (requested_height s).
  set (w := requested_width s) in *. set (h := requested_height s) in *.
  replace ((w =? width s)%Z && (h =? height s)%Z)%bool with false.
  2: { symmetry. apply andb_false_iff. rewrite !Z.eqb_neq. exact Hne. }
  clearbody w h.
  rewrite createDoubleFBO_eq.
  cbn [color_buffer_float textures framebuffers next_name bound viewport log].
  rewrite createDoubleFBO_eq.
  cbn [color_buffer_float textures framebuffers next_name bound viewport log].
  rewrite createDoubleFBO_eq.
  cbn [color_buffer_float textures framebuffers next_name bound viewport log].
  unfold createFBO.
  cbn [color_buffer_float textures framebuffers next_name bound viewport log].
  eexists. split; [reflexivity|].
  cbn [gl log textures].
  split; [rewrite <- !app_assoc; reflexivity|].
  intros m t H.
  repeat (apply lookup_insert_Some in H; destruct H as [[_ <-]|[_ H]]; [right; eauto|]).
  left. exact H.
Qed.

(** ** What every call and every frame keeps *)

Lemma canvas_fits_ran (s s' : Sim) cmds : ran s s' cmds -> canvas_fits s -> canvas_fits s'.
Proof.
  intros R [W H]. unfold canvas_fits.
  rewrite (ran_canvas _ _ _ R), (ran_width _ _ _ R), (ran_height _ _ _ R). auto.
Qed.

Lemma resize_keeps (s : Sim) :
  canvas_fits s -> canvas_fits (resize s) /\ dpr (resize s) = dpr s.
Proof.
  intros F. unfold resize.
  destruct (Z.eq_dec (requested_width s) (width s)) as [Ew|Nw];
    [destruct (Z.eq_dec (requested_height s) (height s)) as [Eh|Nh]|].
  - rewrite setSize_same by assumption. auto.
  - destruct (setSize_alloc s) as (s' & d & v & p & dv & E & _ & W & H & CW & CH & _ & _ & _ & D & _);
      [right; exact Nh|].
    rewrite E. cbn [snd]. split; [split; congruence | exact D].
  - destruct (setSize_alloc s) as (s' & d & v & p & dv & E & _ & W & H & CW & CH & _ & _ & _ & D & _);
      [left; exact Nw|].
    rewrite E. cbn [snd]. split; [split; congruence | exact D].
Qed.

Lemma dispatch_keeps (e : event) (s : Sim) :
  wf s -> canvas_fits s ->
  exists s',
    dispatch e s = Ok s' /\ wf s' /\ canvas_fits s' /\ dpr s' = dpr s /\
    (queued_frames s = 1%nat -> queued_frames s' = 1%nat).
Proof.
  intros Hwf F. destruct e as [now|x y c radius force|count opts rnd| | |bw bh|b];
    cbn [dispatch].
  - destruct (queued_frames s) as [|n] eqn:Q.
    + exists s. rewrite Q. auto.
    + pose proof (wf_set_queued n s Hwf) as (d & v & p & dv & H).
      destruct (step_spec _ d v p dv now H)
        as (s' & d' & v' & p' & cmds & E & H' & R & _ & Q' & _).
      exists s'. split; [exact E|].
      split; [do 4 eexists; exact H'|].
      split; [exact (canvas_fits_ran _ _ _ R F)|].
      split; [exact (ran_dpr _ _ _ R)|].
      intros Hq. rewrite Q'. cbn [queued_frames set_queued]. exact Hq.
  - destruct Hwf as (d & v & p & dv & H).
    destruct (splat_spec s d v p dv x y c radius force H) as (s' & E & H' & R & _ & Q & _).
    exists s'. split; [exact E|].
    split; [do 4 eexists; exact H'|].
    split; [exact (canvas_fits_ran _ _ _ R F)|].
    split; [exact (ran_dpr _ _ _ R) | congruence].
  - destruct (splatRandom_spec count opts rnd s Hwf) as (s' & cmds & E & H' & R & _ & _ & Q).
    exists s'. split; [exact E|]. split; [exact H'|].
    split; [exact (canvas_fits_ran _ _ _ R F)|].
    split; [exact (ran_dpr _ _ _ R) | congruence].
  - exists (resize s). split; [reflexivity|]. split; [apply resize_wf; exact Hwf|].
    destruct (resize_keeps s F) as [F' D]. destruct (resize_frame s) as (_ & Q & _).
    split; [exact F'|]. split; [exact D | congruence].
  - exists (destroy s). split; [reflexivity|]. split; [apply destroy_wf; exact Hwf|].
    unfold destroy, canvas_fits. destruct (parentNode (canvas s)); cbn; auto.
  - exists (layout bw bh s). split; [reflexivity|].
    split; [apply wf_set_canvas; exact Hwf|]. cbn. auto.
  - exists (set_hidden b s). split; [reflexivity|].
    split; [apply wf_set_hidden; exact Hwf|]. cbn. auto.
Qed.

Lemma run_keeps (es : list event) (s : Sim) :
  wf s -> canvas_fits s ->
  exists s',
    run es s = Ok s' /\ wf s' /\ canvas_fits s' /\ dpr s' = dpr s /\
    (queued_frames s = 1%nat -> queued_frames s' = 1%nat).
Proof.
  revert s. induction es as [|e es IH]; intros s Hwf F; cbn [run].
  - exists s. auto.
  - destruct (dispatch_keeps e s Hwf F) as (s1 & E1 & Hwf1 & F1 & D1 & Q1).
    rewrite E1. cbn [mbind result_bind].
    destruct (IH s1 Hwf1 F1) as (s' & E & Hwf' & F' & D & Q).
    exists s'. split; [exact E|]. split; [exact Hwf'|]. split; [exact F'|].
    split; [congruence | auto].
Qed.

(** The engine [initFluid] returns, with what its construction logged. *)
Lemma initFluid_returned (env : Env) (maxDPR : option R) (bw bh : Z) (now : R)
    (hid : bool) (s : Sim) :
  snd (initFluid env maxDPR bw bh now hid) = Ok s ->
  wf s /\ canvas_fits s /\
  dpr s = Rmin (num_or (devicePixelRatio env) 1) (opt_or maxDPR 2) /\
  width s = Z.max 2 (Zfloor (fl s (IZR bw * dpr s))) /\
  height s = Z.max 2 (Zfloor (fl s (IZR bh * dpr s))) /\
  lastT s = now /\ hidden s = hid /\ queued_frames s = 1%nat /\
  color_buffer_float (gl s) = EXT_color_buffer_float env /\
  fields_blank s /\
  map allocation (log (gl s))
  = [Some (width s, height s, RGBA16F); Some (width s, height s, RGBA16F);
     Some (width s, height s, RG16F); Some (width s, height s, RG16F);
     Some (width s, height s, R16F); Some (width s, height s, R16F);
     Some (width s, height s, R16F)] /\
  fl s = rounding env.
Proof.
  intros E. destruct (initFluid_inv _ _ _ _ _ _ _ E) as [Hgl Hprg].
  revert E. unfold initFluid, createGL. rewrite Hgl.
  cbn [snd mbind result_bind]. rewrite Hprg. cbn [mbind result_bind].
  match goal with |- context [setSize ?x] => set (s0 := x) end.
  assert (Hne : requested_width s0 <> width s0 \/ requested_height s0 <> height s0).
  { left. pose proof (requested_width_ge_2 s0). cbn [s0 width]. lia. }
  destruct (setSize_alloc s0 Hne) as
    (s' & d & v & p & dv & E & Hwf & W & H & CW & CH & _ & _ & _ & D & T & Hd & Q & C
       & Zd & Zv & Zp & Zdv & _ & FL & _).
  destruct (setSize_fresh s0 Hne) as (s'' & E' & L & _).
  rewrite E in E'. inversion E'; subst s''. clear E'.
  rewrite E. cbn [snd]. intros Es. inversion Es; subst s. clear Es.
  assert (Rw : requested_width s0 = Z.max 2 (Zfloor (fl s0 (IZR bw * dpr s0))))
    by reflexivity.
  assert (Rh : requested_height s0 = Z.max 2 (Zfloor (fl s0 (IZR bh * dpr s0))))
    by reflexivity.
  split; [exists d, v, p, dv; eapply wf_fields_ext; eauto; apply same_shape_refl|].
  split; [split; cbn [requestAnimationFrame set_queued canvas width height]; congruence|].
  cbn [requestAnimationFrame set_queued dpr fl width height lastT hidden queued_frames gl].
  split; [rewrite D; reflexivity|].
  split; [rewrite W, D, FL; exact Rw|].
  split; [rewrite H, D, FL; exact Rh|].
  split; [exact T|]. split; [exact Hd|]. split; [rewrite Q; reflexivity|].
  split; [exact C|].
  split; [intros i j; repeat split; [apply Zd | apply Zv | apply Zp | apply Zdv]|].
  change (gl (requestAnimationFrame s')) with (gl s').
  split; [rewrite L, W, H; reflexivity | exact FL].
Qed.

(** ** The commands of a frame, in order *)

Lemma pressureLoop_stages (n : nat) (s : Sim) d v p dv :
  wf_fields s d v p dv ->
  exists s' cmds,
    pressureLoop n s = Ok s' /\ log (gl s') = log (gl s) ++ cmds /\
    map stage_of cmds = repeat Relaxing n.
Proof.
  revert s p. induction n as [|n IH]; intros s p Hwf; cbn [pressureLoop].
  - exists s, []. rewrite app_nil_r. auto.
  - rewrite (pressureIteration_eq s p dv)
      by first [apply (wf_pressure _ _ _ _ _ Hwf) | apply (wf_divergence _ _ _ _ _ Hwf)].
    cbn [mbind result_bind].
    match goal with |- context [pressureLoop n ?x] => set (s1 := x) end.
    assert (Hwf1 : wf_fields s1 d v (swap p) dv)
      by (apply wf_fields_swap_pressure, wf_fields_draw; exact Hwf).
    destruct (IH s1 (swap p) Hwf1) as (s' & cmds & E & L & M).
    exists s'. eexists. split; [exact E|]. split.
    + rewrite L. cbn [s1 gl set_pressure set_gl].
      rewrite log_draw_into, <- app_assoc. reflexivity.
    + cbn [app map stage_of repeat]. rewrite M. reflexivity.
Qed.

Lemma solvePressure_stages (s : Sim) d v p dv :
  wf_fields s d v p dv ->
  exists s' cmds,
    solvePressure s = Ok s' /\
    log (gl s') = log (gl s) ++ Clear (Some (fbo (write p))) :: cmds /\
    map stage_of cmds = repeat Relaxing pressureIters.
Proof.
  intros Hwf. unfold solvePressure.
  rewrite (wf_pressure _ _ _ _ _ Hwf). cbn [mbind result_bind deref].
  fold (clear_into (write p) (mk4 0 0 0 1) (gl s)).
  set (s1 := set_gl (clear_into (write p) (mk4 0 0 0 1) (gl s)) s).
  rewrite (swap_pressure_eq s1 p) by (apply (wf_pressure _ _ _ _ _ Hwf)).
  cbn [mbind result_bind].
  assert (Hwf2 : wf_fields (set_pressure (swap p) s1) d v (swap p) dv)
    by (apply wf_fields_swap_pressure, wf_fields_clear; exact Hwf).
  destruct (pressureLoop_stages pressureIters _ d v (swap p) dv Hwf2)
    as (s' & cmds & E & L & M).
  exists s', cmds. split; [exact E|]. split; [|exact M].
  rewrite L. cbn [s1 gl set_pressure set_gl]. unfold clear_into.
  rewrite log_clear. cbn [bindFramebuffer bound log]. rewrite <- app_assoc. reflexivity.
Qed.

Lemma dissipations_app (a b : list command) :
  dissipations (a ++ b) = dissipations a ++ dissipations b.
Proof.
  induction a as [|c a IH]; [reflexivity|].
  destruct c as [? ? ? ?|?|t q]; cbn [app dissipations]; try exact IH.
  destruct q; cbn [app]; rewrite ?IH; reflexivity.
Qed.

Lemma dissipations_relaxing (cs : list command) (n : nat) :
  map stage_of cs = repeat Relaxing n -> dissipations cs = [].
Proof.
  revert n. induction cs as [|c cs IH]; intros n H; [reflexivity|].
  destruct n as [|n]; [discriminate|]. cbn [map repeat] in H.
  inversion H as [[Hc Hcs]].
  destruct c as [? ? ? ?|[?|]|[t|] q]; try discriminate; destruct q; try discriminate.
  cbn [dissipations]. exact (IH n Hcs).
Qed.

(** The frame callback, command by command. *)
Lemma step_trace (s : Sim) d v p dv (now : R) :
  wf_fields s d v p dv ->
  exists s' cmds,
    step now s = Ok s' /\ dye s' = Some (swap (swap d)) /\ ran s s' cmds /\
    map stage_of cmds
    = [Advecting; Dissipating; Diverging; Clearing] ++ repeat Relaxing 15
      ++ [Projecting; Advecting; Dissipating; Presenting] /\
    dissipations cmds = [clearVel; clearDye] /\
    last cmds = Some (DrawArrays None (Display (tex (read (swap (swap d)))))) /\
    (capable s ->
     forall i j, in_grid s i j -> dye_at s' i j = scale4 clearDye (dye_at s i j)).
Proof.
  intros Hwf. unfold step.
  set (dt := Rmin 0.032 ((now - lastT s) / 1000)).
  set (s0 := set_lastT now s).
  assert (Hwf0 : wf_fields s0 d v p dv)
    by (eapply wf_fields_ext; eauto; apply same_shape_refl).
  assert (R0 : ran s s0 [])
    by (constructor; try reflexivity; [apply same_shape_refl | symmetry; apply app_nil_r]).
  assert (D0 : forall i j, dye_at s0 i j = dye_at s i j) by reflexivity.
  clearbody s0.
  rewrite (wf_velocity _ _ _ _ _ Hwf0). cbn [mbind result_bind deref].
  rewrite advect_eq.
  destruct (stage_velocity_rest s0 d v p dv
              (Advect (tex (read v)) (tex (read v)) (texel s0) dt) Hwf0)
    as (s1 & E1 & Hwf1 & R1 & _ & _ & D1 & _); [left; eexists; reflexivity|].
  rewrite E1. cbn [mbind result_bind].
  rewrite (wf_velocity _ _ _ _ _ Hwf1). cbn [mbind result_bind deref].
  rewrite applyDissipation_eq.
  destruct (stage_velocity_rest s1 d (swap v) p dv
              (Dissipate (tex (read (swap v))) clearVel) Hwf1)
    as (s2 & E2 & Hwf2 & R2 & _ & _ & D2 & _); [right; eexists; reflexivity|].
  rewrite E2. cbn [mbind result_bind].
  destruct (stage_divergence_rest s2 d (swap (swap v)) p dv Hwf2)
    as (s3 & E3 & Hwf3 & R3 & _ & _ & D3 & _).
  rewrite E3. cbn [mbind result_bind].
  destruct (solvePressure_rest s3 d (swap (swap v)) p dv Hwf3)
    as (s4 & p' & jac & E4 & Hwf4 & R4 & _ & _ & _ & _ & D4 & _).
  destruct (solvePressure_stages s3 d (swap (swap v)) p dv Hwf3)
    as (s4' & jac' & E4' & L4' & M4).
  rewrite E4 in E4'. inversion E4'; subst s4'. clear E4'.
  rewrite (ran_log _ _ _ R4) in L4'. apply app_inv_head in L4'.
  inversion L4'; subst jac'. clear L4'.
  rewrite E4. cbn [mbind result_bind].
  destruct (subtractGradient_rest s4 d (swap (swap v)) p' dv Hwf4)
    as (s5 & E5 & Hwf5 & R5 & _ & _ & D5 & _).
  rewrite E5. cbn [mbind result_bind].
  set (v' := swap (swap (swap v))) in *.
  rewrite (wf_dye _ _ _ _ _ Hwf5), (wf_velocity _ _ _ _ _ Hwf5).
  cbn [mbind result_bind deref].
  destruct (advect_dye_rest s5 d v' p' dv dt Hwf5)
    as (s6 & E6 & Hwf6 & R6 & _ & _ & _ & D6).
  rewrite E6. cbn [mbind result_bind].
  rewrite (wf_dye _ _ _ _ _ Hwf6). cbn [mbind result_bind deref].
  destruct (dissipate_dye_spec s6 (swap d) v' p' dv clearDye Hwf6)
    as (s7 & E7 & Hwf7 & R7 & _ & _ & _ & D7).
  rewrite E7. cbn [mbind result_bind].
  destruct (render_spec s7 (swap (swap d)) v' p' dv Hwf7)
    as (s8 & E8 & Hwf8 & R8 & _ & _ & D8 & _).
  rewrite E8. cbn [mbind result_bind].
  pose proof (ran_trans _ _ _ _ _ R0 R1) as A1.
  pose proof (ran_trans _ _ _ _ _ A1 R2) as A2.
  pose proof (ran_trans _ _ _ _ _ A2 R3) as A3.
  pose proof (ran_trans _ _ _ _ _ A3 R4) as A4.
  pose proof (ran_trans _ _ _ _ _ A4 R5) as A5.
  pose proof (ran_trans _ _ _ _ _ A5 R6) as A6.
  pose proof (ran_trans _ _ _ _ _ A6 R7) as A7.
  pose proof (ran_trans _ _ _ _ _ A7 R8) as A8.
  eexists (requestAnimationFrame s8), _.
  split; [reflexivity|].
  split; [exact (wf_dye _ _ _ _ _ Hwf8)|].
  split; [apply ran_set_queued; exact A8|].
  split.
  { rewrite !map_app. cbn [map stage_of app]. rewrite M4. reflexivity. }
  split.
  { rewrite !dissipations_app. cbn [dissipations app].
    rewrite (dissipations_relaxing _ _ M4). reflexivity. }
  split; [apply last_snoc|].
  intros Hc i j Hij.
  pose proof (capable_ran _ _ _ A5 Hc) as K5.
  pose proof (capable_ran _ _ _ A6 Hc) as K6.
  change (dye_at s8 i j = scale4 clearDye (dye_at s i j)).
  rewrite D8.
  rewrite (D7 K6 i j (in_grid_ran _ _ _ _ _ A6 Hij)).
  rewrite (D6 K5 i j (in_grid_ran _ _ _ _ _ A5 Hij)).
  rewrite D5, D4, D3, D2, D1, D0. reflexivity.
Qed.

(** ** What draws leave of a context *)

Lemma drawn_refl (g : GL) : drawn g g.
Proof. constructor; auto. Qed.

Lemma drawn_trans (g1 g2 g3 : GL) : drawn g1 g2 -> drawn g2 g3 -> drawn g1 g3.
Proof.
  intros [C1 I1] [C2 I2]. constructor; [congruence|].
  intros H. rewrite I2 by congruence. auto.
Qed.

Lemma drawn_drawArrays (p : pass) (f : option nat) (g : GL) :
  drawn g (drawArrays p (bindFramebuffer f g)).
Proof.
  unfold drawArrays.
  destruct (render_target (bindFramebuffer f g)) as [n|] eqn:RT;
    [destruct (textures (bindFramebuffer f g) !! n)|]; constructor; cbn; auto.
  intros Hc. unfold render_target in RT. cbn [bindFramebuffer color_buffer_float] in RT.
  rewrite Hc in RT. discriminate.
Qed.

Lemma drawn_clear (c : vec4) (f : option nat) (g : GL) :
  drawn g (clear c (bindFramebuffer f g)).
Proof.
  unfold clear.
  destruct (render_target (bindFramebuffer f g)) as [n|] eqn:RT;
    [destruct (textures (bindFramebuffer f g) !! n)|]; constructor; cbn; auto.
  intros Hc. unfold render_target in RT. cbn [bindFramebuffer color_buffer_float] in RT.
  rewrite Hc in RT. discriminate.
Qed.

Lemma swap_dye_gl (s s' : Sim) : swap_dye s = Ok s' -> gl s' = gl s.
Proof.
  unfold swap_dye. destruct (dye s); cbn [deref mbind result_bind]; [|discriminate].
  intros H. inversion H. reflexivity.
Qed.

Lemma swap_velocity_gl (s s' : Sim) : swap_velocity s = Ok s' -> gl s' = gl s.
Proof.
  unfold swap_velocity. destruct (velocity s); cbn [deref mbind result_bind]; [|discriminate].
  intros H. inversion H. reflexivity.
Qed.

Lemma swap_pressure_gl (s s' : Sim) : swap_pressure s = Ok s' -> gl s' = gl s.
Proof.
  unfold swap_pressure. destruct (pressure s); cbn [deref mbind result_bind]; [|discriminate].
  intros H. inversion H. reflexivity.
Qed.

(** [bind_inv H] splits [H : (x ← m; k x) = Ok b] into the equations of
    the steps. *)
Ltac bind_inv H :=
  repeat match type of H with
         | mbind _ ?m = Ok _ =>
             let a := fresh "a" in
             let E := fresh "E" in
             destruct m as [a|] eqn:E; cbn [mbind result_bind] in H; [|discriminate H]
         end.

Lemma computeDivergence_drawn (s s' : Sim) :
  computeDivergence s = Ok s' -> drawn (gl s) (gl s').
Proof.
  unfold computeDivergence. intros H. bind_inv H. inversion H.
  cbn [gl set_gl]. apply drawn_drawArrays.
Qed.

Lemma pressureIteration_drawn (s s' : Sim) :
  pressureIteration s = Ok s' -> drawn (gl s) (gl s').
Proof.
  unfold pressureIteration. intros H. bind_inv H.
  apply swap_pressure_gl in H. rewrite H. cbn [gl set_gl]. apply drawn_drawArrays.
Qed.

Lemma pressureLoop_drawn (n : nat) (s s' : Sim) :
  pressureLoop n s = Ok s' -> drawn (gl s) (gl s').
Proof.
  revert s. induction n as [|n IH]; intros s H; cbn [pressureLoop] in H.
  - inversion H. apply drawn_refl.
  - bind_inv H. eapply drawn_trans; [eapply pressureIteration_drawn; eassumption|].
    apply IH. exact H.
Qed.

Lemma solvePressure_drawn (s s' : Sim) :
  solvePressure s = Ok s' -> drawn (gl s) (gl s').
Proof.
  unfold solvePressure. intros H. bind_inv H.
  apply pressureLoop_drawn in H.
  match goal with E : swap_pressure _ = Ok _ |- _ => apply swap_pressure_gl in E; rewrite E in H end.
  cbn [gl set_gl] in H.
  eapply drawn_trans; [apply drawn_clear | exact H].
Qed.

Lemma subtractGradient_drawn (s s' : Sim) :
  subtractGradient s = Ok s' -> drawn (gl s) (gl s').
Proof.
  unfold subtractGradient. intros H. bind_inv H.
  apply swap_velocity_gl in H. rewrite H. cbn [gl set_gl]. apply drawn_drawArrays.
Qed.

Lemma render_drawn (s s' : Sim) : render s = Ok s' -> drawn (gl s) (gl s').
Proof.
  unfold render. intros H. bind_inv H. inversion H.
  cbn [gl set_gl]. apply drawn_drawArrays.
Qed.

Lemma advect_drawn (dst src vel : FBO) (dt : R) (s : Sim) :
  drawn (gl s) (gl (advect dst src vel dt s)).
Proof. unfold advect. cbn [gl set_gl]. apply drawn_drawArrays. Qed.

Lemma applyDissipation_drawn (dst src : FBO) (k : R) (s : Sim) :
  drawn (gl s) (gl (applyDissipation dst src k s)).
Proof. unfold applyDissipation. cbn [gl set_gl]. apply drawn_drawArrays. Qed.

Lemma step_drawn (now : R) (s s' : Sim) : step now s = Ok s' -> drawn (gl s) (gl s').
Proof.
  unfold step. cbv zeta. intros H. bind_inv H. inversion H. subst s'. clear H.
  repeat match goal with
         | E : swap_velocity _ = Ok _ |- _ => apply swap_velocity_gl in E
         | E : swap_dye _ = Ok _ |- _ => apply swap_dye_gl in E
         | E : computeDivergence _ = Ok _ |- _ => apply computeDivergence_drawn in E
         | E : solvePressure _ = Ok _ |- _ => apply solvePressure_drawn in E
         | E : subtractGradient _ = Ok _ |- _ => apply subtractGradient_drawn in E
         | E : render _ = Ok _ |- _ => apply render_drawn in E
         end.
  change (gl (requestAnimationFrame ?x)) with (gl x).
  repeat match goal with
         | E : drawn (gl ?a) (gl ?b) |- drawn _ (gl ?b) =>
             apply (drawn_trans _ (gl a)); [clear E | exact E]
         | E : gl ?b = gl (advect _ _ _ _ ?a) |- drawn _ (gl ?b) =>
             rewrite E; apply (drawn_trans _ (gl a)); [clear E | apply advect_drawn]
         | E : gl ?b = gl (applyDissipation _ _ _ ?a) |- drawn _ (gl ?b) =>
             rewrite E; apply (drawn_trans _ (gl a)); [clear E | apply applyDissipation_drawn]
         end.
  apply drawn_refl.
Qed.

Lemma splat_drawn (x y : R) (c : vec3) (radius : option R) (force : option vec2)
    (s s' : Sim) :
  splat x y c radius force s = Ok s' -> drawn (gl s) (gl s').
Proof.
  unfold splat. cbv zeta. intros H. bind_inv H.
  apply swap_velocity_gl in H. rewrite H. cbn [gl set_gl].
  eapply drawn_trans; [|apply drawn_drawArrays].
  match goal with E : swap_dye _ = Ok _ |- _ => apply swap_dye_gl in E; rewrite E end.
  cbn [gl set_gl]. apply drawn_drawArrays.
Qed.

Lemma splatRandomLoop_drawn (count : nat) (minR maxR maxF : R) (opts : RandomOpts)
    (rnd : nat -> R) (k : nat) (s s' : Sim) :
  splatRandomLoop count minR maxR maxF opts rnd k s = Ok s' -> drawn (gl s) (gl s').
Proof.
  revert k s. induction count as [|n IH]; intros k s H; cbn [splatRandomLoop] in H.
  - inversion H. apply drawn_refl.
  - destruct (color opts); bind_inv H;
      (eapply drawn_trans; [eapply splat_drawn; eassumption | eapply IH; exact H]).
Qed.

Lemma dispatch_drawn (e : event) (s s' : Sim) :
  e <> CallResize -> dispatch e s = Ok s' -> drawn (gl s) (gl s').
Proof.
  intros Hne H. destruct e; cbn [dispatch] in H.
  - destruct (queued_frames s); [inversion H; apply drawn_refl|].
    apply step_drawn in H. exact H.
  - eapply splat_drawn; exact H.
  - eapply splatRandomLoop_drawn; exact H.
  - congruence.
  - inversion H. unfold destroy. destruct (parentNode (canvas s)); apply drawn_refl.
  - inversion H. apply drawn_refl.
  - inversion H. apply drawn_refl.
Qed.

(** ** A context that cannot render to half-float textures *)

Lemma all_zero_fields_blank (s : Sim) : wf s -> all_zero (gl s) -> fields_blank s.
Proof.
  intros (d & v & p & dv & Hwf) Z i j. pose proof Hwf as [].
  assert (T : forall w h f flt o, fbo_ok (gl s) w h f flt o ->
              texels (gl s) (tex o) i j = mask f (mk4 0 0 0 0)).
  { intros w h f flt o Hok.
    destruct (fbo_ok_texture _ _ _ _ _ _ Hok) as (t & Ht & _ & _ & Hf & _).
    unfold texels. rewrite Ht, (Z _ _ Ht), Hf. reflexivity. }
  rewrite (dye_at_eq s d), (velocity_at_eq s v), (pressure_at_eq s p),
    (divergence_at_eq s dv) by assumption.
  rewrite (T _ _ _ _ _ wf_dye_read0), (T _ _ _ _ _ wf_velocity_read0),
    (T _ _ _ _ _ wf_pressure_read0), (T _ _ _ _ _ wf_divergence_fbo0).
  repeat split.
Qed.

Lemma resize_all_zero (s : Sim) :
  all_zero (gl s) ->
  all_zero (gl (resize s)) /\
  color_buffer_float (gl (resize s)) = color_buffer_float (gl s).
Proof.
  intros Z. unfold resize.
  destruct (Z.eq_dec (requested_width s) (width s)) as [Ew|Nw];
    [destruct (Z.eq_dec (requested_height s) (height s)) as [Eh|Nh]|].
  - rewrite setSize_same by assumption. auto.
  - assert (Hne : requested_width s <> width s \/ requested_height s <> height s)
      by (right; exact Nh).
    destruct (setSize_alloc s Hne)
      as (s' & d & v & p & dv & E & _ & _ & _ & _ & _ & _ & _ & _ & _ & _ & _ & _ & C & _).
    destruct (setSize_fresh s Hne) as (s'' & E' & _ & B).
    rewrite E in E'. inversion E'; subst s''. rewrite E. cbn [snd].
    split; [|exact C].
    intros n t Ht a b. destruct (B n t Ht) as [Hold|(f & flt & ->)];
      [exact (Z n t Hold a b) | reflexivity].
  - assert (Hne : requested_width s <> width s \/ requested_height s <> height s)
      by (left; exact Nw).
    destruct (setSize_alloc s Hne)
      as (s' & d & v & p & dv & E & _ & _ & _ & _ & _ & _ & _ & _ & _ & _ & _ & _ & C & _).
    destruct (setSize_fresh s Hne) as (s'' & E' & _ & B).
    rewrite E in E'. inversion E'; subst s''. rewrite E. cbn [snd].
    split; [|exact C].
    intros n t Ht a b. destruct (B n t Ht) as [Hold|(f & flt & ->)];
      [exact (Z n t Hold a b) | reflexivity].
Qed.

Lemma dispatch_incapable (e : event) (s : Sim) :
  wf s -> color_buffer_float (gl s) = false -> all_zero (gl s) ->
  exists s',
    dispatch e s = Ok s' /\ wf s' /\ color_buffer_float (gl s') = false /\
    all_zero (gl s').
Proof.
  intros Hwf C Z. destruct (dispatch_wf e s Hwf) as (s' & E & Hwf').
  exists s'. split; [exact E|]. split; [exact Hwf'|].
  assert (D : e = CallResize \/ e <> CallResize)
    by (destruct e; first [left; reflexivity | right; discriminate]).
  destruct D as [->|Hne].
  - cbn [dispatch] in E. inversion E.
    destruct (resize_all_zero s Z) as [Z' C']. split; [congruence | exact Z'].
  - destruct (dispatch_drawn e s s' Hne E) as [C' I].
    split; [congruence|]. unfold all_zero. rewrite (I C). exact Z.
Qed.

Lemma run_incapable (es : list event) (s : Sim) :
  wf s -> color_buffer_float (gl s) = false -> all_zero (gl s) ->
  exists s',
    run es s = Ok s' /\ wf s' /\ color_buffer_float (gl s') = false /\
    all_zero (gl s').
Proof.
  revert s. induction es as [|e es IH]; intros s Hwf C Z; cbn [run].
  - exists s. auto.
  - destruct (dispatch_incapable e s Hwf C Z) as (s1 & E1 & Hwf1 & C1 & Z1).
    rewrite E1. cbn [mbind result_bind]. apply IH; assumption.
Qed.

Lemma initFluid_all_zero (env : Env) (maxDPR : option R) (bw bh : Z) (now : R)
    (hid : bool) (s : Sim) :
  snd (initFluid env maxDPR bw bh now hid) = Ok s -> all_zero (gl s).
Proof.
  intros E. destruct (initFluid_inv _ _ _ _ _ _ _ E) as [Hgl Hprg].
  revert E. unfold initFluid, createGL. rewrite Hgl.
  cbn [snd mbind result_bind]. rewrite Hprg. cbn [mbind result_bind].
  match goal with |- context [setSize ?x] => set (s0 := x) end.
  assert (Hne : requested_width s0 <> width s0 \/ requested_height s0 <> height s0).
  { left. pose proof (requested_width_ge_2 s0). cbn [s0 width]. lia. }
  destruct (setSize_fresh s0 Hne) as (s' & E & _ & B).
  rewrite E. cbn [snd]. intros Es. inversion Es; subst s. clear Es.
  change (gl (requestAnimationFrame s')) with (gl s').
  intros n t Ht a b. destruct (B n t Ht) as [Hold|(f & flt & ->)]; [|reflexivity].
  cbn [s0 gl textures] in Hold. rewrite lookup_empty in Hold. discriminate.
Qed.

(** ** More example pages *)

Lemma stirred_spec : wf stirred /\ capable stirred /\ width stirred = 4%Z /\ height stirred = 3%Z.
Proof.
  destruct demo_spec as (d & v & p & dv & Hwf & Hc & _ & W & H & _).
  destruct (splat_spec demo d v p dv 0.5 0.5 (mk3 1 0 0) None (Some (mk2 1 0)) Hwf)
    as (s' & E & Hwf' & R & _).
  unfold stirred. rewrite E.
  split; [do 4 eexists; exact Hwf'|].
  split; [exact (capable_ran _ _ _ R Hc)|].
  rewrite (ran_width _ _ _ R), (ran_height _ _ _ R). auto.
Qed.

Lemma stirred_attached : parentNode (canvas stirred) = true.
Proof.
  destruct demo_spec
    as (d & v & p & dv & Hwf & _ & _ & _ & _ & _ & _ & _ & P & _).
  destruct (splat_spec demo d v p dv 0.5 0.5 (mk3 1 0 0) None (Some (mk2 1 0)) Hwf)
    as (s' & E & _ & R & _).
  unfold stirred. rewrite E, (ran_canvas _ _ _ R). exact P.
Qed.


Lemma stirred_arith : fl stirred = (fun x => x) /\ dpr stirred = 1.
Proof.
  destruct demo_spec
    as (d & v & p & dv & Hwf & _ & _ & _ & _ & _ & _ & _ & _ & D & _).
  destruct (splat_spec demo d v p dv 0.5 0.5 (mk3 1 0 0) None (Some (mk2 1 0)) Hwf)
    as (s' & E & _ & R & _).
  unfold stirred. rewrite E, (ran_fl _ _ _ R), (ran_dpr _ _ _ R). split; [exact demo_fl | exact D].
Qed.

Lemma dyed_spec :
  steady dyed /\ width dyed = 4%Z /\ height dyed = 3%Z /\
  dye_at dyed 1 1 = mk4 1 0 0 1.
Proof.
  destruct demo_spec
    as (d & v & p & dv & Hwf & Hc & _ & W & H & _ & _ & _ & _ & _ & _ & _ & Zd & _).
  destruct (splat_spec demo d v p dv 0.375 0.5 (mk3 1 0 0) None None Hwf)
    as (s1 & E & Hwf1 & R & _ & _ & D & _).
  destruct (forceless_splat_budget (mkSplatCall 0.375 0.5 (mk3 1 0 0) None None) demo
              demo_steady) as (s2 & E2 & Hs & _); [reflexivity|].
  cbn [dispatch call_of at_x at_y tint size push] in E2.
  rewrite E in E2. inversion E2; subst s2. clear E2.
  unfold dyed. rewrite E.
  split; [exact Hs|].
  rewrite (ran_width _ _ _ R), (ran_height _ _ _ R).
  split; [exact W|]. split; [exact H|].
  rewrite (D Hc 1%Z 1%Z) by (unfold in_grid; rewrite W, H; lia).
  rewrite Zd, W, H. unfold splat_dye.
  replace (fragUv (4%Z, 3%Z) 1 1) with (mk2 0.375 0.5)
    by (unfold fragUv; cbn [fst snd]; f_equal; lra).
  rewrite falloff_centre. apply vec4_eq; cbn [add4 vx vy vz vw x3 y3 z3]; lra.
Qed.

Lemma bare_init :
  initFluid bare_env None 4 3 0 false
  = ([AppendChild; GetContext; GetExtension "EXT_color_buffer_float";
      GetExtension "OES_texture_float_linear"], Ok bare).
Proof. reflexivity. Qed.

(** ** Vector arithmetic *)

Lemma add4_comm (a b : vec4) : add4 a b = add4 b a.
Proof. unfold add4. f_equal; ring. Qed.

Lemma add2_comm_assoc (a b c : vec2) : add2 (add2 a b) c = add2 (add2 a c) b.
Proof. unfold add2. cbn [x2 y2]. f_equal; ring. Qed.

Lemma exp_le_1 (x : R) : x <= 0 -> exp x <= 1.
Proof.
  intros [H|H].
  - left. rewrite <- exp_0. apply exp_increasing. exact H.
  - subst x. rewrite exp_0. right. reflexivity.
Qed.

Lemma falloff_le_1 (vUv uPoint : vec2) (r : R) : falloff vUv uPoint r <= 1.
Proof.
  unfold falloff. apply exp_le_1.
  set (d := distance vUv uPoint).
  assert (Hm : 0 < Rmax 1e-6 (r * r)).
  { apply Rlt_le_trans with 1e-6; [lra | apply Rmax_l]. }
  unfold Rdiv. rewrite <- Ropp_mult_distr_l.
  assert (0 <= d * d * / Rmax 1e-6 (r * r)); [|lra].
  apply Rmult_le_pos; [nra | left; apply Rinv_0_lt_compat; exact Hm].
Qed.

(** The guard of the splat programs against a vanishing radius is never
    met by what [splat] passes. *)
Lemma splat_radius_guard (radius : option R) :
  0.002 <= splat_radius radius /\
  Rmax 1e-6 (splat_radius radius * splat_radius radius)
  = splat_radius radius * splat_radius radius.
Proof.
  assert (H : 0.002 <= splat_radius radius) by (unfold splat_radius; apply Rmax_l).
  split; [exact H|]. apply Rmax_right.
  assert (0.002 * 0.002 <= splat_radius radius * splat_radius radius)
    by (apply Rmult_le_compat; lra).
  lra.
Qed.

Lemma distance_sqr (p q : vec2) :
  distance p q * distance p q
  = (x2 p - x2 q) * (x2 p - x2 q) + (y2 p - y2 q) * (y2 p - y2 q).
Proof.
  unfold distance. apply sqrt_sqrt.
  assert (S : forall a, 0 <= a * a) by (intros a; apply Rle_0_sqr).
  apply Rplus_le_le_0_compat; apply S.
Qed.

(** ** Random splats *)

Lemma num_or_0 (x : R) : num_or x 0 = x.
Proof. unfold num_or. destruct (Req_dec_T x 0); congruence. Qed.

Lemma opt_or_nonzero (x : option R) (d : R) : d <> 0 -> opt_or x d <> 0.
Proof.
  intros Hd. destruct x as [v|]; cbn [opt_or]; [|exact Hd].
  unfold num_or. destruct (Req_dec_T v 0); assumption.
Qed.

Lemma random_speed (a F q : R) :
  F <> 0 -> 0.2 <= q < 1 ->
  0.04 * (F * F) <= (cos a * F * q) * (cos a * F * q) + (sin a * F * q) * (sin a * F * q)
  <= F * F.
Proof.
  intros HF Hq.
  replace ((cos a * F * q) * (cos a * F * q) + (sin a * F * q) * (sin a * F * q))
    with ((Rsqr (sin a) + Rsqr (cos a)) * ((F * F) * (q * q))) by (unfold Rsqr; ring).
  rewrite sin2_cos2, Rmult_1_l.
  assert (HFF : 0 < F * F) by nra.
  assert (Hqq : 0.04 <= q * q < 1) by nra.
  split; nra.
Qed.

Lemma splatRandomLoop_trace (count : nat) (minR maxR maxF : R) (opts : RandomOpts)
    (rnd : nat -> R) (k : nat) (s : Sim) :
  wf s -> (forall n, 0 <= rnd n < 1) -> minR <= maxR ->
  maxF * opt_or (forceScale opts) 1 <> 0 ->
  exists s' cmds,
    splatRandomLoop count minR maxR maxF opts rnd k s = Ok s' /\
    ran s s' cmds /\
    Forall (random_splat minR maxR (maxF * opt_or (forceScale opts) 1) (color opts)) cmds /\
    map stage_of cmds = concat (repeat [Splatting; Pushing] count).
Proof.
  intros Hwf Hrnd HR HF. revert k s Hwf.
  induction count as [|n IH]; intros k s Hwf; cbn [splatRandomLoop].
  - exists s, []. split; [reflexivity|]. split; [apply ran_refl|]. split; constructor.
  - replace (opt_or (forceScale opts) 1.0) with (opt_or (forceScale opts) 1)
      by (f_equal; lra).
    set (r := minR + rnd (k + 2)%nat * (maxR - minR)).
    set (a := rnd (k + 3)%nat * PI * 2).
    set (q := 0.2 + 0.8 * rnd (k + 4)%nat).
    assert (Hr : Rmax 0.002 minR <= splat_radius (Some r) <= Rmax 0.002 maxR).
    { pose proof (Hrnd (k + 2)%nat). unfold splat_radius.
      assert (minR <= r <= maxR) by (unfold r; nra).
      split; apply Rle_max_compat_l; lra. }
    assert (Hq : 0.2 <= q < 1) by (pose proof (Hrnd (k + 4)%nat); unfold q; lra).
    assert (Hf : forall F0,
               splat_force (Some (mk2 (cos a * maxF * (F0 * q)) (sin a * maxF * (F0 * q))))
               = mk2 (cos a * (maxF * F0) * q) (sin a * (maxF * F0) * q)).
    { intros F0. unfold splat_force. cbn [x2 y2]. rewrite !num_or_0. f_equal; ring. }
    destruct Hwf as (d & v & p & dv & Hwf).
    destruct (color opts) as [c0|] eqn:Ec.
    + destruct (splat_spec s d v p dv (rnd k) (rnd (k + 1)%nat) c0 (Some r)
                  (Some (mk2 (cos a * maxF * (opt_or (forceScale opts) 1 * q))
                             (sin a * maxF * (opt_or (forceScale opts) 1 * q)))) Hwf)
        as (s1 & E1 & Hwf1 & R1 & _).
      fold r a q. rewrite E1. cbn [mbind result_bind].
      destruct (IH (k + 5)%nat s1) as (s' & cmds & E & R & F & M);
        [do 4 eexists; exact Hwf1|].
      exists s'. eexists. split; [exact E|].
      split; [exact (ran_trans _ _ _ _ _ R1 R)|].
      split.
      * rewrite Hf. cbn [app]. constructor; [|constructor; [|exact F]]; cbn [random_splat x2 y2].
        -- repeat split; try apply Hrnd; apply Hr.
        -- split; [apply Hrnd|]. split; [apply Hrnd|]. split; [exact Hr|].
           apply random_speed; assumption.
      * cbn [app map stage_of repeat concat]. rewrite M. reflexivity.
    + destruct (splat_spec s d v p dv (rnd k) (rnd (k + 1)%nat)
                  (mk3 (rnd (k + 5)%nat) (rnd (k + 6)%nat) (rnd (k + 7)%nat)) (Some r)
                  (Some (mk2 (cos a * maxF * (opt_or (forceScale opts) 1 * q))
                             (sin a * maxF * (opt_or (forceScale opts) 1 * q)))) Hwf)
        as (s1 & E1 & Hwf1 & R1 & _).
      fold r a q. rewrite E1. cbn [mbind result_bind].
      destruct (IH (k + 8)%nat s1) as (s' & cmds & E & R & F & M);
        [do 4 eexists; exact Hwf1|].
      exists s'. eexists. split; [exact E|].
      split; [exact (ran_trans _ _ _ _ _ R1 R)|].
      split.
      * rewrite Hf. cbn [app]. constructor; [|constructor; [|exact F]];
          cbn [random_splat x2 y2 x3 y3 z3].
        -- repeat split; try apply Hrnd; apply Hr.
        -- split; [apply Hrnd|]. split; [apply Hrnd|]. split; [exact Hr|].
           apply random_speed; assumption.
      * cbn [app map stage_of repeat concat]. rewrite M. reflexivity.
Qed.

(** ** The colour helpers of the theme wrapper *)






(** [randInt] on whole numbers: rounding can take the sum up to the next
    whole number, and no further. *)
Lemma randInt_range (f : R -> R) (lo hi : Z) (r : R) :
  monotone_exact f -> (0 <= lo <= hi)%Z -> (hi < 2 ^ 52)%Z -> 0 <= r < 1 ->
  (lo <= randInt f (IZR lo) (IZR hi) r <= hi + 1)%Z.
Proof.
  intros [Hm He] Hlh Hhi Hr. unfold randInt.
  assert (P : (2 ^ 52 = 4503599627370496)%Z) by reflexivity.
  assert (Q : (2 ^ 53 = 9007199254740992)%Z) by reflexivity.
  rewrite <- minus_IZR, He by lia.
  replace (IZR (hi - lo) + 1) with (IZR (hi - lo + 1)) by (rewrite plus_IZR; reflexivity).
  rewrite He by lia.
  set (n := (hi - lo + 1)%Z).
  assert (Hn : 1 <= IZR n) by (apply IZR_le; unfold n; lia).
  assert (Ht : 0 <= f (r * IZR n) <= IZR n).
  { split.
    - rewrite <- (He 0%Z) by lia. apply Hm. cbn [IZR]. nra.
    - rewrite <- (He n) at 2 by (unfold n; lia). apply Hm. nra. }
  set (t := f (r * IZR n)) in *.
  assert (Hu : IZR lo <= f (IZR lo + t) <= IZR (hi + 1)).
  { split.
    - rewrite <- (He lo) at 1 by lia. apply Hm. lra.
    - rewrite <- (He (hi + 1)%Z) by lia. apply Hm.
      replace (hi + 1)%Z with (lo + n)%Z by (unfold n; lia). rewrite plus_IZR. lra. }
  split.
  - apply Zfloor_lub. apply Hu.
  - apply le_IZR. destruct (Zfloor_bound (f (IZR lo + t))) as [Hb _]. lra.
Qed.

(** ** The wrapper's calls of the engine *)

Lemma item_in_range {A : Type} (l : list A) (r : R) :
  l <> [] -> 0 <= r < 1 -> is_Some (item l (Zfloor (r * INR (length l)))).
Proof.
  intros Hl Hr. unfold item.
  assert (Hn : 0 < INR (length l)).
  { apply lt_0_INR. destruct l; [congruence | simpl; lia]. }
  assert (H0 : (0 <= Zfloor (r * INR (length l)))%Z).
  { apply Zfloor_lub. cbn [IZR]. nra. }
  assert (H1 : (Zfloor (r * INR (length l)) < Z.of_nat (length l))%Z).
  { apply lt_IZR. rewrite <- INR_IZR_INZ.
    destruct (Zfloor_bound (r * INR (length l))) as [Hb _].
    eapply Rle_lt_trans; [exact Hb|]. nra. }
  destruct (Z.ltb_spec (Zfloor (r * INR (length l))) 0); [lia|].
  destruct (nth_error l (Z.to_nat (Zfloor (r * INR (length l))))) eqn:E; [eauto|].
  apply nth_error_None in E. lia.
Qed.

Lemma seedAmbientLoop_wf (n : nat) (pal : list vec3) (rnd : nat -> R) (k : nat) (s : Sim) :
  wf s -> wf (fst (fst (seedAmbientLoop n pal rnd k s))).
Proof.
  revert k s. induction n as [|n IH]; intros k s Hwf; cbn [seedAmbientLoop]; [exact Hwf|].
  destruct (item pal _) as [c|]; [|exact Hwf].
  match goal with |- context [splatRandom 1 ?o ?r s] =>
    destruct (splatRandom_spec 1 o r s Hwf) as (s' & cmds & E & Hwf' & _); rewrite E
  end.
  apply IH. exact Hwf'.
Qed.

Lemma seedAmbientLoop_spec (n : nat) (pal : list vec3) (rnd : nat -> R) (k : nat)
    (s : Sim) :
  wf s -> pal <> [] -> (forall i, 0 <= rnd i < 1) ->
  exists s' cmds,
    seedAmbientLoop n pal rnd k s = (s', (k + 8 * n)%nat, None) /\
    wf s' /\ ran s s' cmds /\ length cmds = (2 * n)%nat /\
    lastT s' = lastT s /\ queued_frames s' = queued_frames s.
Proof.
  intros Hwf Hpal Hrnd. revert k s Hwf.
  induction n as [|n IH]; intros k s Hwf; cbn [seedAmbientLoop].
  - exists s, []. rewrite Nat.add_0_r. split; [reflexivity|]. split; [exact Hwf|].
    split; [apply ran_refl | auto].
  - destruct (item_in_range pal (rnd k) Hpal (Hrnd k)) as [c ->].
    match goal with |- context [splatRandom 1 ?o ?r s] =>
      destruct (splatRandom_spec 1 o r s Hwf) as (s1 & c1 & E & Hwf1 & R1 & L1 & T1 & Q1);
        rewrite E
    end.
    destruct (IH (k + 8)%nat s1 Hwf1) as (s' & cmds & E' & Hwf' & R & L & T & Q).
    exists s', (c1 ++ cmds). split; [rewrite E'; do 2 f_equal; lia|].
    split; [exact Hwf'|]. split; [exact (ran_trans _ _ _ _ _ R1 R)|].
    split; [rewrite length_app, L1, L; lia|]. split; congruence.
Qed.

Lemma splatBurst_spec (lo hi : Z) (opts : RandomOpts) (rnd : nat -> R) (th : Theme)
    (s : Sim) :
  sim th = Some s -> wf s -> (forall i, 0 <= rnd i < 1) -> (0 <= lo <= hi)%Z ->
  exists s' cmds n,
    splatBurst (IZR lo) (IZR hi) opts rnd th
    = Ok (with_sim s' (S (randoms th) + 5 * n)%nat th) /\
    wf s' /\ ran s s' cmds /\ length cmds = (2 * n)%nat /\
    n = Z.to_nat (randInt (fl s) (IZR lo) (IZR hi) (rnd (randoms th))) /\
    lastT s' = lastT s /\ queued_frames s' = queued_frames s.
Proof.
  intros Hs Hwf Hrnd Hlh. unfold splatBurst. rewrite Hs.
  set (n := Z.to_nat (randInt (fl s) (IZR lo) (IZR hi) (rnd (randoms th)))).
  match goal with |- context [splatRandom n opts ?r s] =>
    destruct (splatRandom_spec n opts r s Hwf) as (s' & cmds & E & Hwf' & R & L & T & Q);
      rewrite E
  end.
  cbn [mbind result_bind]. exists s', cmds, n.
  split; [reflexivity|]. split; [exact Hwf'|]. split; [exact R|]. split; [exact L|].
  split; [reflexivity | auto].
Qed.

Lemma splatBurst_none (lo hi : R) (opts : RandomOpts) (rnd : nat -> R) (th : Theme) :
  sim th = None -> splatBurst lo hi opts rnd th = Ok th.
Proof. intros H. unfold splatBurst. rewrite H. reflexivity. Qed.

Lemma splatBurst_ok (lo hi : R) (opts : RandomOpts) (rnd : nat -> R) (th : Theme) :
  theme_ok th ->
  exists th', splatBurst lo hi opts rnd th = Ok th' /\ theme_ok th' /\
              hooked th' = hooked th /\ pointer th' = pointer th.
Proof.
  intros [Ht Hs]. unfold splatBurst. destruct (sim th) as [s|] eqn:E.
  - match goal with |- context [splatRandom ?n opts ?r s] =>
      destruct (splatRandom_spec n opts r s Hs) as (s' & cmds & E' & Hwf' & _); rewrite E'
    end.
    cbn [mbind result_bind]. eexists. split; [reflexivity|].
    split; [split; [exact Ht | exact Hwf'] | auto].
  - exists th. split; [reflexivity|]. split; [|auto]. split; [exact Ht|]. rewrite E. exact Hs.
Qed.

Lemma finaleLoop_spec (n i : nat) (rnd : nat -> R) (th : Theme) (s : Sim) :
  sim th = Some s -> wf s ->
  exists s' cmds,
    finaleLoop n i rnd th = Ok (with_sim s' (randoms th + 90 * n)%nat th) /\
    wf s' /\ ran s s' cmds /\ length cmds = (36 * n)%nat /\
    lastT s' = lastT s /\ queued_frames s' = queued_frames s.
Proof.
  revert i th s. induction n as [|n IH]; intros i th s Hs Hwf; cbn [finaleLoop].
  - exists s, []. split.
    + f_equal. destruct th. cbn in *. rewrite Hs, Nat.add_0_r. reflexivity.
    + split; [exact Hwf|]. split; [apply ran_refl | auto].
  - assert (Hc : is_Some (nth_error hues (i mod length hues))).
    { destruct (nth_error hues (i mod length hues)) eqn:E; [eauto|].
      apply nth_error_None in E.
      pose proof (Nat.mod_upper_bound i (length hues)). cbn [hues length] in *. lia. }
    destruct Hc as [c ->]. rewrite Hs. cbn [deref mbind result_bind].
    match goal with |- context [splatRandom 18 ?o ?r s] =>
      destruct (splatRandom_spec 18 o r s Hwf) as (s1 & c1 & E & Hwf1 & R1 & L1 & T1 & Q1);
        rewrite E
    end.
    cbn [mbind result_bind].
    destruct (IH (S i) (with_sim s1 (randoms th + 5 * 18) th) s1 eq_refl Hwf1)
      as (s' & cmds & E' & Hwf' & R & L & T & Q).
    exists s', (c1 ++ cmds). split.
    + rewrite E'. f_equal. unfold with_sim. cbn. f_equal. lia.
    + split; [exact Hwf'|]. split; [exact (ran_trans _ _ _ _ _ R1 R)|].
      split; [rewrite length_app, L1, L; lia|]. split; congruence.
Qed.

(** ** The wrapper never lets an exception out *)

Lemma onNumberChange_ok (remaining : R) (rnd : nat -> R) (th : Theme) :
  theme_ok th ->
  exists th', onNumberChange remaining rnd th = Ok th' /\ theme_ok th' /\
              hooked th' = hooked th /\ pointer th' = pointer th.
Proof.
  intros H. unfold onNumberChange, splatMinute, splatStrong, splatSmall.
  repeat match goal with |- context [if ?c then _ else _] => destruct c end;
    apply splatBurst_ok; exact H.
Qed.

Lemma setTotalSeconds_ok (total : R) (th : Theme) :
  theme_ok th -> theme_ok (setTotalSeconds total th).
Proof.
  intros H. unfold setTotalSeconds. destruct (Rlt_dec 0 total); [|exact H].
  destruct H as [_ Hs]. split; [assumption | exact Hs].
Qed.

Lemma onWindowResize_ok (th : Theme) : theme_ok th -> theme_ok (onWindowResize th).
Proof.
  intros H. unfold onWindowResize. destruct (sim th) as [s|] eqn:E; [|exact H].
  destruct H as [Ht Hs]. rewrite E in Hs.
  split; [exact Ht | apply resize_wf; exact Hs].
Qed.

Lemma theme_dispatch_ok (rnd : nat -> R) (e : theme_event) (th : Theme) :
  theme_ok th -> exists th', theme_dispatch rnd e th = Ok th' /\ theme_ok th'.
Proof.
  intros H.
  destruct e as [now|remaining|total| | |bw bh|rect cx cy]; cbn [theme_dispatch].
  - destruct (sim th) as [s|] eqn:E; [|exists th; auto].
    destruct H as [Ht Hs]. rewrite E in Hs.
    destruct (dispatch_wf (AnimationFrame now) s Hs) as (s' & E' & Hwf').
    rewrite E'. cbn [mbind result_bind]. eexists. split; [reflexivity|].
    split; [exact Ht | exact Hwf'].
  - destruct (onNumberChange_ok remaining rnd th H) as (th' & E & H' & _).
    destruct (hooked th); eauto.
  - pose proof (setTotalSeconds_ok total th H) as K.
    destruct (hooked th); eauto.
  - destruct (hooked th) eqn:Hh; [|exists th; auto].
    destruct H as [Ht Hs].
    destruct (sim th) as [s|] eqn:E; [|destruct Hs; congruence].
    unfold onFinaleBurst.
    destruct (finaleLoop_spec 5 0 rnd th s E Hs) as (s' & cmds & E' & Hwf' & _).
    rewrite E'. eexists. split; [reflexivity|]. split; [exact Ht | exact Hwf'].
  - pose proof (onWindowResize_ok th H) as K.
    destruct (resizing th); eauto.
  - eexists. split; [reflexivity|].
    destruct (sim th) as [s|] eqn:E; [|exact H].
    destruct H as [Ht Hs]. rewrite E in Hs.
    split; [exact Ht | apply wf_set_canvas; exact Hs].
  - unfold pointermove. destruct (pointer th) as [[lx ly]|] eqn:P; [|exists th; auto].
    destruct H as [Ht Hs].
    destruct (sim th) as [s|] eqn:E; [|destruct Hs; congruence].
    cbn [deref mbind result_bind]. destruct Hs as (d & v & p & dv & Hwf).
    match goal with |- context [splat ?x ?y ?c ?r ?f s] =>
      destruct (splat_spec s d v p dv x y c r f Hwf) as (s' & E' & Hwf' & _); rewrite E'
    end.
    cbn [mbind result_bind]. eexists. split; [reflexivity|].
    split; [exact Ht | do 4 eexists; exact Hwf'].
Qed.

Lemma theme_run_ok (rnd : nat -> R) (es : list theme_event) (th : Theme) :
  theme_ok th -> exists th', theme_run rnd es th = Ok th' /\ theme_ok th'.
Proof.
  revert th. induction es as [|e es IH]; intros th H; cbn [theme_run].
  - exists th. auto.
  - destruct (theme_dispatch_ok rnd e th H) as (th1 & E1 & H1).
    rewrite E1. cbn [mbind result_bind]. apply IH. exact H1.
Qed.

Lemma theme0_total : 0 < totalSeconds theme0.
Proof. cbn [theme0 totalSeconds]. lra. Qed.

Lemma begin_ok (env : Env) (bw bh : Z) (now : R) (hid : bool) (rnd : nat -> R) :
  theme_ok (snd (begin env bw bh now hid rnd)).
Proof.
  unfold begin.
  destruct (initFluid env (Some 2) bw bh now hid) as [calls [s|msg]] eqn:E; cbn [snd].
  - assert (Hwf : wf s) by (eapply initFluid_wf; rewrite E; reflexivity).
    unfold seedAmbient. cbn [sim with_sim randoms].
    pose proof (seedAmbientLoop_wf 28 (if Rlt_dec (rnd 0%nat) 0.5 then cools else warms)
                  rnd 1 s Hwf) as Hwf'.
    destruct (seedAmbientLoop 28 _ rnd 1 s) as [[s' k'] [err|]]; cbn [fst] in Hwf';
      (split; [exact theme0_total | exact Hwf']).
  - split; [exact theme0_total|]. cbn. auto.
Qed.

(** What [begin] leaves when the engine could be constructed. *)
Lemma begin_seeded (env : Env) (bw bh : Z) (now : R) (hid : bool) (rnd : nat -> R)
    (s0 : Sim) :
  snd (initFluid env (Some 2) bw bh now hid) = Ok s0 -> (forall i, 0 <= rnd i < 1) ->
  exists s cmds,
    snd (begin env bw bh now hid rnd)
    = mkTheme (70 * 60) (Some s) true (Some (0.5, 0.5)) true 225 [] /\
    wf s /\ ran s0 s cmds /\ length cmds = 56%nat /\
    lastT s = lastT s0 /\ queued_frames s = queued_frames s0.
Proof.
  intros E Hrnd. pose proof (initFluid_wf _ _ _ _ _ _ _ E) as Hwf.
  unfold begin. destruct (initFluid env (Some 2) bw bh now hid) as [calls r].
  cbn [snd] in E. subst r. cbn [snd].
  unfold seedAmbient. cbn [sim with_sim randoms].
  destruct (seedAmbientLoop_spec 28 (if Rlt_dec (rnd 0%nat) 0.5 then cools else warms)
              rnd 1 s0 Hwf) as (s & cmds & Es & Hwf' & R & L & T & Q);
    [destruct (Rlt_dec (rnd 0%nat) 0.5); discriminate | exact Hrnd |].
  rewrite Es. exists s, cmds. split; [reflexivity|]. auto.
Qed.

(** ** Frames on a fluid at rest *)

Lemma scale4_scale4 (a b : R) (v : vec4) : scale4 a (scale4 b v) = scale4 (a * b) v.
Proof. unfold scale4. cbn [vx vy vz vw]. f_equal; ring. Qed.

Lemma scale4_1 (v : vec4) : scale4 1 v = v.
Proof. destruct v. unfold scale4. cbn [vx vy vz vw]. f_equal; ring. Qed.

Lemma frames_fade (nows : list R) (s : Sim) :
  steady s ->
  exists s',
    run (map AnimationFrame nows) s = Ok s' /\ steady s' /\
    width s' = width s /\ height s' = height s /\
    forall i j, in_grid s i j ->
      dye_at s' i j = scale4 (clearDye ^ length nows) (dye_at s i j).
Proof.
  revert s. induction nows as [|now nows IH]; intros s Hs; cbn [map run length pow].
  - exists s. split; [reflexivity|]. split; [exact Hs|]. split; [reflexivity|].
    split; [reflexivity|]. intros i j _. symmetry. apply scale4_1.
  - destruct Hs as (Hwf & Hc & Hrest & Hq). cbn [dispatch].
    destruct (queued_frames s) as [|n] eqn:Eq; [congruence|].
    pose proof (wf_set_queued n s Hwf) as (d & v & p & dv & H).
    destruct (step_spec _ d v p dv now H)
      as (s1 & d' & v' & p' & cmds & E & H' & R & _ & Q & _ & _ & _ & _ & _ & C).
    destruct (C Hc Hrest) as [Hrest' Hdye].
    rewrite E. cbn [mbind result_bind].
    assert (Hs1 : steady s1).
    { split; [do 4 eexists; exact H'|]. split; [exact (capable_ran _ _ _ R Hc)|].
      split; [exact Hrest'|]. rewrite Q. discriminate. }
    destruct (IH s1 Hs1) as (s' & E' & Hs' & W & Hh & F).
    exists s'. split; [exact E'|]. split; [exact Hs'|].
    pose proof (ran_width _ _ _ R) as W1. pose proof (ran_height _ _ _ R) as H1.
    cbn [width height set_queued] in W1, H1.
    split; [congruence|]. split; [congruence|].
    intros i j Hij.
    rewrite F by (unfold in_grid in *; rewrite W1, H1; exact Hij).
    rewrite Hdye by exact Hij.
    rewrite scale4_scale4. f_equal. ring.
Qed.

Lemma ensureAndStart_ok (defined loads : bool) (env : Env) (bw bh : Z) (now : R)
    (hid : bool) (rnd : nat -> R) :
  theme_ok (snd (ensureAndStart defined loads env bw bh now hid rnd)).
Proof.
  unfold ensureAndStart. destruct defined; [apply begin_ok|].
  destruct loads; [apply begin_ok|].
  split; [exact theme0_total | cbn; auto].
Qed.

(** * The claims *)

(** C1.  The time step of a frame is the minimum of 0.032 s and the wall
    time elapsed since the previous frame callback, whatever was called
    in between; so it never exceeds 0.032 s.  [t0] and [t1] are the
    values of [performance.now()], in milliseconds, at two successive
    frame callbacks; the time step is the [uDt] uniform of the two
    advection draws of the second frame. *)
Theorem step_dt_clamped (s : Sim) (t0 t1 : R) (between : list event) :
  wf s -> Forall is_call between ->
  exists s1 s1' s2 cmds,
    step t0 s = Ok s1 /\ run between s1 = Ok s1' /\ step t1 s1' = Ok s2 /\
    log (gl s2) = log (gl s1') ++ cmds /\
    advect_dts cmds = [Rmin 0.032 ((t1 - t0) / 1000); Rmin 0.032 ((t1 - t0) / 1000)] /\
    Rmin 0.032 ((t1 - t0) / 1000) <= 0.032.
Proof.
  intros (d & v & p & dv & Hwf) Hcalls.
  destruct (step_spec s d v p dv t0 Hwf)
    as (s1 & d1 & v1 & p1 & cmds1 & E1 & Hwf1 & _ & T1 & _).
  destruct (run_calls between s1) as (s1' & Eb & (d2 & v2 & p2 & dv2 & Hwf1') & Tb & _);
    [do 4 eexists; exact Hwf1 | exact Hcalls |].
  destruct (step_spec s1' d2 v2 p2 dv2 t1 Hwf1')
    as (s2 & d3 & v3 & p3 & cmds & E2 & _ & R2 & _ & _ & A & _).
  exists s1, s1', s2, cmds.
  split; [exact E1|]. split; [exact Eb|]. split; [exact E2|].
  split; [apply (ran_log _ _ _ R2)|].
  split; [rewrite A, Tb, T1; reflexivity|].
  apply Rmin_l.
Qed.

Lemma step_dt_clamped_witness :
  exists s1 s1' s2 cmds,
    step 0 demo = Ok s1 /\
    run [CallSplat 0.5 0.5 (mk3 1 0 0) None None; CallResize] s1 = Ok s1' /\
    step 5000 s1' = Ok s2 /\
    log (gl s2) = log (gl s1') ++ cmds /\
    advect_dts cmds = [Rmin 0.032 ((5000 - 0) / 1000); Rmin 0.032 ((5000 - 0) / 1000)] /\
    Rmin 0.032 ((5000 - 0) / 1000) <= 0.032.
Proof.
  apply (step_dt_clamped demo 0 5000
           [CallSplat 0.5 0.5 (mk3 1 0 0) None None; CallResize]).
  - exact demo_wf.
  - repeat constructor.
Defined.

(** C2, on the code.  The pressure solve clears the pressure and then
    draws the pressure program exactly 15 times, and a frame does this
    once.  But every one of these draws is issued with [uTexel] = (0, 0),
    the value the engine's texel array holds in every state, so the four
    samples L, R, B and T of the program are all taken at the cell
    itself: a draw computes (p + p + p + p - div) * 0.25 from the cell's
    own pressure, not from its four neighbours.  What the solve leaves in
    a cell is the 15-fold iterate of that from 0, whatever the pressure
    was before; it is zero where the divergence is zero. *)
Theorem solvePressure_in_place (s : Sim) (now : R) :
  wf s -> capable s ->
  exists s' target cmds,
    solvePressure s = Ok s' /\
    log (gl s') = log (gl s) ++ Clear target :: cmds /\
    length cmds = 15%nat /\ pressure_draws cmds = 15%nat /\
    Forall (fun c => exists t np nd, c = DrawArrays t (Pressure np nd (mk2 0 0))) cmds /\
    (forall i j, in_grid s i j ->
       pressure_at s' i j
       = Nat.iter 15 (fun q => (q + q + q + q - divergence_at s i j) * 0.25) 0) /\
    ((forall i j, in_grid s i j -> divergence_at s i j = 0) ->
     forall i j, in_grid s i j -> pressure_at s' i j = 0) /\
    (exists s'' frame,
       step now s = Ok s'' /\ log (gl s'') = log (gl s) ++ frame /\
       clears frame = 1%nat /\ pressure_draws frame = 15%nat).
Proof.
  intros (d & v & p & dv & Hwf) Hc.
  destruct (solvePressure_spec s d v p dv Hwf)
    as (s' & cmds & E & Hwf' & R & L & J & T & Q & F & C).
  exists s', (Some (fbo (write p))), cmds.
  split; [exact E|].
  split; [apply (ran_log _ _ _ R)|].
  split; [exact L|].
  split; [destruct (pressure_draws_all _ _ _ _ J) as [-> _]; exact L|].
  split.
  { eapply Forall_impl; [exact J|].
    intros c (t & np & -> & _). rewrite (wf_texel _ _ _ _ _ Hwf). eauto. }
  split.
  { intros i j [Hi Hj]. rewrite (C Hc i j Hi Hj). apply relax_iter_cell. }
  split.
  - intros Hdiv i j [Hi Hj]. rewrite (C Hc i j Hi Hj).
    apply (relax_iter_zero (width s) (height s)); try assumption.
    intros a b Ha Hb. apply Hdiv. split; assumption.
  - destruct (step_spec s d v p dv now Hwf)
      as (s'' & d' & v' & p' & frame & E' & _ & R' & _ & _ & _ & _ & PD & CL & _).
    exists s'', frame.
    split; [exact E'|]. split; [apply (ran_log _ _ _ R')|]. split; assumption.
Qed.

Lemma solvePressure_in_place_witness :
  exists s' target cmds,
    solvePressure stirred = Ok s' /\
    log (gl s') = log (gl stirred) ++ Clear target :: cmds /\
    length cmds = 15%nat /\ pressure_draws cmds = 15%nat /\
    Forall (fun c => exists t np nd, c = DrawArrays t (Pressure np nd (mk2 0 0))) cmds /\
    (forall i j, in_grid stirred i j ->
       pressure_at s' i j
       = Nat.iter 15 (fun q => (q + q + q + q - divergence_at stirred i j) * 0.25) 0) /\
    ((forall i j, in_grid stirred i j -> divergence_at stirred i j = 0) ->
     forall i j, in_grid stirred i j -> pressure_at s' i j = 0) /\
    (exists s'' frame,
       step 16 stirred = Ok s'' /\ log (gl s'') = log (gl stirred) ++ frame /\
       clears frame = 1%nat /\ pressure_draws frame = 15%nat).
Proof.
  apply (solvePressure_in_place stirred 16);
    [exact (proj1 stirred_spec) | exact (proj1 (proj2 stirred_spec))].
Defined.

(** Against C3 as stated: on the example page, after [destroy], a splat
    still issues its two draw calls, and the frame callback that was
    queued is still queued. *)
Lemma destroy_counterexample :
  queued_frames (destroy demo) = 1%nat /\
  exists s',
    splat 0.5 0.5 (mk3 1 0 0) None None (destroy demo) = Ok s' /\
    length (log (gl s')) = (length (log (gl (destroy demo))) + 2)%nat.
Proof.
  destruct (destroy_frame demo) as (_ & Q & _).
  destruct demo_spec as (d & v & p & dv & Hwf & _ & _ & _ & _ & _ & Qd & _).
  split; [congruence|].
  destruct (destroy_wf demo demo_wf) as (d' & v' & p' & dv' & Hwf').
  destruct (splat_spec (destroy demo) d' v' p' dv' 0.5 0.5 (mk3 1 0 0) None None Hwf')
    as (s' & E & _ & R & _).
  exists s'. split; [exact E|].
  rewrite (ran_log _ _ _ R), length_app. reflexivity.
Qed.

(** C3, amended.  After [destroy] no call on the handle throws: [splat],
    [splatRandom], [resize], a second [destroy], in any number and
    order.  [destroy] takes the canvas out of its parent, and it does not
    unschedule the frame loop: a frame callback that was queued is still
    queued, and when it runs it returns and queues the next one. *)
Theorem destroy_spec (s : Sim) :
  wf s ->
  parentNode (canvas (destroy s)) = false /\
  queued_frames (destroy s) = queued_frames s /\
  (forall es, exists s', run es (destroy s) = Ok s') /\
  (forall now, queued_frames s <> 0%nat ->
     exists s',
       dispatch (AnimationFrame now) (destroy s) = Ok s' /\
       queued_frames s' = queued_frames s).
Proof.
  intros Hwf. destruct (destroy_frame s) as (G & Q & _ & P).
  pose proof (destroy_wf s Hwf) as Hwf'.
  split; [exact P|]. split; [exact Q|].
  split.
  { intros es. destruct (run_wf es (destroy s) Hwf') as (s' & E & _). eauto. }
  intros now Hq. cbn [dispatch]. rewrite Q.
  destruct (queued_frames s) as [|n] eqn:Eq; [congruence|].
  pose proof (wf_set_queued n (destroy s) Hwf') as (d & v & p & dv & H).
  destruct (step_spec _ d v p dv now H)
    as (s' & d' & v' & p' & cmds & E & _ & _ & _ & Q' & _).
  exists s'. split; [exact E | exact Q'].
Qed.

Lemma destroy_spec_witness :
  parentNode (canvas (destroy demo)) = false /\
  queued_frames (destroy demo) = queued_frames demo /\
  (forall es, exists s', run es (destroy demo) = Ok s') /\
  (forall now, queued_frames demo <> 0%nat ->
     exists s',
       dispatch (AnimationFrame now) (destroy demo) = Ok s' /\
       queued_frames s' = queued_frames demo).
Proof. apply (destroy_spec demo). exact demo_wf. Defined.

(** Against C4 as stated: on the example page, after a splat at the
    centre of the cell (1, 1), [resize] with an unchanged container
    returns at its size test and the dye is still there: the cell holds
    the colour of the splat with its full weight. *)
Lemma resize_keeps_dye_counterexample :
  exists s1,
    splat 0.375 0.5 (mk3 1 0 0) None None demo = Ok s1 /\
    resize s1 = s1 /\
    dye_at (resize s1) 1 1 = mk4 1 0 0 1.
Proof.
  destruct demo_spec
    as (d & v & p & dv & Hwf & Hc & _ & W & H & _ & _ & _ & _ & _ & _ & _ & Zd & _).
  destruct (splat_spec demo d v p dv 0.375 0.5 (mk3 1 0 0) None None Hwf)
    as (s1 & E & Hwf1 & R & _ & _ & D & _).
  exists s1. split; [exact E|].
  assert (Es : resize s1 = s1).
  { unfold resize. rewrite setSize_same; [reflexivity | |].
    - destruct (requested_size_ran _ _ _ R) as [-> _].
      rewrite (ran_width _ _ _ R), W. apply demo_requested_size.
    - destruct (requested_size_ran _ _ _ R) as [_ ->].
      rewrite (ran_height _ _ _ R), H. apply demo_requested_size. }
  split; [exact Es|]. rewrite Es.
  rewrite (D Hc 1%Z 1%Z) by (unfold in_grid; rewrite W, H; lia).
  rewrite Zd, W, H. unfold splat_dye.
  replace (fragUv (4%Z, 3%Z) 1 1) with (mk2 0.375 0.5)
    by (unfold fragUv; cbn [fst snd]; f_equal; lra).
  rewrite falloff_centre. apply vec4_eq; cbn [add4 vx vy vz vw x3 y3 z3]; lra.
Qed.

(** C4, amended.  After [resize] all seven textures have the size it asks
    for: the client box of the canvas times the capped device pixel
    ratio (the product of two doubles, a double), rounded down and at
    least 2 in each direction.  When that
    differs from the current size, every field is a newly allocated
    texture reading zero everywhere, the former contents being dropped;
    when it equals the current size, [resize] changes nothing. *)
Theorem resize_spec (s : Sim) :
  wf s ->
  fields_sized (resize s) /\
  width (resize s) = requested_width s /\ height (resize s) = requested_height s /\
  (requested_width s <> width s \/ requested_height s <> height s ->
   fields_blank (resize s)) /\
  (requested_width s = width s /\ requested_height s = height s -> resize s = s).
Proof.
  intros Hwf.
  split; [apply wf_fields_sized, resize_wf; exact Hwf|].
  unfold resize.
  destruct (Z.eq_dec (requested_width s) (width s)) as [Ew|Nw];
    [destruct (Z.eq_dec (requested_height s) (height s)) as [Eh|Nh]|].
  - rewrite setSize_same by assumption. cbn [snd].
    split; [congruence|]. split; [congruence|].
    split; [intros [N|N]; contradiction | reflexivity].
  - destruct (setSize_alloc s)
      as (s' & d & v & p & dv & E & _ & W & H & _ & _ & _ & _ & _ & _ & _ & _ & _ & _
            & Zd & Zv & Zp & Zdv & _); [right; exact Nh|].
    rewrite E. cbn [snd]. split; [exact W|]. split; [exact H|].
    split; [intros _ i j; auto | intros [_ Eh]; contradiction].
  - destruct (setSize_alloc s)
      as (s' & d & v & p & dv & E & _ & W & H & _ & _ & _ & _ & _ & _ & _ & _ & _ & _
            & Zd & Zv & Zp & Zdv & _); [left; exact Nw|].
    rewrite E. cbn [snd]. split; [exact W|]. split; [exact H|].
    split; [intros _ i j; auto | intros [Ew _]; contradiction].
Qed.

Lemma resize_spec_witness :
  fields_sized (resize (layout 8 6 stirred)) /\
  width (resize (layout 8 6 stirred)) = requested_width (layout 8 6 stirred) /\
  height (resize (layout 8 6 stirred)) = requested_height (layout 8 6 stirred) /\
  (requested_width (layout 8 6 stirred) <> width (layout 8 6 stirred) \/
   requested_height (layout 8 6 stirred) <> height (layout 8 6 stirred) ->
   fields_blank (resize (layout 8 6 stirred))) /\
  (requested_width (layout 8 6 stirred) = width (layout 8 6 stirred) /\
   requested_height (layout 8 6 stirred) = height (layout 8 6 stirred) ->
   resize (layout 8 6 stirred) = layout 8 6 stirred).
Proof.
  apply (resize_spec (layout 8 6 stirred)).
  apply wf_set_canvas. exact (proj1 stirred_spec).
Defined.

(** C5.  Start from a constructed engine with the fluid at rest and a
    frame callback queued (what [initFluid] returns on a capable
    context), and let any number of frames pass, each being the frame
    callback followed by splats that apply no force.  For the next such
    frame, the total dye at its end (when the following callback is due)
    is the total dye at its start times the dissipation factor 0.995, plus
    the dye mass its splats inject, channel by channel; exactly so, since
    rounding is not modelled. *)
Theorem dye_budget (s0 : Sim) (past : list (R * list splat_call))
    (frame : R * list splat_call) :
  steady s0 ->
  Forall (fun f => Forall forceless (snd f)) past ->
  Forall forceless (snd frame) ->
  exists sk sk1,
    run (concat (map frame_events past)) s0 = Ok sk /\
    run (frame_events frame) sk = Ok sk1 /\
    dye_mass sk1
    = add4 (scale4 0.995 (dye_mass sk)) (injected (width sk) (height sk) (snd frame)).
Proof.
  intros Hs Hp Hf.
  destruct (frames_steady past s0 Hs Hp) as (sk & Ek & Hsk & _).
  destruct (frame_budget frame sk Hsk Hf) as (sk1 & E1 & _ & _ & _ & M).
  exists sk, sk1. split; [exact Ek|]. split; [exact E1|]. exact M.
Qed.

Lemma dye_budget_witness :
  exists sk sk1,
    run (concat (map frame_events
                   [(16, [mkSplatCall 0.5 0.5 (mk3 1 0 0) None None]); (32, [])])) demo
    = Ok sk /\
    run (frame_events (48, [mkSplatCall 0.25 0.75 (mk3 0 1 0) (Some 0.03)
                                        (Some (mk2 0 0))])) sk
    = Ok sk1 /\
    dye_mass sk1
    = add4 (scale4 0.995 (dye_mass sk))
           (injected (width sk) (height sk)
              [mkSplatCall 0.25 0.75 (mk3 0 1 0) (Some 0.03) (Some (mk2 0 0))]).
Proof.
  apply (dye_budget demo
           [(16, [mkSplatCall 0.5 0.5 (mk3 1 0 0) None None]); (32, [])]
           (48, [mkSplatCall 0.25 0.75 (mk3 0 1 0) (Some 0.03) (Some (mk2 0 0))])).
  - exact demo_steady.
  - repeat constructor.
  - constructor; [|constructor].
    unfold forceless, splat_force, num_or. cbn [push x2 y2].
    destruct (Req_dec_T 0 0); reflexivity.
Defined.

(** C6.  A call of [splat] with the force left out leaves every cell of
    the velocity field as it was (the velocity pass still runs, adding a
    contribution of zero); pressure and divergence are not touched, and
    the dye receives the Gaussian contribution.  The context is assumed
    able to render to half-float textures. *)
Theorem splat_without_force (s : Sim) (x y : R) (c : vec3) (radius : option R) :
  wf s -> capable s ->
  exists s',
    splat x y c radius None s = Ok s' /\
    (forall i j, in_grid s i j -> velocity_at s' i j = velocity_at s i j) /\
    (forall i j, pressure_at s' i j = pressure_at s i j) /\
    (forall i j, divergence_at s' i j = divergence_at s i j) /\
    (forall i j, in_grid s i j ->
       dye_at s' i j
       = add4 (dye_at s i j) (splat_dye (width s) (height s) x y c radius i j)).
Proof.
  intros (d & v & p & dv & Hwf) Hc.
  destruct (splat_spec s d v p dv x y c radius None Hwf)
    as (s' & E & Hwf' & R & T & Q & D & V & F & _).
  exists s'. split; [exact E|].
  split.
  { intros i j Hij. rewrite (V Hc i j Hij). apply add2_zero_force. }
  split.
  { intros i j. unfold pressure_at.
    rewrite (wf_pressure _ _ _ _ _ Hwf'), (wf_pressure _ _ _ _ _ Hwf).
    cbn [field_at]. rewrite (texels_other (gl s) (gl s')); [reflexivity|].
    apply F; clear - Hwf; distinct Hwf. }
  split.
  { intros i j.
    rewrite (divergence_at_eq s' dv), (divergence_at_eq s dv);
      [| apply (wf_divergence _ _ _ _ _ Hwf) | apply (wf_divergence _ _ _ _ _ Hwf')].
    rewrite (texels_other (gl s) (gl s')); [reflexivity|].
    apply F; clear - Hwf; distinct Hwf. }
  exact (D Hc).
Qed.

Lemma splat_without_force_witness :
  exists s',
    splat 0.5 0.5 (mk3 1 0 0) (Some 0.04) None demo = Ok s' /\
    (forall i j, in_grid demo i j -> velocity_at s' i j = velocity_at demo i j) /\
    (forall i j, pressure_at s' i j = pressure_at demo i j) /\
    (forall i j, divergence_at s' i j = divergence_at demo i j) /\
    (forall i j, in_grid demo i j ->
       dye_at s' i j
       = add4 (dye_at demo i j)
              (splat_dye (width demo) (height demo) 0.5 0.5 (mk3 1 0 0) (Some 0.04) i j)).
Proof.
  apply (splat_without_force demo 0.5 0.5 (mk3 1 0 0) (Some 0.04)).
  - exact demo_wf.
  - exact demo_capable.
Defined.

(** Against C7 as stated: with WebGL2 but neither floating-point
    extension, construction does not fail. *)
Lemma init_without_extensions_counterexample :
  EXT_color_buffer_float bare_env = false /\
  OES_texture_float_linear bare_env = false /\
  exists s, snd (initFluid bare_env None 4 3 0 false) = Ok s.
Proof.
  split; [reflexivity|]. split; [reflexivity|].
  destruct (initFluid_ok bare_env None 4 3 0 false) as (s & d & v & p & dv & E & _);
    [reflexivity | reflexivity |].
  exists s. rewrite E. reflexivity.
Qed.

(** C7, amended.  Construction throws when the page has no WebGL2
    context: the context was asked for once, nothing of the engine
    exists and no frame is queued.  With a context and programs that
    compile and link it returns a constructed engine with one frame
    queued, whether or not the two floating-point extensions are there:
    they are asked for and the answer is not looked at (only the
    context remembers whether it can render to half-float textures). *)
Theorem initFluid_outcome (env : Env) (maxDPR : option R) (bw bh : Z) (now : R)
    (hid : bool) :
  context_requests (fst (initFluid env maxDPR bw bh now hid)) = 1%nat /\
  (webgl2 env = false ->
   initFluid env maxDPR bw bh now hid
   = ([AppendChild; GetContext], Throw "WebGL2 not supported")) /\
  (webgl2 env = true -> programs env = Ok tt ->
   exists s,
     snd (initFluid env maxDPR bw bh now hid) = Ok s /\ wf s /\
     queued_frames s = 1%nat /\
     color_buffer_float (gl s) = EXT_color_buffer_float env).
Proof.
  split; [|split].
  - unfold initFluid, createGL. destruct (webgl2 env); reflexivity.
  - intros Hgl. unfold initFluid, createGL. rewrite Hgl. reflexivity.
  - intros Hgl Hprg.
    destruct (initFluid_ok env maxDPR bw bh now hid Hgl Hprg)
      as (s & d & v & p & dv & E & Hwf & _ & _ & _ & _ & _ & _ & Q & C & _).
    exists s. rewrite E. split; [reflexivity|].
    split; [exists d, v, p, dv; exact Hwf|]. split; assumption.
Qed.

(** C8, on the code.  The frame callback does not look at
    [document.hidden]: with the page hidden and a callback queued, it
    runs the 23 commands of the pipeline and queues itself again, and a
    visibility change only flips the flag. *)
Theorem hidden_frame_runs (s : Sim) (now : R) :
  wf s -> queued_frames s <> 0%nat ->
  exists s1 s' cmds,
    dispatch (VisibilityChange true) s = Ok s1 /\ hidden s1 = true /\
    dispatch (AnimationFrame now) s1 = Ok s' /\
    log (gl s') = log (gl s) ++ cmds /\ length cmds = 23%nat /\
    pressure_draws cmds = 15%nat /\
    hidden s' = true /\ queued_frames s' = queued_frames s.
Proof.
  intros Hwf Hq. exists (set_hidden true s).
  pose proof (wf_set_hidden true s Hwf) as Hwf1.
  cbn [dispatch]. cbn [queued_frames set_hidden].
  destruct (queued_frames s) as [|n] eqn:Eq; [congruence|].
  pose proof (wf_set_queued n _ Hwf1) as (d & v & p & dv & H).
  destruct (step_spec _ d v p dv now H)
    as (s' & d' & v' & p' & cmds & E & _ & R & _ & Q' & _ & L & PD & _).
  exists s', cmds. split; [reflexivity|]. split; [reflexivity|].
  split; [exact E|].
  split; [apply (ran_log _ _ _ R)|]. split; [exact L|]. split; [exact PD|].
  split; [apply (ran_hidden _ _ _ R) | exact Q'].
Qed.

Lemma hidden_frame_runs_witness :
  exists s1 s' cmds,
    dispatch (VisibilityChange true) demo = Ok s1 /\ hidden s1 = true /\
    dispatch (AnimationFrame 16) s1 = Ok s' /\
    log (gl s') = log (gl demo) ++ cmds /\ length cmds = 23%nat /\
    pressure_draws cmds = 15%nat /\
    hidden s' = true /\ queued_frames s' = queued_frames demo.
Proof.
  apply (hidden_frame_runs demo 16).
  - exact demo_wf.
  - destruct demo_spec as (d & v & p & dv & _ & _ & _ & _ & _ & _ & Q & _).
    rewrite Q. discriminate.
Defined.

(** C9.  Take any double buffer, as [createDoubleFBO] makes it, after any
    number of swaps.  Its read and write sides name two different
    textures, both allocated, and the framebuffer of each side renders
    into the texture of the same side.  [swap] exchanges the texture and
    framebuffer names of the two sides and nothing else: the engine's
    swaps leave the GL context, and so every texel, as it is.  And in a
    constructed engine every draw of a frame and of a splat renders into
    a texture that the pass does not sample. *)
Theorem double_buffer_separate (w h : Z) (f : format) (flt : filter) (g : GL) (n : nat) :
  let d := Nat.iter n swap (fst (createDoubleFBO w h f flt g)) in
  let g' := snd (createDoubleFBO w h f flt g) in
  (tex (read d) <> tex (write d) /\
   framebuffers g' !! fbo (read d) = Some (tex (read d)) /\
   framebuffers g' !! fbo (write d) = Some (tex (write d)) /\
   is_Some (textures g' !! tex (read d)) /\ is_Some (textures g' !! tex (write d))) /\
  (tex (read (swap d)) = tex (write d) /\ fbo (read (swap d)) = fbo (write d) /\
   tex (write (swap d)) = tex (read d) /\ fbo (write (swap d)) = fbo (read d)) /\
  (forall s : Sim,
     swap_dye (set_dye d s) = Ok (set_dye (swap d) s) /\
     swap_velocity (set_velocity d s) = Ok (set_velocity (swap d) s) /\
     swap_pressure (set_pressure d s) = Ok (set_pressure (swap d) s) /\
     gl (set_dye (swap d) s) = gl s /\ gl (set_velocity (swap d) s) = gl s /\
     gl (set_pressure (swap d) s) = gl s) /\
  (forall (s : Sim) (now : R), wf s ->
     exists s' cmds,
       step now s = Ok s' /\ log (gl s') = log (gl s) ++ cmds /\
       Forall (no_feedback (gl s)) cmds) /\
  (forall (s : Sim) x y c radius force, wf s ->
     exists s' cmds,
       splat x y c radius force s = Ok s' /\ log (gl s') = log (gl s) ++ cmds /\
       Forall (no_feedback (gl s)) cmds).
Proof.
  intros d g'. split; [|split; [|split; [|split]]].
  - subst d g'. induction n as [|n IH].
    + rewrite createDoubleFBO_eq. unfold read, write.
      cbn [Nat.iter nat_rect fst snd fbo1 fbo2 tex fbo framebuffers textures].
      split; [lia|].
      split; [rewrite lookup_insert_ne by lia; apply lookup_insert_eq|].
      split; [apply lookup_insert_eq|].
      split; [rewrite lookup_insert_ne by lia; rewrite lookup_insert_eq; eexists; reflexivity|].
      rewrite lookup_insert_eq. eexists; reflexivity.
    + rewrite Nat.iter_succ. apply swap_keeps_link. exact IH.
  - repeat split.
  - intros s. repeat split.
  - intros s now (d0 & v0 & p0 & dv0 & Hwf).
    destruct (step_spec s d0 v0 p0 dv0 now Hwf)
      as (s' & d' & v' & p' & cmds & E & _ & R & _ & _ & _ & _ & _ & _ & NF & _).
    exists s', cmds. split; [exact E|]. split; [apply (ran_log _ _ _ R) | exact NF].
  - intros s x y c radius force (d0 & v0 & p0 & dv0 & Hwf).
    destruct (splat_spec s d0 v0 p0 dv0 x y c radius force Hwf)
      as (s' & E & _ & R & _ & _ & _ & _ & _ & N1 & N2).
    exists s'. eexists. split; [exact E|]. split; [apply (ran_log _ _ _ R)|].
    repeat constructor; assumption.
Qed.

(** C10, on the code.  In every state of an engine that was constructed,
    after any calls, resizes and layout changes, all seven textures have
    the current width and height, both at least 2, also for a canvas
    without client box (as after a layout of 0 by 0); so the texel size
    (1 / width, 1 / height) of the grid is positive and at most 0.5.  But
    the texel size the engine stores, and hands to its programs as
    [uTexel], is (0, 0) in every one of these states: the call
    [texel.set(1 / width, 1 / height)] of [setSize] copies nothing into
    the array created as [0, 0]. *)
Theorem texel_stays_zero (env : Env) (maxDPR : option R) (bw bh : Z) (now : R)
    (hid : bool) (s0 s : Sim) (es : list event) :
  snd (initFluid env maxDPR bw bh now hid) = Ok s0 ->
  run es s0 = Ok s ->
  fields_sized s /\ (2 <= width s)%Z /\ (2 <= height s)%Z /\
  0 < 1 / IZR (width s) <= 0.5 /\ 0 < 1 / IZR (height s) <= 0.5 /\
  texel s = mk2 0 0 /\
  texel s <> mk2 (1 / IZR (width s)) (1 / IZR (height s)) /\
  (2 <= width (resize (layout 0 0 s)))%Z /\ (2 <= height (resize (layout 0 0 s)))%Z.
Proof.
  intros E0 E.
  pose proof (initFluid_wf _ _ _ _ _ _ _ E0) as Hwf0.
  destruct (run_wf es s0 Hwf0) as (s' & E' & Hwf). rewrite E in E'. inversion E'; subst s'.
  split; [apply wf_fields_sized; exact Hwf|].
  destruct (texel_stored s Hwf) as (Ht & Bx & By).
  pose proof Hwf as (d & v & p & dv & []).
  repeat (split; [assumption|]).
  split.
  { rewrite Ht. intros Heq. apply (f_equal x2) in Heq. cbn [x2] in Heq. lra. }
  destruct (resize_size (layout 0 0 s)) as [-> ->].
  split; apply requested_width_ge_2 || (unfold requested_height; lia).
Qed.

Lemma texel_stays_zero_witness :
  fields_sized (resize (layout 0 0 demo)) /\
  (2 <= width (resize (layout 0 0 demo)))%Z /\
  (2 <= height (resize (layout 0 0 demo)))%Z /\
  0 < 1 / IZR (width (resize (layout 0 0 demo))) <= 0.5 /\
  0 < 1 / IZR (height (resize (layout 0 0 demo))) <= 0.5 /\
  texel (resize (layout 0 0 demo)) = mk2 0 0 /\
  texel (resize (layout 0 0 demo))
  <> mk2 (1 / IZR (width (resize (layout 0 0 demo))))
         (1 / IZR (height (resize (layout 0 0 demo)))) /\
  (2 <= width (resize (layout 0 0 (resize (layout 0 0 demo)))))%Z /\
  (2 <= height (resize (layout 0 0 (resize (layout 0 0 demo)))))%Z.
Proof.
  apply (texel_stays_zero demo_env None 4 3 0 false demo
           (resize (layout 0 0 demo)) [Layout 0 0; CallResize]).
  - rewrite demo_init. reflexivity.
  - reflexivity.
Defined.

(** * Further properties of the engine *)

(** X1.  [initFluid] returns a handle exactly when the page gives a
    WebGL2 context, the vertex shader and the nine fragment shaders
    compile and the nine programs link; in every other case it throws.
    Either way the canvas was appended to the container first. *)
Theorem initFluid_returns_iff (env : Env) (maxDPR : option R) (bw bh : Z) (now : R)
    (hid : bool) :
  ((exists s, snd (initFluid env maxDPR bw bh now hid) = Ok s)
   <-> webgl2 env = true /\ compiles env BaseVert = true /\
       Forall (fun f => compiles env f = true /\ links env f = true) fragment_shaders) /\
  ((forall s, snd (initFluid env maxDPR bw bh now hid) <> Ok s)
   <-> exists msg, snd (initFluid env maxDPR bw bh now hid) = Throw msg) /\
  head (fst (initFluid env maxDPR bw bh now hid)) = Some AppendChild.
Proof.
  split; [|split].
  - split.
    + intros [s E]. destruct (initFluid_inv _ _ _ _ _ _ _ E) as [Hgl Hprg].
      apply programs_ok_iff in Hprg. tauto.
    + intros (Hgl & Hv & Hf).
      destruct (initFluid_ok env maxDPR bw bh now hid Hgl) as (s & d & v & p & dv & E & _).
      { apply programs_ok_iff. auto. }
      exists s. rewrite E. reflexivity.
  - destruct (snd (initFluid env maxDPR bw bh now hid)) as [s|msg].
    + split; [intros H; destruct (H s); reflexivity | intros [msg H]; discriminate].
    + split; [intros _; exists msg; reflexivity | intros _ s; discriminate].
  - unfold initFluid, createGL. destruct (webgl2 env); reflexivity.
Qed.

(** X2.  The engine [initFluid] returns has the device pixel ratio
    min(devicePixelRatio || 1, maxDPR || 2), the arithmetic of the page,
    a grid of max(2, floor(box * ratio)) cells each way (the product
    being the double it is rounded to), the canvas resized to the grid,
    all fields reading zero, the time of construction as the time of the
    last frame and one frame callback queued.  The GPU work of the
    construction is the allocation of seven textures of the grid's size:
    two RGBA16F, two RG16F, three R16F; nothing is drawn. *)
Theorem initFluid_allocates (env : Env) (maxDPR : option R) (bw bh : Z) (now : R)
    (hid : bool) (s : Sim) :
  snd (initFluid env maxDPR bw bh now hid) = Ok s ->
  dpr s = Rmin (num_or (devicePixelRatio env) 1) (opt_or maxDPR 2) /\
  fl s = rounding env /\
  width s = Z.max 2 (Zfloor (rounding env (IZR bw * dpr s))) /\
  height s = Z.max 2 (Zfloor (rounding env (IZR bh * dpr s))) /\
  canvas_width (canvas s) = width s /\ canvas_height (canvas s) = height s /\
  fields_blank s /\ lastT s = now /\ queued_frames s = 1%nat /\
  map allocation (log (gl s))
  = [Some (width s, height s, RGBA16F); Some (width s, height s, RGBA16F);
     Some (width s, height s, RG16F); Some (width s, height s, RG16F);
     Some (width s, height s, R16F); Some (width s, height s, R16F);
     Some (width s, height s, R16F)].
Proof.
  intros E.
  destruct (initFluid_returned _ _ _ _ _ _ _ E)
    as (_ & [CW CH] & D & W & H & T & _ & Q & _ & B & L & FL).
  rewrite FL in W, H.
  repeat (split; [assumption|]). exact L.
Qed.

Lemma initFluid_allocates_witness :
  dpr demo = Rmin (num_or (devicePixelRatio demo_env) 1) (opt_or None 2) /\
  fl demo = rounding demo_env /\
  width demo = Z.max 2 (Zfloor (rounding demo_env (IZR 4 * dpr demo))) /\
  height demo = Z.max 2 (Zfloor (rounding demo_env (IZR 3 * dpr demo))) /\
  canvas_width (canvas demo) = width demo /\
  canvas_height (canvas demo) = height demo /\
  fields_blank demo /\ lastT demo = 0 /\ queued_frames demo = 1%nat /\
  map allocation (log (gl demo))
  = [Some (width demo, height demo, RGBA16F);
     Some (width demo, height demo, RGBA16F);
     Some (width demo, height demo, RG16F);
     Some (width demo, height demo, RG16F);
     Some (width demo, height demo, R16F);
     Some (width demo, height demo, R16F);
     Some (width demo, height demo, R16F)].
Proof.
  apply (initFluid_allocates demo_env None 4 3 0 false demo).
  rewrite demo_init. reflexivity.
Defined.

(** X3.  Whatever the page does with a constructed engine (frame
    callbacks, calls of [splat], [splatRandom], [resize] and [destroy],
    layout and visibility changes, in any order), no call throws and
    exactly one frame callback is queued afterwards: the loop neither
    stops nor doubles. *)
Theorem one_frame_pending (env : Env) (maxDPR : option R) (bw bh : Z) (now : R)
    (hid : bool) (s0 : Sim) (es : list event) :
  snd (initFluid env maxDPR bw bh now hid) = Ok s0 ->
  exists s, run es s0 = Ok s /\ queued_frames s = 1%nat.
Proof.
  intros E.
  destruct (initFluid_returned _ _ _ _ _ _ _ E) as (Hwf & F & _ & _ & _ & _ & _ & Q & _).
  destruct (run_keeps es s0 Hwf F) as (s & Er & _ & _ & _ & Q').
  exists s. auto.
Qed.

Lemma one_frame_pending_witness :
  exists s,
    run [AnimationFrame 16; CallSplat 0.5 0.5 (mk3 1 0 0) None None; CallDestroy;
         CallResize; AnimationFrame 32; VisibilityChange true; AnimationFrame 48] demo
    = Ok s /\
    queued_frames s = 1%nat.
Proof.
  apply (one_frame_pending demo_env None 4 3 0 false demo).
  rewrite demo_init. reflexivity.
Defined.

(** X4.  In every state of a constructed engine the drawing buffer of
    the canvas, the grid and the GL viewport have the same size, so that
    every pass covers its whole target; and the device pixel ratio is the
    one read at construction: it is never read again, not even by
    [resize]. *)
Theorem sizes_agree (env : Env) (maxDPR : option R) (bw bh : Z) (now : R)
    (hid : bool) (s0 : Sim) (es : list event) :
  snd (initFluid env maxDPR bw bh now hid) = Ok s0 ->
  exists s,
    run es s0 = Ok s /\
    canvas_width (canvas s) = width s /\ canvas_height (canvas s) = height s /\
    viewport (gl s) = (width s, height s) /\
    dpr s = Rmin (num_or (devicePixelRatio env) 1) (opt_or maxDPR 2).
Proof.
  intros E.
  destruct (initFluid_returned _ _ _ _ _ _ _ E) as (Hwf & F & D & _).
  destruct (run_keeps es s0 Hwf F) as (s & Er & (d & v & p & dv & Hwf') & [CW CH] & D' & _).
  exists s. split; [exact Er|]. split; [exact CW|]. split; [exact CH|].
  split; [exact (wf_viewport _ _ _ _ _ Hwf') | congruence].
Qed.

Lemma sizes_agree_witness :
  exists s,
    run [Layout 8 6; CallResize; AnimationFrame 16; Layout 0 0; CallResize] demo = Ok s /\
    canvas_width (canvas s) = width s /\ canvas_height (canvas s) = height s /\
    viewport (gl s) = (width s, height s) /\
    dpr s = Rmin (num_or (devicePixelRatio demo_env) 1) (opt_or None 2).
Proof.
  apply (sizes_agree demo_env None 4 3 0 false demo).
  rewrite demo_init. reflexivity.
Defined.

(** X5.  [resize] is idempotent: called again with nothing changed in
    between it returns at its size test, whatever the state. *)
Theorem resize_idempotent (s : Sim) :
  resize (resize s) = resize s /\ setSize (resize s) = (false, resize s).
Proof.
  assert (E : setSize (resize s) = (false, resize s)).
  { apply setSize_same.
    - destruct (resize_size s) as [-> _]. unfold resize.
      destruct (Z.eq_dec (requested_width s) (width s)) as [Ew|Nw];
        [destruct (Z.eq_dec (requested_height s) (height s)) as [Eh|Nh]|].
      + rewrite setSize_same by assumption. reflexivity.
      + destruct (setSize_alloc s)
          as (s' & d & v & p & dv & E & _ & _ & _ & _ & _ & P & LW & LH & D & _ & _ & _ & _
                & _ & _ & _ & _ & _ & FL & _);
          [right; exact Nh|].
        rewrite E. cbn [snd]. unfold requested_width, clientWidth. rewrite P, LW, D, FL.
        reflexivity.
      + destruct (setSize_alloc s)
          as (s' & d & v & p & dv & E & _ & _ & _ & _ & _ & P & LW & LH & D & _ & _ & _ & _
                & _ & _ & _ & _ & _ & FL & _);
          [left; exact Nw|].
        rewrite E. cbn [snd]. unfold requested_width, clientWidth. rewrite P, LW, D, FL.
        reflexivity.
    - destruct (resize_size s) as [_ ->]. unfold resize.
      destruct (Z.eq_dec (requested_width s) (width s)) as [Ew|Nw];
        [destruct (Z.eq_dec (requested_height s) (height s)) as [Eh|Nh]|].
      + rewrite setSize_same by assumption. reflexivity.
      + destruct (setSize_alloc s)
          as (s' & d & v & p & dv & E & _ & _ & _ & _ & _ & P & LW & LH & D & _ & _ & _ & _
                & _ & _ & _ & _ & _ & FL & _);
          [right; exact Nh|].
        rewrite E. cbn [snd]. unfold requested_height, clientHeight. rewrite P, LH, D, FL.
        reflexivity.
      + destruct (setSize_alloc s)
          as (s' & d & v & p & dv & E & _ & _ & _ & _ & _ & P & LW & LH & D & _ & _ & _ & _
                & _ & _ & _ & _ & _ & FL & _);
          [left; exact Nw|].
        rewrite E. cbn [snd]. unfold requested_height, clientHeight. rewrite P, LH, D, FL.
        reflexivity. }
  split; [|exact E]. unfold resize at 1. rewrite E. reflexivity.
Qed.

(** X6.  The frame callback issues its 23 commands in this order:
    advection and damping of the velocity, the divergence, the clear of
    the pressure and 15 relaxations, the projection, advection and
    damping of the dye, all into framebuffers of the engine, and last the
    one draw to the canvas, which shows the dye the frame has just
    written.  Both dampings use the factor 0.995. *)
Theorem frame_trace (s : Sim) (now : R) :
  wf s ->
  exists s' cmds d',
    step now s = Ok s' /\ log (gl s') = log (gl s) ++ cmds /\
    map stage_of cmds
    = [Advecting; Dissipating; Diverging; Clearing] ++ repeat Relaxing 15
      ++ [Projecting; Advecting; Dissipating; Presenting] /\
    dissipations cmds = [0.995; 0.995] /\
    dye s' = Some d' /\
    last cmds = Some (DrawArrays None (Display (tex (read d')))).
Proof.
  intros (d & v & p & dv & Hwf).
  destruct (step_trace s d v p dv now Hwf) as (s' & cmds & E & D & R & M & K & L & _).
  exists s', cmds, (swap (swap d)).
  split; [exact E|]. split; [exact (ran_log _ _ _ R)|].
  split; [exact M|]. split; [exact K|]. split; [exact D | exact L].
Qed.

Lemma frame_trace_witness :
  exists s' cmds d',
    step 16 stirred = Ok s' /\ log (gl s') = log (gl stirred) ++ cmds /\
    map stage_of cmds
    = [Advecting; Dissipating; Diverging; Clearing] ++ repeat Relaxing 15
      ++ [Projecting; Advecting; Dissipating; Presenting] /\
    dissipations cmds = [0.995; 0.995] /\
    dye s' = Some d' /\
    last cmds = Some (DrawArrays None (Display (tex (read d')))).
Proof. apply (frame_trace stirred 16). exact (proj1 stirred_spec). Defined.

(** X7.  A frame callback that fires with no time elapsed since the
    last one (a time step of zero) moves no dye: whatever the velocity,
    every cell of the dye is just damped by 0.995. *)
Theorem still_frame (s : Sim) :
  wf s -> capable s ->
  exists s',
    step (lastT s) s = Ok s' /\
    forall i j, in_grid s i j -> dye_at s' i j = scale4 0.995 (dye_at s i j).
Proof.
  intros (d & v & p & dv & Hwf) Hc.
  destruct (step_trace s d v p dv (lastT s) Hwf) as (s' & cmds & E & _ & _ & _ & _ & _ & F).
  exists s'. split; [exact E|]. exact (F Hc).
Qed.

Lemma still_frame_witness :
  exists s',
    step (lastT stirred) stirred = Ok s' /\
    forall i j, in_grid stirred i j -> dye_at s' i j = scale4 0.995 (dye_at stirred i j).
Proof.
  apply (still_frame stirred); [exact (proj1 stirred_spec) | exact (proj1 (proj2 stirred_spec))].
Defined.

(** X8.  [computeDivergence] is one draw of the divergence program into
    the divergence texture, sampling the velocity that is read; it
    touches neither the velocity nor the dye.  For a velocity that is the
    same in every cell, the divergence it writes is zero everywhere, the
    border included. *)
Theorem computeDivergence_uniform (s : Sim) :
  wf s -> capable s ->
  exists s' v dv tx,
    computeDivergence s = Ok s' /\
    velocity s = Some v /\ divergence s = Some dv /\
    log (gl s')
    = log (gl s) ++ [DrawArrays (Some (fbo dv)) (Divergence (tex (read v)) tx)] /\
    (forall i j, velocity_at s' i j = velocity_at s i j /\ dye_at s' i j = dye_at s i j) /\
    (forall u, (forall i j, in_grid s i j -> velocity_at s i j = u) ->
               forall i j, in_grid s i j -> divergence_at s' i j = 0).
Proof.
  intros (d & v & p & dv & Hwf) Hc. pose proof Hwf as [].
  destruct (stage_divergence_rest s d v p dv Hwf) as (s' & E & _ & R & _ & _ & D & V & Z).
  exists s', v, dv, (texel s).
  split; [exact E|]. split; [assumption|]. split; [assumption|].
  split; [exact (ran_log _ _ _ R)|].
  split; [intros i j; auto|].
  intros u _. exact (Z Hc).
Qed.

Lemma computeDivergence_uniform_witness :
  exists s' v dv tx,
    computeDivergence dyed = Ok s' /\
    velocity dyed = Some v /\ divergence dyed = Some dv /\
    log (gl s')
    = log (gl dyed) ++ [DrawArrays (Some (fbo dv)) (Divergence (tex (read v)) tx)] /\
    (forall i j, velocity_at s' i j = velocity_at dyed i j /\
                 dye_at s' i j = dye_at dyed i j) /\
    (forall i j, in_grid dyed i j -> divergence_at s' i j = 0).
Proof.
  destruct dyed_spec as ((Hwf & Hc & Hrest & _) & _).
  destruct (computeDivergence_uniform dyed Hwf Hc)
    as (s' & v & dv & tx & E & Ev & Edv & L & K & U).
  exists s', v, dv, tx. repeat (split; [assumption|]).
  exact (U (mk2 0 0) Hrest).
Defined.



(** X10.  Splats add up and commute, up to the rounding of the
    half-float texels, which is left out here: after two calls of
    [splat], in either order, every cell of the dye holds what it held
    before plus the contributions of both, and every cell of the velocity
    is the same for both orders; the equalities are exact over the
    reals. *)
Theorem splats_commute (s : Sim) (a b : splat_call) :
  wf s -> capable s ->
  exists sab sba,
    run [call_of a; call_of b] s = Ok sab /\
    run [call_of b; call_of a] s = Ok sba /\
    forall i j, in_grid s i j ->
      dye_at sab i j
      = add4 (add4 (dye_at s i j)
                   (splat_dye (width s) (height s) (at_x a) (at_y a) (tint a) (size a) i j))
             (splat_dye (width s) (height s) (at_x b) (at_y b) (tint b) (size b) i j) /\
      dye_at sba i j = dye_at sab i j /\
      velocity_at sba i j = velocity_at sab i j.
Proof.
  intros (d & v & p & dv & Hwf) Hc.
  assert (two : forall a b : splat_call,
            exists s2,
              run [call_of a; call_of b] s = Ok s2 /\
              forall i j, in_grid s i j ->
                dye_at s2 i j
                = add4 (add4 (dye_at s i j)
                          (splat_dye (width s) (height s) (at_x a) (at_y a) (tint a)
                                     (size a) i j))
                       (splat_dye (width s) (height s) (at_x b) (at_y b) (tint b)
                                  (size b) i j) /\
                velocity_at s2 i j
                = add2 (add2 (velocity_at s i j)
                          (scale2 (falloff (fragUv (width s, height s) i j)
                                     (mk2 (at_x a) (at_y a)) (splat_radius (size a)))
                                  (splat_force (push a))))
                       (scale2 (falloff (fragUv (width s, height s) i j)
                                  (mk2 (at_x b) (at_y b)) (splat_radius (size b)))
                               (splat_force (push b)))).
  { intros a0 b0. cbn [run dispatch call_of].
    destruct (splat_spec s d v p dv (at_x a0) (at_y a0) (tint a0) (size a0) (push a0) Hwf)
      as (s1 & E1 & Hwf1 & R1 & _ & _ & D1 & V1 & _).
    rewrite E1. cbn [mbind result_bind].
    destruct (splat_spec s1 _ _ p dv (at_x b0) (at_y b0) (tint b0) (size b0) (push b0) Hwf1)
      as (s2 & E2 & _ & R2 & _ & _ & D2 & V2 & _).
    rewrite E2. cbn [mbind result_bind].
    exists s2. split; [reflexivity|]. intros i j Hij.
    pose proof (capable_ran _ _ _ R1 Hc) as Hc1.
    pose proof (in_grid_ran _ _ _ _ _ R1 Hij) as Hij1.
    rewrite (D2 Hc1 i j Hij1), (V2 Hc1 i j Hij1), (D1 Hc i j Hij), (V1 Hc i j Hij).
    rewrite (ran_width _ _ _ R1), (ran_height _ _ _ R1). split; reflexivity. }
  destruct (two a b) as (sab & Eab & Fab). destruct (two b a) as (sba & Eba & Fba).
  exists sab, sba. split; [exact Eab|]. split; [exact Eba|].
  intros i j Hij. destruct (Fab i j Hij) as [Dab Vab]. destruct (Fba i j Hij) as [Dba Vba].
  split; [exact Dab|]. rewrite Dab, Dba, Vab, Vba.
  split; [rewrite !add4_assoc; f_equal; apply add4_comm | apply add2_comm_assoc].
Qed.

Lemma splats_commute_witness :
  exists sab sba,
    run [call_of (mkSplatCall 0.25 0.5 (mk3 1 0 0) None (Some (mk2 1 0)));
         call_of (mkSplatCall 0.75 0.5 (mk3 0 0 1) (Some 0.1) (Some (mk2 0 (-2))))] stirred
    = Ok sab /\
    run [call_of (mkSplatCall 0.75 0.5 (mk3 0 0 1) (Some 0.1) (Some (mk2 0 (-2))));
         call_of (mkSplatCall 0.25 0.5 (mk3 1 0 0) None (Some (mk2 1 0)))] stirred
    = Ok sba /\
    forall i j, in_grid stirred i j ->
      dye_at sab i j
      = add4 (add4 (dye_at stirred i j)
                   (splat_dye (width stirred) (height stirred) 0.25 0.5 (mk3 1 0 0) None i j))
             (splat_dye (width stirred) (height stirred) 0.75 0.5 (mk3 0 0 1) (Some 0.1)
                        i j) /\
      dye_at sba i j = dye_at sab i j /\
      velocity_at sba i j = velocity_at sab i j.
Proof.
  apply (splats_commute stirred
           (mkSplatCall 0.25 0.5 (mk3 1 0 0) None (Some (mk2 1 0)))
           (mkSplatCall 0.75 0.5 (mk3 0 0 1) (Some 0.1) (Some (mk2 0 (-2)))));
    [exact (proj1 stirred_spec) | exact (proj1 (proj2 stirred_spec))].
Defined.

(** X11.  What a splat adds to a cell of the dye is, up to rounding, its
    colour times the Gaussian weight a = exp(-d^2 / r^2), d being the
    distance between the centre of the cell and the point of the splat
    in canvas coordinates and r the radius, 0.04 when it is left out and
    at least 0.002; the weight itself is added to the alpha channel, and
    the force times the weight to the velocity (nothing when the force
    is left out).  The weight is never negative and at most 1: a splat
    adds at most its colour and its force.  (Far from the point the GPU
    computes a weight of 0; nothing is said here about where.) *)
Theorem splat_gaussian (s : Sim) (x y : R) (c : vec3) (radius : option R)
    (force : option vec2) :
  wf s -> capable s ->
  exists s',
    splat x y c radius force s = Ok s' /\
    forall i j, in_grid s i j ->
      let r := Rmax 0.002 (match radius with None => 0.04 | Some r => r end) in
      let dx := (IZR i + 1 / 2) / IZR (width s) - x in
      let dy := (IZR j + 1 / 2) / IZR (height s) - y in
      let a := exp (- (dx * dx + dy * dy) / (r * r)) in
      0 <= a <= 1 /\
      dye_at s' i j = add4 (dye_at s i j) (mk4 (x3 c * a) (y3 c * a) (z3 c * a) a) /\
      velocity_at s' i j
      = add2 (velocity_at s i j)
             (scale2 a (match force with Some f => f | None => mk2 0 0 end)).
Proof.
  intros (d & v & p & dv & Hwf) Hc.
  destruct (splat_spec s d v p dv x y c radius force Hwf)
    as (s' & E & _ & _ & _ & _ & D & V & _).
  exists s'. split; [exact E|]. intros i j Hij.
  assert (Hpos : 0 <= falloff (fragUv (width s, height s) i j) (mk2 x y)
                         (splat_radius radius))
    by (unfold falloff; left; apply exp_pos).
  pose proof (falloff_le_1 (fragUv (width s, height s) i j) (mk2 x y) (splat_radius radius))
    as Hle.
  rewrite (D Hc i j Hij), (V Hc i j Hij). unfold splat_dye.
  assert (Ef : splat_force force = match force with Some f => f | None => mk2 0 0 end).
  { unfold splat_force. destruct force as [[fx fy]|]; [|reflexivity].
    cbn [x2 y2]. rewrite !num_or_0. reflexivity. }
  rewrite Ef.
  assert (Ea : falloff (fragUv (width s, height s) i j) (mk2 x y) (splat_radius radius)
               = exp (- (((IZR i + 1 / 2) / IZR (width s) - x)
                         * ((IZR i + 1 / 2) / IZR (width s) - x)
                         + ((IZR j + 1 / 2) / IZR (height s) - y)
                           * ((IZR j + 1 / 2) / IZR (height s) - y))
                      / (splat_radius radius * splat_radius radius))).
  { unfold falloff. rewrite distance_sqr.
    destruct (splat_radius_guard radius) as [_ ->]. reflexivity. }
  rewrite Ea in *. cbv zeta. fold (splat_radius radius). split; [split; assumption|].
  split; reflexivity.
Qed.

Lemma splat_gaussian_witness :
  exists s',
    splat 0.625 0.5 (mk3 1 0.5 0) (Some 0.001) (Some (mk2 3 (-1))) demo = Ok s' /\
    forall i j, in_grid demo i j ->
      let r := Rmax 0.002 0.001 in
      let dx := (IZR i + 1 / 2) / IZR (width demo) - 0.625 in
      let dy := (IZR j + 1 / 2) / IZR (height demo) - 0.5 in
      let a := exp (- (dx * dx + dy * dy) / (r * r)) in
      0 <= a <= 1 /\
      dye_at s' i j = add4 (dye_at demo i j) (mk4 (1 * a) (0.5 * a) (0 * a) a) /\
      velocity_at s' i j = add2 (velocity_at demo i j) (scale2 a (mk2 3 (-1))).
Proof.
  apply (splat_gaussian demo 0.625 0.5 (mk3 1 0.5 0) (Some 0.001) (Some (mk2 3 (-1))));
    [exact demo_wf | exact demo_capable].
Defined.

(** X12.  In a browser whose WebGL2 context lacks EXT_color_buffer_float
    the engine is constructed all the same, and then no frame and no
    splat ever writes a texel (a draw into a half-float texture that is
    not colour-renderable writes nothing): whatever is called, all four
    fields keep reading zero. *)
Theorem incapable_stays_blank (env : Env) (maxDPR : option R) (bw bh : Z) (now : R)
    (hid : bool) (s0 : Sim) (es : list event) :
  EXT_color_buffer_float env = false ->
  snd (initFluid env maxDPR bw bh now hid) = Ok s0 ->
  exists s, run es s0 = Ok s /\ fields_blank s.
Proof.
  intros Hext E.
  destruct (initFluid_returned _ _ _ _ _ _ _ E) as (Hwf & _ & _ & _ & _ & _ & _ & _ & C & _).
  pose proof (initFluid_all_zero _ _ _ _ _ _ _ E) as Z.
  destruct (run_incapable es s0 Hwf) as (s & Er & Hwf' & _ & Z'); [congruence | exact Z |].
  exists s. split; [exact Er|]. apply all_zero_fields_blank; assumption.
Qed.

Lemma incapable_stays_blank_witness :
  exists s,
    run [CallSplat 0.5 0.5 (mk3 1 0 0) None (Some (mk2 1 0)); AnimationFrame 16;
         CallSplatRandom 3 (mkRandomOpts None None None None None) (fun _ => 0.5);
         Layout 8 6; CallResize; AnimationFrame 32] bare
    = Ok s /\
    fields_blank s.
Proof.
  apply (incapable_stays_blank bare_env None 4 3 0 false bare);
    [reflexivity | rewrite bare_init; reflexivity].
Defined.

(** X13.  With random numbers in [0, 1) and options whose smallest
    radius does not exceed the largest, [splatRandom(count, opts)] makes
    [count] splats, each a dye draw followed by a velocity draw, at a
    point of the unit square, with the colour of the options (or a random
    one in the unit cube) and, up to rounding, a radius between
    max(0.002, minRadius) and max(0.002, maxRadius) and a force whose
    length is at least 0.2 times and at most once maxForce * forceScale.
    An option left out or given as 0 counts as its default (0.015, 0.06,
    2.5, 1), so that product is not zero: every random splat pushes. *)
Theorem splatRandom_in_range (count : nat) (opts : RandomOpts) (rnd : nat -> R)
    (s : Sim) :
  wf s -> (forall n, 0 <= rnd n < 1) ->
  opt_or (minRadius opts) 0.015 <= opt_or (maxRadius opts) 0.06 ->
  exists s' cmds,
    splatRandom count opts rnd s = Ok s' /\ log (gl s') = log (gl s) ++ cmds /\
    map stage_of cmds = concat (repeat [Splatting; Pushing] count) /\
    Forall (random_splat (opt_or (minRadius opts) 0.015) (opt_or (maxRadius opts) 0.06)
              (opt_or (maxForce opts) 2.5 * opt_or (forceScale opts) 1) (color opts))
           cmds /\
    opt_or (maxForce opts) 2.5 * opt_or (forceScale opts) 1 <> 0.
Proof.
  intros Hwf Hrnd HR.
  assert (HF : opt_or (maxForce opts) 2.5 * opt_or (forceScale opts) 1 <> 0).
  { apply Rmult_integral_contrapositive. split; apply opt_or_nonzero; lra. }
  destruct (splatRandomLoop_trace count _ _ _ opts rnd 0 s Hwf Hrnd HR HF)
    as (s' & cmds & E & R & F & M).
  exists s', cmds. split; [exact E|]. split; [exact (ran_log _ _ _ R)|].
  split; [exact M|]. split; [exact F | exact HF].
Qed.

Lemma splatRandom_in_range_witness :
  exists s' cmds,
    splatRandom 3 (mkRandomOpts (Some 0.02) None (Some 0) None None) (fun _ => 0.5) demo
    = Ok s' /\
    log (gl s') = log (gl demo) ++ cmds /\
    map stage_of cmds = concat (repeat [Splatting; Pushing] 3) /\
    Forall (random_splat (opt_or (Some 0.02) 0.015) (opt_or None 0.06)
              (opt_or (Some 0) 2.5 * opt_or None 1) None)
           cmds /\
    opt_or (Some 0) 2.5 * opt_or None 1 <> 0.
Proof.
  apply (splatRandom_in_range 3 (mkRandomOpts (Some 0.02) None (Some 0) None None)
           (fun _ => 0.5) demo).
  - exact demo_wf.
  - intros _. lra.
  - cbn [opt_or minRadius maxRadius]. unfold num_or.
    destruct (Req_dec_T 0.02 0); lra.
Defined.

(** X14.  While the fluid is at rest and nothing is splatted the dye
    stays where it is and fades geometrically: after n frame callbacks,
    whatever their times, every cell holds 0.995^n times what it held,
    and the fluid is still at rest.  This is the computation without
    rounding: on the GPU every frame rounds the product to a half float,
    so a cell holds 0.995^n times its dye only approximately, and a
    value at the bottom of the half-float range no longer fades. *)
Theorem dye_fades (nows : list R) (s : Sim) :
  steady s ->
  exists s',
    run (map AnimationFrame nows) s = Ok s' /\ at_rest s' /\
    forall i j, in_grid s i j -> dye_at s' i j = scale4 (0.995 ^ length nows) (dye_at s i j).
Proof.
  intros Hs. destruct (frames_fade nows s Hs) as (s' & E & (_ & _ & Hr & _) & _ & _ & F).
  exists s'. auto.
Qed.

Lemma dye_fades_witness :
  exists s',
    run (map AnimationFrame [16; 33; 5000]) dyed = Ok s' /\ at_rest s' /\
    (forall i j, in_grid dyed i j ->
       dye_at s' i j = scale4 (0.995 ^ length [16; 33; 5000]) (dye_at dyed i j)) /\
    dye_at s' 1 1 = scale4 (0.995 ^ 3) (mk4 1 0 0 1).
Proof.
  destruct (dye_fades [16; 33; 5000] dyed (proj1 dyed_spec)) as (s' & E & Hr & F).
  exists s'. split; [exact E|]. split; [exact Hr|]. split; [exact F|].
  destruct dyed_spec as (_ & W & H & D).
  rewrite F by (unfold in_grid; rewrite W, H; lia).
  rewrite D. reflexivity.
Defined.

(** X15.  What [render] draws: one draw of the display program to the
    canvas, with the viewport of the grid's size, which touches no
    texture; the colour it computes for the pixel (i, j) is the dye of
    the cell (i, j), unfiltered, one cell per pixel. *)
Theorem display_shows_dye (s : Sim) :
  wf s ->
  exists s' d,
    render s = Ok s' /\ dye s = Some d /\
    log (gl s') = log (gl s) ++ [DrawArrays None (Display (tex (read d)))] /\
    textures (gl s') = textures (gl s) /\
    viewport (gl s') = (width s, height s) /\
    forall i j, in_grid s i j ->
      frag_of (gl s') (Display (tex (read d))) (fragUv (viewport (gl s')) i j)
      = dye_at s i j.
Proof.
  intros (d & v & p & dv & Hwf). pose proof Hwf as [].
  destruct (stage_render s d v p dv Hwf) as (s' & E & Hwf' & R & _ & _ & T).
  exists s', d. split; [exact E|]. split; [assumption|].
  split; [exact (ran_log _ _ _ R)|]. split; [exact T|].
  assert (Vp : viewport (gl s') = (width s, height s)).
  { rewrite (wf_viewport _ _ _ _ _ Hwf'), (ran_width _ _ _ R), (ran_height _ _ _ R).
    reflexivity. }
  split; [exact Vp|].
  intros i j [Hi Hj]. rewrite Vp. cbn [frag_of]. unfold displayFrag.
  destruct wf_dye_read0 as [_ Hshape].
  erewrite sampler_center; [| rewrite T; exact Hshape | exact Hi | exact Hj].
  rewrite (dye_at_eq s d) by assumption.
  apply (f_equal (fun t => t i j)). apply texels_other. rewrite T. reflexivity.
Qed.

Lemma display_shows_dye_witness :
  exists s' d,
    render stirred = Ok s' /\ dye stirred = Some d /\
    log (gl s') = log (gl stirred) ++ [DrawArrays None (Display (tex (read d)))] /\
    textures (gl s') = textures (gl stirred) /\
    viewport (gl s') = (width stirred, height stirred) /\
    forall i j, in_grid stirred i j ->
      frag_of (gl s') (Display (tex (read d))) (fragUv (viewport (gl s')) i j)
      = dye_at stirred i j.
Proof. apply (display_shows_dye stirred). exact (proj1 stirred_spec). Defined.



(** * The theme wrapper *)


(** X18.  For whole numbers 0 <= min <= max and a random number in
    [0, 1), [randInt(min, max)] is a whole number from min to max + 1:
    the exact sum min + random * (max - min + 1) stays below max + 1,
    but the product and the sum are rounded to doubles before the floor
    is taken, and a sum within rounding distance of max + 1 becomes
    max + 1.  Used of the rounding: it keeps the order, and leaves whole
    numbers as they are. *)
Theorem randInt_between (f : R -> R) (lo hi : Z) (r : R) :
  monotone_exact f -> (0 <= lo <= hi)%Z -> (hi < 2 ^ 52)%Z -> 0 <= r < 1 ->
  (lo <= randInt f (IZR lo) (IZR hi) r)%Z /\ (randInt f (IZR lo) (IZR hi) r <= hi + 1)%Z.
Proof. intros Hf Hlh Hhi Hr. apply randInt_range; assumption. Qed.

Lemma randInt_between_witness :
  monotone_exact (fun x => x) /\
  (16 <= randInt (fun x => x) (IZR 16) (IZR 22) 0.5)%Z /\
  (randInt (fun x => x) (IZR 16) (IZR 22) 0.5 <= 22 + 1)%Z.
Proof.
  assert (H : monotone_exact (fun x => x)) by (split; [intros x y L; exact L | reflexivity]).
  split; [exact H|].
  apply (randInt_between (fun x => x) 16 22 0.5); [exact H | lia | reflexivity | lra].
Defined.

(** X19.  A tick of the countdown, [onNumberChange(remaining)], on a
    wrapper with an engine makes one burst of random splats, two draw
    calls each, after taking one random number for their count, which is
    what [randInt] returns: 16 to 22 splats on a full minute (a positive
    multiple of 60), otherwise 4 to 7 on a multiple of 10, zero included,
    otherwise 1 to 3, and in each case one more when the rounding in
    [randInt] takes its sum up to the next whole number; no frame is
    queued and nothing is thrown.  Without an engine it does nothing.
    Used of the rounding: it keeps the order, and leaves whole numbers as
    they are. *)
Theorem tick_burst (th : Theme) (remaining : R) (rnd : nat -> R) :
  (forall i, 0 <= rnd i < 1) ->
  (sim th = None -> onNumberChange remaining rnd th = Ok th) /\
  (forall s, sim th = Some s -> wf s -> monotone_exact (fl s) ->
     exists s' cmds n,
       onNumberChange remaining rnd th
       = Ok (with_sim s' (S (randoms th) + 5 * n)%nat th) /\
       log (gl s') = log (gl s) ++ cmds /\ length cmds = (2 * n)%nat /\
       queued_frames s' = queued_frames s /\
       let rem := Rmax 0 remaining in
       (0 < rem /\ js_rem rem 60 = 0 -> (16 <= n <= 23)%nat) /\
       (~ (0 < rem /\ js_rem rem 60 = 0) -> js_rem rem 10 = 0 -> (4 <= n <= 8)%nat) /\
       (~ (0 < rem /\ js_rem rem 60 = 0) -> js_rem rem 10 <> 0 -> (1 <= n <= 4)%nat) /\
       (remaining <= 0 -> (4 <= n <= 8)%nat)).
Proof.
  intros Hrnd. unfold onNumberChange, splatMinute, splatStrong, splatSmall.
  rewrite num_or_0. split.
  - intros Hs.
    repeat match goal with |- context [if ?c then _ else _] => destruct c end;
      apply splatBurst_none; exact Hs.
  - intros s Hs Hwf Hfl. cbv zeta.
    set (rem := Rmax 0 remaining).
    set (col := progressionColor th rem).
    assert (B : forall lo hi opts, (0 <= lo <= hi)%Z -> (hi < 2 ^ 52)%Z ->
              exists s' cmds n,
                splatBurst (IZR lo) (IZR hi) opts rnd th
                = Ok (with_sim s' (S (randoms th) + 5 * n)%nat th) /\
                log (gl s') = log (gl s) ++ cmds /\ length cmds = (2 * n)%nat /\
                queued_frames s' = queued_frames s /\
                (Z.to_nat lo <= n <= Z.to_nat (hi + 1))%nat).
    { intros lo hi opts Hlh Hhi.
      destruct (splatBurst_spec lo hi opts rnd th s Hs Hwf Hrnd Hlh)
        as (s' & cmds & n & E & _ & R & L & N & _ & Q).
      exists s', cmds, n. split; [exact E|]. split; [exact (ran_log _ _ _ R)|].
      split; [exact L|]. split; [exact Q|].
      pose proof (randInt_range (fl s) lo hi (rnd (randoms th)) Hfl Hlh Hhi (Hrnd _)) as Hr.
      rewrite N. lia. }
    assert (Z0 : remaining <= 0 -> rem = 0 /\ js_rem rem 10 = 0).
    { intros Hle. assert (Er : rem = 0) by (apply Rmax_left; exact Hle).
      split; [exact Er|]. rewrite Er. unfold js_rem, truncate.
      replace (0 / 10) with 0 by (unfold Rdiv; ring).
      destruct (Rlt_dec 0 0) as [N|_]; [lra|].
      change 0 with (IZR 0) at 3. rewrite ZfloorZ. cbn [IZR]. ring. }
    assert (Fin : forall lo hi opts,
              (0 <= lo <= hi)%Z -> (hi < 2 ^ 52)%Z ->
              (forall n, (Z.to_nat lo <= n <= Z.to_nat (hi + 1))%nat ->
                 (0 < rem /\ js_rem rem 60 = 0 -> (16 <= n <= 23)%nat) /\
                 (~ (0 < rem /\ js_rem rem 60 = 0) -> js_rem rem 10 = 0 ->
                  (4 <= n <= 8)%nat) /\
                 (~ (0 < rem /\ js_rem rem 60 = 0) -> js_rem rem 10 <> 0 ->
                  (1 <= n <= 4)%nat) /\
                 (remaining <= 0 -> (4 <= n <= 8)%nat)) ->
              exists s' cmds n,
                splatBurst (IZR lo) (IZR hi) opts rnd th
                = Ok (with_sim s' (S (randoms th) + 5 * n)%nat th) /\
                log (gl s') = log (gl s) ++ cmds /\ length cmds = (2 * n)%nat /\
                queued_frames s' = queued_frames s /\
                (0 < rem /\ js_rem rem 60 = 0 -> (16 <= n <= 23)%nat) /\
                (~ (0 < rem /\ js_rem rem 60 = 0) -> js_rem rem 10 = 0 ->
                 (4 <= n <= 8)%nat) /\
                (~ (0 < rem /\ js_rem rem 60 = 0) -> js_rem rem 10 <> 0 ->
                 (1 <= n <= 4)%nat) /\
                (remaining <= 0 -> (4 <= n <= 8)%nat)).
    { intros lo hi opts Hlh Hhi HP.
      destruct (B lo hi opts Hlh Hhi) as (s' & cmds & n & E & L & K & Q & N).
      exists s', cmds, n. repeat (split; [assumption|]). apply HP. exact N. }
    destruct (Rlt_dec 0 rem) as [Hpos|Hpos].
    + assert (Hr : ~ remaining <= 0) by (intros Hle; destruct (Z0 Hle); lra).
      destruct (Req_dec_T (js_rem rem 60) 0) as [H60|H60].
      * apply (Fin 16%Z 22%Z); [lia | reflexivity |]. intros n N.
        split; [intros _; exact N|].
        split; [intros H; exfalso; apply H; auto|].
        split; [intros H; exfalso; apply H; auto | intros H; contradiction].
      * destruct (Req_dec_T (js_rem rem 10) 0) as [H10|H10].
        -- apply (Fin 4%Z 7%Z); [lia | reflexivity |]. intros n N.
           split; [intros [_ H]; contradiction|]. split; [intros _ _; exact N|].
           split; [intros _ H; contradiction | intros H; contradiction].
        -- apply (Fin 1%Z 3%Z); [lia | reflexivity |]. intros n N.
           split; [intros [_ H]; contradiction|]. split; [intros _ H; contradiction|].
           split; [intros _ _; exact N | intros H; contradiction].
    + destruct (Req_dec_T (js_rem rem 10) 0) as [H10|H10].
      * apply (Fin 4%Z 7%Z); [lia | reflexivity |]. intros n N.
        split; [intros [H _]; contradiction|]. split; [intros _ _; exact N|].
        split; [intros _ H; contradiction | intros _; exact N].
      * apply (Fin 1%Z 3%Z); [lia | reflexivity |]. intros n N.
        split; [intros [H _]; contradiction|]. split; [intros _ H; contradiction|].
        split; [intros _ _; exact N | intros Hle; destruct (Z0 Hle); contradiction].
Qed.

Lemma tick_burst_witness :
  exists s' cmds n,
    onNumberChange 120 (fun _ => 0.5) demo_theme
    = Ok (with_sim s' (S (randoms demo_theme) + 5 * n)%nat demo_theme) /\
    log (gl s') = log (gl demo) ++ cmds /\ length cmds = (2 * n)%nat /\
    queued_frames s' = queued_frames demo /\
    (16 <= n <= 23)%nat.
Proof.
  destruct (tick_burst demo_theme 120 (fun _ => 0.5)) as [_ H]; [intros _; lra|].
  destruct (H demo eq_refl demo_wf) as (s' & cmds & n & E & L & K & Q & M & _).
  { rewrite demo_fl. split; [intros x y Hxy; exact Hxy | reflexivity]. }
  exists s', cmds, n. repeat (split; [assumption|]).
  apply M. rewrite (Rmax_right 0 120) by lra. split; [lra|].
  unfold js_rem, truncate. replace (120 / 60) with (IZR 2) by lra.
  destruct (Rlt_dec (IZR 2) 0) as [N|_]; [lra|].
  rewrite Zfloor_IZR. lra.
Defined.

(** X20.  [onFinaleBurst] on a wrapper with an engine makes five bursts
    of 18 random splats: 180 draw calls, 450 random numbers, no frame
    queued.  It does not test for the engine as the other hooks do:
    called without one it throws a TypeError. *)
Theorem finale_burst (th : Theme) (rnd : nat -> R) :
  (sim th = None -> exists msg, onFinaleBurst rnd th = Throw msg) /\
  (forall s, sim th = Some s -> wf s ->
     exists s' cmds,
       onFinaleBurst rnd th = Ok (with_sim s' (randoms th + 450)%nat th) /\
       log (gl s') = log (gl s) ++ cmds /\ length cmds = 180%nat /\
       queued_frames s' = queued_frames s).
Proof.
  split.
  - intros Hs. unfold onFinaleBurst. cbn [finaleLoop hues length Nat.modulo nth_error].
    cbn [deref mbind result_bind]. rewrite Hs. cbn [deref mbind result_bind]. eauto.
  - intros s Hs Hwf. unfold onFinaleBurst.
    destruct (finaleLoop_spec 5 0 rnd th s Hs Hwf) as (s' & cmds & E & _ & R & L & _ & Q).
    exists s', cmds. split; [exact E|]. split; [exact (ran_log _ _ _ R)|].
    split; [exact L | exact Q].
Qed.

(** X21.  [begin] asks [initFluid] for an engine with the device pixel
    ratio capped at 2.  When that throws, the exception is caught and
    logged and nothing else is done: no engine, no hooks, no listeners.
    When it returns, the engine is seeded with 28 random splats (56 draw
    calls, 225 random numbers, those of [Math.random()] being in
    [0, 1)), the three hooks are set and the two listeners added, nothing
    is logged, and the engine still has its one frame callback queued. *)
Theorem begin_outcome (env : Env) (bw bh : Z) (now : R) (hid : bool) (rnd : nat -> R) :
  (forall i, 0 <= rnd i < 1) ->
  fst (begin env bw bh now hid rnd) = fst (initFluid env (Some 2) bw bh now hid) /\
  ((forall s0, snd (initFluid env (Some 2) bw bh now hid) <> Ok s0) ->
   snd (begin env bw bh now hid rnd)
   = mkTheme (70 * 60) None false None false 0 ["[fluid-theme] init failed:"%string]) /\
  (forall s0, snd (initFluid env (Some 2) bw bh now hid) = Ok s0 ->
     exists s cmds,
       snd (begin env bw bh now hid rnd)
       = mkTheme (70 * 60) (Some s) true (Some (0.5, 0.5)) true 225 [] /\
       wf s /\ log (gl s) = log (gl s0) ++ cmds /\ length cmds = 56%nat /\
       queued_frames s = 1%nat /\ dpr s <= 2).
Proof.
  intros Hrnd. split; [|split].
  - unfold begin. destruct (initFluid env (Some 2) bw bh now hid). reflexivity.
  - intros Hno. unfold begin.
    destruct (initFluid env (Some 2) bw bh now hid) as [calls [s|msg]]; cbn [snd] in *.
    + destruct (Hno s). reflexivity.
    + reflexivity.
  - intros s0 E.
    destruct (begin_seeded env bw bh now hid rnd s0 E Hrnd)
      as (s & cmds & Eb & Hwf & R & L & _ & Q).
    destruct (initFluid_returned _ _ _ _ _ _ _ E) as (_ & _ & D & _ & _ & _ & _ & Q0 & _).
    exists s, cmds. split; [exact Eb|]. split; [exact Hwf|].
    split; [exact (ran_log _ _ _ R)|]. split; [exact L|]. split; [congruence|].
    rewrite (ran_dpr _ _ _ R), D. cbn [opt_or]. unfold num_or at 2.
    destruct (Req_dec_T 2 0); [lra | apply Rmin_r].
Qed.

Lemma begin_outcome_witness :
  fst (begin demo_env 4 3 0 false (fun _ => 0.5))
  = fst (initFluid demo_env (Some 2) 4 3 0 false) /\
  ((forall s0, snd (initFluid demo_env (Some 2) 4 3 0 false) <> Ok s0) ->
   snd (begin demo_env 4 3 0 false (fun _ => 0.5))
   = mkTheme (70 * 60) None false None false 0 ["[fluid-theme] init failed:"%string]) /\
  (forall s0, snd (initFluid demo_env (Some 2) 4 3 0 false) = Ok s0 ->
     exists s cmds,
       snd (begin demo_env 4 3 0 false (fun _ => 0.5))
       = mkTheme (70 * 60) (Some s) true (Some (0.5, 0.5)) true 225 [] /\
       wf s /\ log (gl s) = log (gl s0) ++ cmds /\ length cmds = 56%nat /\
       queued_frames s = 1%nat /\ dpr s <= 2).
Proof. apply (begin_outcome demo_env 4 3 0 false (fun _ => 0.5)). intros _. lra. Defined.

(** X22.  Once the wrapper has started (with the engine's script there
    already, loaded on demand, or not loadable at all), whatever the
    outcome of the construction and whatever [Math.random()] returns,
    nothing the page does lets an exception out of the wrapper: frame
    callbacks, ticks, totals, the finale, resizes of the window, layout
    changes and pointer moves all return.  Afterwards the total is still
    positive (a total that is not positive is ignored), hooks and a
    pointer listener exist only with an engine, and the engine is a
    constructed one. *)
Theorem theme_never_throws (defined loads : bool) (env : Env) (bw bh : Z) (now : R)
    (hid : bool) (rnd : nat -> R) (es : list theme_event) :
  exists th,
    theme_run rnd es (snd (ensureAndStart defined loads env bw bh now hid rnd)) = Ok th /\
    0 < totalSeconds th /\
    (sim th = None -> hooked th = false /\ pointer th = None) /\
    (forall s, sim th = Some s -> wf s).
Proof.
  destruct (theme_run_ok rnd es _ (ensureAndStart_ok defined loads env bw bh now hid rnd))
    as (th & E & Ht & Hs).
  exists th. split; [exact E|]. split; [exact Ht|].
  destruct (sim th) as [s|]; split.
  - discriminate.
  - intros s' Es. inversion Es; subst. exact Hs.
  - intros _. exact Hs.
  - discriminate.
Qed.

(** X23.  A pointer move over a wrapper that listens splats at the
    pointer's place in the container, x from the left and y from the
    bottom, both in [0, 1] while the pointer is inside, with radius 0.03
    and a force of 8 times the displacement since the last move (the
    first being measured from the centre), and remembers the place.  The
    container's box is taken not to be empty. *)
Theorem pointer_splat (th : Theme) (s : Sim) (lastX lastY : R) (rect : Rect)
    (clientX clientY : R) (rnd : nat -> R) :
  pointer th = Some (lastX, lastY) -> sim th = Some s -> wf s ->
  0 < rect_width rect -> 0 < rect_height rect ->
  let x := (clientX - rect_left rect) / rect_width rect in
  let y := 1 - (clientY - rect_top rect) / rect_height rect in
  exists th' s' t1 t2 n1 n2 c,
    pointermove rect clientX clientY rnd th = Ok th' /\
    sim th' = Some s' /\ pointer th' = Some (x, y) /\
    log (gl s')
    = log (gl s)
      ++ [DrawArrays t1 (Splat n1 (mk2 x y) c 0.03);
          DrawArrays t2 (SplatVel n2 (mk2 x y) (mk2 ((x - lastX) * 8) ((y - lastY) * 8))
                                  0.03)] /\
    (rect_left rect <= clientX <= rect_left rect + rect_width rect -> 0 <= x <= 1) /\
    (rect_top rect <= clientY <= rect_top rect + rect_height rect -> 0 <= y <= 1).
Proof.
  intros P Hs (d & v & p & dv & Hwf) Hw Hh x y.
  unfold pointermove. rewrite P, Hs. cbn [deref mbind result_bind]. fold x y.
  match goal with |- context [splat x y ?c ?r ?f s] =>
    destruct (splat_spec s d v p dv x y c r f Hwf) as (s' & E & _ & R & _); rewrite E;
      set (col := c) in *
  end.
  cbn [mbind result_bind].
  eexists _, s', _, _, _, _, col. split; [reflexivity|].
  split; [reflexivity|]. split; [reflexivity|].
  split.
  { rewrite (ran_log _ _ _ R). unfold splat_radius, splat_force. cbn [x2 y2].
    rewrite !num_or_0, (Rmax_right 0.002 0.03) by lra. reflexivity. }
  assert (D : forall a b, 0 < b -> 0 <= a <= b -> 0 <= a / b <= 1).
  { intros a b Hb Ha. split.
    - apply Rmult_le_pos; [lra | left; apply Rinv_0_lt_compat; exact Hb].
    - apply Rmult_le_reg_r with b; [exact Hb|].
      unfold Rdiv. rewrite Rmult_assoc, Rinv_l by lra. lra. }
  split.
  - intros Hx. apply D; [exact Hw | lra].
  - intros Hy. pose proof (D (clientY - rect_top rect) (rect_height rect) Hh) as K.
    unfold y. lra.
Qed.

Lemma pointer_splat_witness :
  let x := (30 - 10) / 80 in
  let y := 1 - (25 - 20) / 50 in
  exists th' s' t1 t2 n1 n2 c,
    pointermove (mkRect 10 20 80 50) 30 25 (fun _ => 0.5) demo_theme = Ok th' /\
    sim th' = Some s' /\ pointer th' = Some (x, y) /\
    log (gl s')
    = log (gl demo)
      ++ [DrawArrays t1 (Splat n1 (mk2 x y) c 0.03);
          DrawArrays t2 (SplatVel n2 (mk2 x y) (mk2 ((x - 0.5) * 8) ((y - 0.5) * 8)) 0.03)] /\
    (10 <= 30 <= 10 + 80 -> 0 <= x <= 1) /\
    (20 <= 25 <= 20 + 50 -> 0 <= y <= 1).
Proof.
  apply (pointer_splat demo_theme demo 0.5 0.5 (mkRect 10 20 80 50) 30 25 (fun _ => 0.5));
    [reflexivity | reflexivity | exact demo_wf | cbn; lra | cbn; lra].
Defined.

(** X24.  When the layout gives the container a new box and the window
    then fires its resize event, the wrapper's listener resizes the
    engine: the grid becomes max(2, floor(box * ratio)) cells each way
    for a canvas still in the page, the product being the double it is
    rounded to.  If that is another size than before, all fields read
    zero afterwards: the dye on screen is lost; if it is the same size,
    the engine is untouched but for the box. *)
Theorem window_resize (th : Theme) (s : Sim) (bw bh : Z) (rnd : nat -> R) :
  sim th = Some s -> resizing th = true -> wf s -> parentNode (canvas s) = true ->
  exists th' s',
    theme_run rnd [ContainerLayout bw bh; WindowResize] th = Ok th' /\
    sim th' = Some s' /\
    width s' = Z.max 2 (Zfloor (fl s (IZR bw * dpr s))) /\
    height s' = Z.max 2 (Zfloor (fl s (IZR bh * dpr s))) /\
    (width s' <> width s \/ height s' <> height s -> fields_blank s') /\
    (width s' = width s /\ height s' = height s -> s' = layout bw bh s).
Proof.
  intros Hs Hr Hwf P. cbn [theme_run theme_dispatch]. rewrite Hs.
  cbn [mbind result_bind resizing with_sim]. rewrite Hr.
  unfold onWindowResize. cbn [sim with_sim].
  exists (with_sim (resize (layout bw bh s)) (randoms th)
            (with_sim (layout bw bh s) (randoms th) th)), (resize (layout bw bh s)).
  split; [reflexivity|]. split; [reflexivity|].
  destruct (resize_size (layout bw bh s)) as [W H].
  assert (Rw : requested_width (layout bw bh s)
               = Z.max 2 (Zfloor (fl s (IZR bw * dpr s)))).
  { unfold requested_width, layout, clientWidth.
    cbn [canvas set_canvas parentNode layoutWidth dpr fl]. rewrite P. reflexivity. }
  assert (Rh : requested_height (layout bw bh s)
               = Z.max 2 (Zfloor (fl s (IZR bh * dpr s)))).
  { unfold requested_height, layout, clientHeight.
    cbn [canvas set_canvas parentNode layoutHeight dpr fl]. rewrite P. reflexivity. }
  split; [congruence|]. split; [congruence|].
  change (width s) with (width (layout bw bh s)).
  change (height s) with (height (layout bw bh s)).
  split.
  - intros Hne.
    destruct (setSize_alloc (layout bw bh s))
      as (s' & d & v & p & dv & E & _ & _ & _ & _ & _ & _ & _ & _ & _ & _ & _ & _ & _
            & Zd & Zv & Zp & Zdv & _).
    { rewrite <- W, <- H. exact Hne. }
    unfold resize. rewrite E. cbn [snd]. intros i j. auto.
  - intros [Ew Eh]. unfold resize. rewrite setSize_same by congruence. reflexivity.
Qed.

Lemma window_resize_witness :
  exists th' s',
    theme_run (fun _ => 0.5) [ContainerLayout 8 6; WindowResize]
              (with_sim stirred 225 demo_theme) = Ok th' /\
    sim th' = Some s' /\ width s' = 8%Z /\ height s' = 6%Z /\ fields_blank s'.
Proof.
  destruct (window_resize (with_sim stirred 225 demo_theme) stirred 8 6 (fun _ => 0.5))
    as (th' & s' & E & Es & W & H & B & _);
    [reflexivity | reflexivity | exact (proj1 stirred_spec) | exact stirred_attached |].
  destruct stirred_arith as [F D].
  rewrite F, D, Rmult_1_r, Zfloor_IZR in W, H.
  exists th', s'. split; [exact E|]. split; [exact Es|].
  split; [exact W|]. split; [exact H|].
  apply B. left. rewrite W. destruct stirred_spec as (_ & _ & -> & _). discriminate.
Defined.
